(** * Billing-Software-Backend: the PDF rendering service

    A shallow embedding of [src/services/pdf.service.js] (class [PDFService])
    and the properties its specification states about it:

    - [Pagination]   [shouldBreakPage], the terms-and-conditions page break;
    - [Currency]     [formatCurrency];
    - [Rates]        [getExchangeRates] and [convertRates] with the in-memory
                     exchange-rate cache;
    - [Terms]        [processTermsAndConditions];
    - [Render]       [initBrowser], [closeBrowser] and the retry loop of
                     [generatePurchaseOrderPDF], run by one caller;
    - [Async]        the same methods as an interleaving of tasks that are
                     suspended at each [await].

    Platform functions (Intl.NumberFormat, String.prototype.toUpperCase,
    axios, puppeteer) are not part of the repository: they enter the model as
    section variables or as the outcomes an environment script supplies. *)

From Stdlib Require Import ZArith QArith Qcanon Lia Bool List Ascii String.
From Stdlib Require Import DecimalString.
From stdpp Require Import base option list gmap strings.
Import ListNotations.

Local Open Scope Z_scope.

(* ===================================================================== *)
(** * JavaScript strings of error messages and currency codes *)
(* ===================================================================== *)

Module JsString.

(** [haystack.includes(needle)]: [needle] occurs as a contiguous substring. *)
Fixpoint includes (needle haystack : string) : bool :=
  match haystack with
  | EmptyString => String.prefix needle EmptyString
  | String _ rest =>
      String.prefix needle haystack || includes needle rest
  end.

(** [["JPY", "KRW"].includes(code)] on an array of strings. *)
Definition array_includes (xs : list string) (x : string) : bool :=
  existsb (String.eqb x) xs.

(** ASCII letters only: the model of [toUpperCase] used in worked examples. *)
Definition ascii_upper (c : ascii) : ascii :=
  let n := nat_of_ascii c in
  if ((97 <=? n)%nat && (n <=? 122)%nat)%bool then ascii_of_nat (n - 32) else c.

Fixpoint ascii_toUpperCase (s : string) : string :=
  match s with
  | EmptyString => EmptyString
  | String c rest => String (ascii_upper c) (ascii_toUpperCase rest)
  end.

End JsString.

(* ===================================================================== *)
(** * Object literals used as tables *)
(* ===================================================================== *)

Module JsObject.

(** The names under which an object literal inherits a value from
    [Object.prototype]; every one of these values is truthy. *)
Definition prototypeKeys : list string :=
  [ "constructor"; "__defineGetter__"; "__defineSetter__"; "hasOwnProperty";
    "__lookupGetter__"; "__lookupSetter__"; "isPrototypeOf";
    "propertyIsEnumerable"; "toString"; "valueOf"; "__proto__";
    "toLocaleString" ]%string.

End JsObject.

(* ===================================================================== *)
(** * Pagination: [shouldBreakPage] inside [generateHTML] *)
(* ===================================================================== *)

Module Pagination.

Section Items.
(** A line item is opaque to the pagination decision. *)
Variable LineItem : Type.

(** [const shouldBreakPage = () => { if (items.length <= 8) return false;
    return true; }] *)
Definition shouldBreakPage (items : list LineItem) : bool :=
  if (Z.of_nat (length items) <=? 8) then false else true.

(** The class attribute of the terms section,
    [`terms-section ${shouldBreakPage() ? "new-page" : ""}`]; the style sheet
    gives [.terms-section.new-page] the rule [page-break-before: always]. *)
Definition termsSectionClass (items : list LineItem) : string :=
  ("terms-section " ++ (if shouldBreakPage items then "new-page" else ""))%string.

End Items.

End Pagination.

(* ===================================================================== *)
(** * Currency: [formatCurrency] *)
(* ===================================================================== *)

Module Currency.

Inductive Position := left | right.

(** One entry of [this.currencies]. *)
Record CurrencyConfig := {
  symbol : string;
  name : string;
  position : Position;
  spacing : bool
}.

Definition cfg (sym nm : string) (p : Position) (sp : bool) : CurrencyConfig :=
  {| symbol := sym; name := nm; position := p; spacing := sp |}.

Definition INR_config : CurrencyConfig := cfg "₹" "Indian Rupee" left false.

(** [this.currencies], as the constructor fills it. *)
Definition currencies : gmap string CurrencyConfig :=
  list_to_map
    [ ("USD", cfg "$" "US Dollar" left false);
      ("EUR", cfg "€" "Euro" right true);
      ("GBP", cfg "£" "British Pound" left false);
      ("JPY", cfg "¥" "Japanese Yen" left false);
      ("AUD", cfg "A$" "Australian Dollar" left false);
      ("CAD", cfg "C$" "Canadian Dollar" left false);
      ("CHF", cfg "Fr" "Swiss Franc" right true);
      ("CNY", cfg "¥" "Chinese Yuan" left false);
      ("SEK", cfg "kr" "Swedish Krona" right true);
      ("NZD", cfg "NZ$" "New Zealand Dollar" left false);
      ("MXN", cfg "$" "Mexican Peso" left false);
      ("SGD", cfg "S$" "Singapore Dollar" left false);
      ("HKD", cfg "HK$" "Hong Kong Dollar" left false);
      ("NOK", cfg "kr" "Norwegian Krone" right true);
      ("INR", INR_config);
      ("BRL", cfg "R$" "Brazilian Real" left false);
      ("ZAR", cfg "R" "South African Rand" left true);
      ("RUB", cfg "₽" "Russian Ruble" right true) ]%string.

Section Format.
(** The platform: JavaScript numbers with [isNaN], the number [0],
    [String.prototype.toUpperCase] and
    [new Intl.NumberFormat("en-IN", {minimumFractionDigits: d,
    maximumFractionDigits: d}).format]. *)
Variable number : Type.
Variable isNaN : number -> bool.
Variable zero : number.
Variable toUpperCase : string -> string.
Variable numberFormat : nat -> number -> string.

(** [(currencyCode || "INR")] with the default parameter [= "INR"]:
    [None] is an absent or null argument, the empty string is falsy. *)
Definition codeOrDefault (currencyCode : option string) : string :=
  match currencyCode with
  | None => "INR"
  | Some EmptyString => "INR"
  | Some c => c
  end.

Definition normalizedCode (currencyCode : option string) : string :=
  toUpperCase (codeOrDefault currencyCode).

(** [isNaN(numeric) ? 0 : numeric] *)
Definition safeNumber (numeric : number) : number :=
  if isNaN numeric then zero else numeric.

(** [this.currencies[code] || this.currencies.INR] *)
Definition configFor (code : string) : CurrencyConfig :=
  match currencies !! code with
  | Some c => c
  | None => INR_config
  end.

(** [["JPY", "KRW"].includes(code) ? 0 : 2] *)
Definition decimalPlaces (code : string) : nat :=
  if JsString.array_includes ["JPY"; "KRW"]%string code then 0%nat else 2%nat.

(** The four template literals that place the symbol. *)
Definition place (c : CurrencyConfig) (formatted : string) : string :=
  match position c with
  | left =>
      if spacing c then (symbol c ++ " " ++ formatted)%string
      else (symbol c ++ formatted)%string
  | right =>
      if spacing c then (formatted ++ " " ++ symbol c)%string
      else (formatted ++ symbol c)%string
  end.

Definition formatCurrency (amount : number) (currencyCode : option string) : string :=
  let code := normalizedCode currencyCode in
  let safe := safeNumber amount in
  let c := configFor code in
  let formatted := numberFormat (decimalPlaces code) safe in
  place c formatted.

End Format.

(** ** A concrete platform for worked examples: whole-number amounts.

    [Intl.NumberFormat("en-IN")] groups the integer part as 12,34,567 (three
    digits, then pairs) and pads the fraction to the requested digits. *)

Inductive whole := WNaN | Whole (z : Z).

Definition whole_isNaN (w : whole) : bool :=
  match w with WNaN => true | Whole _ => false end.

(** Digits, least significant first, with the separators of the Indian
    system inserted: [k] digits remain before the next comma. *)
Fixpoint group_rev (k : nat) (ds : list ascii) : list ascii :=
  match ds with
  | [] => []
  | d :: rest =>
      match k with
      | O => ","%char :: d :: group_rev 1 rest
      | S k' => d :: group_rev k' rest
      end
  end.

Definition digits_of (n : N) : list ascii :=
  list_ascii_of_string (NilZero.string_of_uint (N.to_uint n)).

Definition group_enIN (n : N) : string :=
  string_of_list_ascii (rev (group_rev 3 (rev (digits_of n)))).

Fixpoint zeros (d : nat) : string :=
  match d with O => EmptyString | S d' => String "0" (zeros d') end.

Definition whole_format (d : nat) (w : whole) : string :=
  match w with
  | WNaN => "NaN"
  | Whole z =>
      ((if (z <? 0)%Z then "-" else "") ++ group_enIN (Z.abs_N z)
        ++ (match d with O => "" | S _ => "." ++ zeros d end))%string
  end.

Definition formatWhole : whole -> option string -> string :=
  formatCurrency whole whole_isNaN (Whole 0) JsString.ascii_toUpperCase whole_format.

(** ** The other [formatCurrency], of [utils/currency.js] *)

Module Utils.

Definition currencySymbols : gmap string string :=
  list_to_map
    [ ("INR", "₹"); ("USD", "$"); ("EUR", "€"); ("GBP", "£"); ("JPY", "¥");
      ("AUD", "A$"); ("CAD", "C$"); ("CHF", "CHF"); ("CNY", "¥"); ("SEK", "kr");
      ("NZD", "NZ$"); ("MXN", "$"); ("SGD", "S$"); ("HKD", "HK$"); ("NOK", "kr");
      ("BRL", "R$"); ("ZAR", "R"); ("RUB", "₽") ]%string.

Section Format.
Variable number : Type.
Variable isNaN : number -> bool.
Variable zero : number.
(* [Math.round((parseFloat(num) + Number.EPSILON) * 100) / 100] *)
Variable round2 : number -> number.
Variable numberFormat : nat -> number -> string.

Definition roundToTwoDecimal (num : number) : number :=
  if isNaN num then zero else round2 num.

(** [currencySymbols[currency] || currency], for codes that are no
    properties of [Object.prototype]. *)
Definition symbolFor (currency : string) : string :=
  match currencySymbols !! currency with
  | Some sym => sym
  | None => currency
  end.

(** With the default [locale]; the default [currency] stands in for an
    absent argument only. *)
Definition formatCurrency (amount : number) (currency : option string) : string :=
  let amount := if isNaN amount then zero else amount in
  let code := match currency with None => "INR"%string | Some c => c end in
  (symbolFor code ++ numberFormat 2 (roundToTwoDecimal amount))%string.

End Format.

(** Rounding to two decimals leaves a whole number as it is. *)
Definition formatWhole : whole -> option string -> string :=
  formatCurrency whole whole_isNaN (Whole 0) (fun w => w) whole_format.

End Utils.

End Currency.

(* ===================================================================== *)
(** * Rates: [getExchangeRates], [convertRates] and the cache *)
(* ===================================================================== *)

Module Rates.

(** A number in a rates object: a rational or [NaN]. Rates are modelled as
    exact rationals; no property below depends on rounding. *)
Inductive Rate :=
| Num (q : Qc)
| NaN.

(** A rates object maps a currency code to a number. *)
Abbreviation RateMap := (gmap string Rate).

(** [this.exchangeRateCache]; [lastUpdated] is [null] or a [Date.now()]
    reading. *)
Record ExchangeRateCache := {
  rates : RateMap;
  lastUpdated : option Z;
  cacheValidityMs : Z
}.

(** The constructor's cache: [{ rates: {}, lastUpdated: null,
    cacheValidityMs: 3600000 }]. *)
Definition initialCache : ExchangeRateCache :=
  {| rates := ∅; lastUpdated := None; cacheValidityMs := 3600000 |}.

(** What [await axios.get(url, { timeout: 5000 })] gives: a rejection
    (timeout, network error, status outside 2xx) or a response whose [data]
    may be missing and whose [data.rates] may be missing. A rates object
    that is there is taken as it comes, whatever it holds. *)
Inductive Response :=
| NoData
| Data (body_rates : option RateMap).

Inductive AxiosResult :=
| Rejected (message : string)
| Resolved (response : Response).

Definition dec (num : Z) (den : positive) : Rate := Num (Q2Qc (num # den)).

(** [fallbackRates] of the [catch] block. *)
Definition fallbackRates : RateMap :=
  list_to_map
    [ ("USD", dec 12 1000); ("EUR", dec 11 1000); ("GBP", dec 96 10000);
      ("JPY", dec 179 100); ("AUD", dec 18 1000); ("CAD", dec 16 1000);
      ("CHF", dec 11 1000); ("CNY", dec 86 1000); ("SEK", dec 13 100);
      ("NZD", dec 2 100); ("MXN", dec 21 100); ("SGD", dec 16 1000);
      ("HKD", dec 95 1000); ("NOK", dec 13 100); ("INR", dec 1 1);
      ("BRL", dec 62 1000); ("ZAR", dec 22 100); ("RUB", dec 115 100) ]%string.

(** [rate / baseRate] for a base rate that is a number other than 0. *)
Definition divide (baseRate : Qc) (rate : Rate) : Rate :=
  match rate with
  | Num q => Num (q / baseRate)%Qc
  | NaN => NaN
  end.

(** [convertRates(rates, newBase)]. [rates[newBase]] is the own entry of the
    object or, for a name that objects inherit from [Object.prototype] and
    that is no own entry, the inherited function or object. [!baseRate]
    holds for a missing entry, for the number 0 and for [NaN]; an inherited
    value is truthy, and a number divided by it is [NaN]. *)
Definition convertRates (rs : RateMap) (newBase : string) : RateMap :=
  match rs !! newBase with
  | Some (Num baseRate) =>
      if decide (baseRate = 0%Qc) then rs
      else divide baseRate <$> rs
  | Some NaN => rs
  | None =>
      if JsString.array_includes JsObject.prototypeKeys newBase
      then (fun _ => NaN) <$> rs
      else rs
  end.

(** The value the [catch] block returns. *)
Definition fallbackFor (baseCurrency : string) : RateMap :=
  if String.eqb baseCurrency "INR" then fallbackRates
  else convertRates fallbackRates baseCurrency.

(** [this.exchangeRateCache.lastUpdated && now - lastUpdated < cacheValidityMs]:
    [null] and the number 0 are falsy. *)
Definition cacheIsValid (now : Z) (c : ExchangeRateCache) : bool :=
  match lastUpdated c with
  | None => false
  | Some t => negb (t =? 0) && (now - t <? cacheValidityMs c)
  end.

Definition endpoint (baseCurrency : string) : string :=
  ("https://api.exchangerate-api.com/v4/latest/" ++ baseCurrency)%string.

(** One call: the rates returned, the cache afterwards, and the URL requested
    from the network ([None] when no request was made). [now] is the call's
    [Date.now()] and [net] what the network answers if it is asked. *)
Definition getExchangeRates (baseCurrency : string) (now : Z) (net : AxiosResult)
    (c : ExchangeRateCache) : RateMap * ExchangeRateCache * option string :=
  if cacheIsValid now c then (rates c, c, None)
  else
    match net with
    | Resolved (Data (Some fresh)) =>
        (fresh,
         {| rates := fresh; lastUpdated := Some now;
            cacheValidityMs := cacheValidityMs c |},
         Some (endpoint baseCurrency))
    | _ => (fallbackFor baseCurrency, c, Some (endpoint baseCurrency))
    end.

(** The fetch of a call fails: the request is rejected, or the body lacks
    [data] or [data.rates]. *)
Definition fetchFails (net : AxiosResult) : Prop :=
  match net with
  | Resolved (Data (Some _)) => False
  | _ => True
  end.

End Rates.

(* ===================================================================== *)
(** * Terms: [processTermsAndConditions] inside [generateHTML] *)
(* ===================================================================== *)

Module Terms.

(** A JavaScript string is a sequence of UTF-16 code units. *)
Abbreviation ustring := (list N).

(** An ASCII literal as a JavaScript string. *)
Definition js (s : string) : ustring := map N_of_ascii (list_ascii_of_string s).

(** ** Character classes of the regular expressions *)

(** [\s], which is also what [trim] removes: WhiteSpace and LineTerminator. *)
Definition is_space (c : N) : bool :=
  match c with
  | 9 | 10 | 11 | 12 | 13 | 32 | 160 | 5760
  | 8232 | 8233 | 8239 | 8287 | 12288 | 65279 => true
  | _ => (8192 <=? c) && (c <=? 8202)
  end%N.

(** [\d] *)
Definition is_digit (c : N) : bool := ((48 <=? c) && (c <=? 57))%N.

Definition quote : N := 34.      (* the double quote *)
Definition apostrophe : N := 39. (* the single quote *)
Definition comma : N := 44.
Definition dot : N := 46.
Definition lbracket : N := 91.
Definition backslash : N := 92.
Definition rbracket : N := 93.
Definition space : N := 32.

(** The class of the first edge-stripping expression: double quote, single
    quote and the two square brackets. *)
Definition is_quote_or_bracket (c : N) : bool :=
  ((c =? quote) || (c =? apostrophe) || (c =? lbracket) || (c =? rbracket))%N.

(** The class of the final edge-stripping expression: double quote, single
    quote, comma and [\s]. *)
Definition is_quote_comma_space (c : N) : bool :=
  ((c =? quote) || (c =? apostrophe) || (c =? comma))%N || is_space c.

(** ** String methods *)

Fixpoint dropWhile (p : N -> bool) (s : ustring) : ustring :=
  match s with
  | [] => []
  | c :: rest => if p c then dropWhile p rest else s
  end.

Fixpoint dropWhileEnd (p : N -> bool) (s : ustring) : ustring :=
  match s with
  | [] => []
  | c :: rest =>
      match dropWhileEnd p rest with
      | [] => if p c then [] else [c]
      | kept => c :: kept
      end
  end.

(** [s.replace(/^[class]+|[class]+$/g, "")]: the run of class characters at
    the start and the run at the end are removed. *)
Definition strip_edges (p : N -> bool) (s : ustring) : ustring :=
  dropWhileEnd p (dropWhile p s).

(** [s.trim()] *)
Definition trim (s : ustring) : ustring := strip_edges is_space s.

(** [s.replace] of every backslash followed by a double quote with a double
    quote alone. *)
Fixpoint unescape_quotes (s : ustring) : ustring :=
  match s with
  | [] => []
  | c :: rest =>
      match rest with
      | c' :: rest' =>
          if ((c =? backslash) && (c' =? quote))%N
          then quote :: unescape_quotes rest'
          else c :: unescape_quotes rest
      | [] => [c]
      end
  end.

(** [s.replace] of every run [\s+] with one space: a white-space character
    followed by another one is dropped, the last one of a run becomes a
    space. *)
Fixpoint collapse_spaces (s : ustring) : ustring :=
  match s with
  | [] => []
  | c :: rest =>
      if is_space c then
        match rest with
        | c' :: _ => if is_space c' then collapse_spaces rest
                     else space :: collapse_spaces rest
        | [] => [space]
        end
      else c :: collapse_spaces rest
  end.

(** [s.replace] of every quote-comma-quote sequence with one space. *)
Fixpoint replace_quote_comma_quote (s : ustring) : ustring :=
  match s with
  | [] => []
  | c :: rest =>
      match rest with
      | c1 :: c2 :: rest' =>
          if ((c =? quote) && (c1 =? comma) && (c2 =? quote))%N
          then space :: replace_quote_comma_quote rest'
          else c :: replace_quote_comma_quote rest
      | _ => c :: replace_quote_comma_quote rest
      end
  end.

(** [s.match(/\d+\./)] is not null: a digit is followed by a dot. *)
Fixpoint has_marker (s : ustring) : bool :=
  match s with
  | [] => false
  | c :: rest =>
      (is_digit c && match rest with
                     | c' :: _ => (c' =? dot)%N
                     | [] => false
                     end)
      || has_marker rest
  end.

(** [/\s*\d+\.\s*/] matched at the start of [s]: what follows the match. The
    three classes are disjoint, so the greedy match is the only one. *)
Definition marker_at (s : ustring) : option ustring :=
  match dropWhile is_space s with
  | d :: after_d =>
      if is_digit d then
        match dropWhile is_digit after_d with
        | c :: after_dot =>
            if (c =? dot)%N then Some (dropWhile is_space after_dot) else None
        | [] => None
        end
      else None
  | [] => None
  end.

(** [s.split(/\s*\d+\.\s*/)]: the loop of RegExp.prototype[Symbol.split].
    [seg] is the segment read since the last separator; every round consumes
    at least one code unit, so [length s] rounds are enough. *)
Fixpoint split_loop (fuel : nat) (seg s : ustring) : list ustring :=
  match fuel with
  | O => [seg ++ s]
  | S fuel' =>
      match s with
      | [] => [seg]
      | c :: rest =>
          match marker_at s with
          | Some after => seg :: split_loop fuel' [] after
          | None => split_loop fuel' (seg ++ [c]) rest
          end
      end
  end.

Definition split_numbered (s : ustring) : list ustring :=
  split_loop (length s) [] s.

Definition nonempty (s : ustring) : bool :=
  match s with [] => false | _ => true end.

(** [s.startsWith] an opening and [s.endsWith] a closing square bracket. *)
Definition bracketed (s : ustring) : bool :=
  match s with
  | c :: _ => (c =? lbracket)%N &&
              match last s with
              | Some c' => (c' =? rbracket)%N
              | None => false
              end
  | [] => false
  end.

(** The manual removal of the array brackets after a failed parse: one
    opening bracket at the start and one closing bracket at the end. *)
Definition strip_one_bracket (s : ustring) : ustring :=
  let s1 := match s with
            | c :: rest => if (c =? lbracket)%N then rest else s
            | [] => []
            end in
  match rev s1 with
  | c :: rest => if (c =? rbracket)%N then rev rest else s1
  | [] => []
  end.

(** ** The function *)

(** An element of an array argument: a string, or a value of another type. *)
Inductive Elem :=
| EStr (s : ustring)
| EOther.

(** The argument [terms]. *)
Inductive TermsInput :=
| TFalsy                      (* null, undefined, and other falsy non-strings *)
| TStr (s : ustring)
| TArr (elems : list Elem)
| TOther.                     (* a truthy value that is no array and no string *)

(** What [JSON.parse] does with a string. *)
Inductive JsonResult :=
| JsonThrows
| JsonArray (elems : list Elem)
| JsonOther.

(** The branch taken when the cleaned string matches [/\d+\./]:
    [split], [slice(1)], [map(trim)], [filter(length > 0)], guarded by
    [numberedSplit.length > 1]. *)
Definition numberedTerms (clean : ustring) : list ustring :=
  if has_marker clean then
    let numberedSplit := split_numbered clean in
    if (1 <? length numberedSplit)%nat then
      filter (fun t => nonempty t = true) (map trim (tail numberedSplit))
    else [clean]
  else [clean].

(** The body of [terms.forEach] for one element. *)
Definition processElement (term : Elem) : list ustring :=
  match term with
  | EStr t =>
      if nonempty (trim t) then
        let cleanTerm := trim (unescape_quotes (strip_edges is_quote_or_bracket t)) in
        numberedTerms cleanTerm
      else []
  | EOther => []
  end.

(** The final [map] and [filter] over [processedTerms]. *)
Definition finalTerm (term : ustring) : ustring :=
  trim (collapse_spaces (strip_edges is_quote_comma_space term)).

Definition finalCleanup (processedTerms : list ustring) : list ustring :=
  filter (fun t => nonempty t = true) (map finalTerm processedTerms).

Definition processArray (elems : list Elem) : list ustring :=
  finalCleanup (flat_map processElement elems).

(** The string branch from [cleanString] on. *)
Definition processCleanString (cleanString : ustring) : list ustring :=
  let clean :=
    trim (collapse_spaces (unescape_quotes
      (strip_edges is_quote_or_bracket (replace_quote_comma_quote cleanString)))) in
  match clean with
  | [] => []
  | _ => finalCleanup (numberedTerms clean)
  end.

Section Normalize.
Variable JSON_parse : ustring -> JsonResult.

Definition processTermsAndConditions (terms : TermsInput) : list ustring :=
  match terms with
  | TFalsy => []
  | TStr [] => []
  | TArr elems => processArray elems
  | TStr s =>
      if bracketed s then
        match JSON_parse s with
        | JsonArray parsedArray => processArray parsedArray
        | JsonOther => processCleanString s
        | JsonThrows => processCleanString (strip_one_bracket s)
        end
      else processCleanString s
  | TOther => finalCleanup []
  end.

End Normalize.

(** An array of strings as an argument. *)
Definition strings (xs : list ustring) : TermsInput := TArr (map EStr xs).

(** A [JSON.parse] that rejects every text: the examples on arrays and on
    unbracketed strings never call it. *)
Definition json_rejects : ustring -> JsonResult := fun _ => JsonThrows.

Definition Normalize : TermsInput -> list ustring :=
  processTermsAndConditions json_rejects.

End Terms.

(* ===================================================================== *)
(** * Render: [generatePurchaseOrderPDF] run by one caller *)
(* ===================================================================== *)

Module Render.

(** How a call of an [async] method ends. *)
Inductive Completion (A : Type) : Type :=
| Returned (value : A)
| Thrown (message : string).
Arguments Returned {A} value.
Arguments Thrown {A} message.

(** A puppeteer browser object: its identity and its [connected] getter. *)
Record Browser := { handle : nat; connected : bool }.

(** The fields of a [PDFService]; [initPromise] records whether the field
    holds a promise or [null]. *)
Record PDFService := {
  browser : option Browser;
  isInitializing : bool;
  initPromise : bool;
  maxConcurrentPages : Z;
  activePages : Z;
  browserDisconnected : bool;
  maxRetries : nat;
  exchangeRateCache : Rates.ExchangeRateCache
}.

(** The service as the constructor leaves it. *)
Definition constructed : PDFService :=
  {| browser := None; isInitializing := false; initPromise := false;
     maxConcurrentPages := 2; activePages := 0; browserDisconnected := false;
     maxRetries := 3; exchangeRateCache := Rates.initialCache |}.

Definition with_browser (b : option Browser) (s : PDFService) : PDFService :=
  {| browser := b; isInitializing := isInitializing s; initPromise := initPromise s;
     maxConcurrentPages := maxConcurrentPages s; activePages := activePages s;
     browserDisconnected := browserDisconnected s; maxRetries := maxRetries s;
     exchangeRateCache := exchangeRateCache s |}.

Definition with_isInitializing (i : bool) (s : PDFService) : PDFService :=
  {| browser := browser s; isInitializing := i; initPromise := initPromise s;
     maxConcurrentPages := maxConcurrentPages s; activePages := activePages s;
     browserDisconnected := browserDisconnected s; maxRetries := maxRetries s;
     exchangeRateCache := exchangeRateCache s |}.

Definition with_initPromise (i : bool) (s : PDFService) : PDFService :=
  {| browser := browser s; isInitializing := isInitializing s; initPromise := i;
     maxConcurrentPages := maxConcurrentPages s; activePages := activePages s;
     browserDisconnected := browserDisconnected s; maxRetries := maxRetries s;
     exchangeRateCache := exchangeRateCache s |}.

Definition with_activePages (n : Z) (s : PDFService) : PDFService :=
  {| browser := browser s; isInitializing := isInitializing s; initPromise := initPromise s;
     maxConcurrentPages := maxConcurrentPages s; activePages := n;
     browserDisconnected := browserDisconnected s; maxRetries := maxRetries s;
     exchangeRateCache := exchangeRateCache s |}.

Definition with_browserDisconnected (d : bool) (s : PDFService) : PDFService :=
  {| browser := browser s; isInitializing := isInitializing s; initPromise := initPromise s;
     maxConcurrentPages := maxConcurrentPages s; activePages := activePages s;
     browserDisconnected := d; maxRetries := maxRetries s;
     exchangeRateCache := exchangeRateCache s |}.

Definition with_exchangeRateCache (c : Rates.ExchangeRateCache) (s : PDFService) : PDFService :=
  {| browser := browser s; isInitializing := isInitializing s; initPromise := initPromise s;
     maxConcurrentPages := maxConcurrentPages s; activePages := activePages s;
     browserDisconnected := browserDisconnected s; maxRetries := maxRetries s;
     exchangeRateCache := c |}.

(** What the caller does to the world outside the service, oldest first. *)
Inductive Event :=
| RatesRequested (url : string)
| Launch (resolved : option nat)          (* [_createBrowser()], with the new handle *)
| NewPage (b : nat) (opened : option nat) (* [browser.newPage()], with the new page *)
| PageClose (p : nat)                     (* [page.close()] *)
| BrowserClose (b : nat)                  (* [browser.close()] *)
| Settle (ms : Z)                         (* the timer before [page.pdf] *)
| Delay (ms : Z).                         (* the backoff timer *)

(** The service, the local variable [page] of the running call, the events
    so far and the counters that name new browsers and pages. *)
Record Machine := {
  service : PDFService;
  page : option nat;
  events : list Event;
  browsersLaunched : nat;
  pagesOpened : nat
}.

Definition idle (s : PDFService) : Machine :=
  {| service := s; page := None; events := []; browsersLaunched := 0; pagesOpened := 0 |}.

(** ** What the environment does during one attempt *)

Inductive LaunchResult :=
| LaunchFails (message : string)   (* any [throw] of [_createBrowser] *)
| Launched (isConnected : bool).   (* [puppeteer.launch] resolved *)

Definition PDF := string.

Record AttemptEnv := {
  (* the outcome of an initialization another caller has in flight *)
  sharedInit : Completion Browser;
  (* the outcome of [_createBrowser()], if it is called *)
  launch : LaunchResult;
  (* the browser emits [disconnected] once the attempt holds its slot *)
  disconnects : bool;
  (* [browser.newPage()] rejects with this message *)
  newPageFails : option string;
  (* the steps from [setViewport] to [setContent], [generateHTML] among
     them: the message of the first one that throws *)
  preparing : option string;
  (* [page.pdf], after the timer: the PDF or the message it rejects with *)
  rendering : Completion PDF;
  (* [page.close()] rejects *)
  pageCloseFails : bool
}.

(** The environment of a whole call. *)
Record CallEnv := {
  now : Z;
  net : Rates.AxiosResult;
  attemptEnv : nat -> AttemptEnv
}.

(** ** A state and exception monad over [Machine] *)

Definition M (A : Type) : Type := Machine -> Completion A * Machine.

Definition ret {A} (a : A) : M A := fun m => (Returned a, m).
Definition throw {A} (message : string) : M A := fun m => (Thrown message, m).

Definition bind {A B} (c : M A) (k : A -> M B) : M B :=
  fun m =>
    match c m with
    | (Returned a, m') => k a m'
    | (Thrown message, m') => (Thrown message, m')
    end.

(** [try { c } catch (error) { h error.message }] *)
Definition try_catch {A} (c : M A) (h : string -> M A) : M A :=
  fun m =>
    match c m with
    | (Returned a, m') => (Returned a, m')
    | (Thrown message, m') => h message m'
    end.

Notation "x <- c ;; k" := (bind c (fun x => k))
  (at level 100, c at next level, right associativity).
Notation "c ;;; k" := (bind c (fun _ => k))
  (at level 100, right associativity).

Definition this : M PDFService := fun m => (Returned (service m), m).

Definition update (f : PDFService -> PDFService) : M unit :=
  fun m =>
    (Returned tt,
     {| service := f (service m); page := page m; events := events m;
        browsersLaunched := browsersLaunched m; pagesOpened := pagesOpened m |}).

Definition emit (e : Event) : M unit :=
  fun m =>
    (Returned tt,
     {| service := service m; page := page m; events := events m ++ [e];
        browsersLaunched := browsersLaunched m; pagesOpened := pagesOpened m |}).

Definition get_page : M (option nat) := fun m => (Returned (page m), m).

Definition set_page (p : option nat) : M unit :=
  fun m =>
    (Returned tt,
     {| service := service m; page := p; events := events m;
        browsersLaunched := browsersLaunched m; pagesOpened := pagesOpened m |}).

Definition when (b : bool) (c : M unit) : M unit := if b then c else ret tt.

(** ** The methods *)

(** [_createBrowser()]: the probing of the environment and
    [puppeteer.launch] are the script's [launch]. *)
Definition _createBrowser (e : AttemptEnv) : M Browser :=
  fun m =>
    match launch e with
    | LaunchFails message =>
        (Thrown message,
         {| service := service m; page := page m;
            events := events m ++ [Launch None];
            browsersLaunched := browsersLaunched m; pagesOpened := pagesOpened m |})
    | Launched c =>
        (Returned {| handle := browsersLaunched m; connected := c |},
         {| service := service m; page := page m;
            events := events m ++ [Launch (Some (browsersLaunched m))];
            browsersLaunched := S (browsersLaunched m);
            pagesOpened := pagesOpened m |})
    end.

(** [!this.browser || !this.browser.connected || this.browserDisconnected] *)
Definition needsBrowser (s : PDFService) : bool :=
  match browser s with
  | None => true
  | Some b => negb (connected b)
  end || browserDisconnected s.

(** The listener [this.browser.on("disconnected", ...)]. *)
Definition onDisconnected (s : PDFService) : PDFService :=
  with_browser None (with_browserDisconnected true s).

Definition initBrowser (e : AttemptEnv) : M (option Browser) :=
  s <- this ;;
  if isInitializing s && initPromise s then
    (* return this.initPromise *)
    fun m => match sharedInit e with
             | Returned b => (Returned (Some b), m)
             | Thrown message => (Thrown message, m)
             end
  else
    when (needsBrowser s)
      (update (with_isInitializing true) ;;;
       update (with_browserDisconnected false) ;;;
       try_catch
         (update (with_initPromise true) ;;;
          b <- _createBrowser e ;;
          update (with_browser (Some b)) ;;;
          update (with_isInitializing false))
         (fun message =>
            update (with_isInitializing false) ;;;
            update (with_browserDisconnected true) ;;;
            throw message)) ;;;
    s' <- this ;;
    ret (browser s').

Definition closeBrowser : M unit :=
  s <- this ;;
  match browser s with
  | Some b =>
      emit (BrowserClose (handle b)) ;;;
      (* a rejection of [close()] is logged; [finally] runs either way *)
      update (with_browser None) ;;;
      update (with_browserDisconnected true)
  | None => ret tt
  end.

(** [await page.close()] *)
Definition closePage (e : AttemptEnv) (p : nat) : M unit :=
  emit (PageClose p) ;;;
  if pageCloseFails e then throw "page.close failed" else ret tt.

Definition newPage (e : AttemptEnv) (b : Browser) : M nat :=
  fun m =>
    match newPageFails e with
    | Some message =>
        (Thrown message,
         {| service := service m; page := page m;
            events := events m ++ [NewPage (handle b) None];
            browsersLaunched := browsersLaunched m; pagesOpened := pagesOpened m |})
    | None =>
        (Returned (pagesOpened m),
         {| service := service m; page := page m;
            events := events m ++ [NewPage (handle b) (Some (pagesOpened m))];
            browsersLaunched := browsersLaunched m;
            pagesOpened := S (pagesOpened m) |})
    end.

(** The [try] block from [this.activePages++] on, with the browser [b]. *)
Definition renderWith (e : AttemptEnv) (b : Browser) : M PDF :=
  update (fun s => with_activePages (activePages s + 1) s) ;;;
  when (disconnects e) (update onDisconnected) ;;;
  p <- newPage e b ;;
  set_page (Some p) ;;;
  match preparing e with
  | Some message => throw message
  | None => ret tt
  end ;;;
  (* await new Promise((resolve) => setTimeout(resolve, 3000)) *)
  emit (Settle 3000) ;;;
  pdf <- (fun m => (rendering e, m)) ;;
  try_catch (closePage e p ;;; set_page None) (fun _ => ret tt) ;;;
  update (fun s => with_activePages (activePages s - 1) s) ;;;
  ret pdf.

(** The [try] block of one attempt. *)
Definition tryBlock (e : AttemptEnv) : M PDF :=
  acquired <- initBrowser e ;;
  match acquired with
  | None => throw "Cannot read properties of null (reading 'connected')"
  | Some b =>
      if negb (connected b) then throw "Browser is not connected"
      else renderWith e b
  end.

(** The three messages after which the browser is discarded. *)
Definition browserGone (message : string) : bool :=
  JsString.includes "Target closed" message
  || JsString.includes "Connection closed" message
  || JsString.includes "Protocol error" message.

Definition show_nat (n : nat) : string := NilZero.string_of_uint (Nat.to_uint n).
Definition show_Z (z : Z) : string := NilZero.string_of_int (Z.to_int z).

Definition exhaustedMessage (retries : nat) (message : string) : string :=
  ("PDF generation failed after " ++ show_nat retries ++ " attempts: " ++ message)%string.

(** [Math.min(1000 * Math.pow(2, attempt - 1), 10000)] *)
Definition backoff (attempt : nat) : Z :=
  Z.min (1000 * 2 ^ (Z.of_nat attempt - 1)) 10000.

(** The [catch] block of one attempt: it either throws the terminal error or
    ends after the backoff delay. *)
Definition catchBlock (e : AttemptEnv) (attempt : nat) (message : string) : M unit :=
  p <- get_page ;;
  match p with
  | Some p => try_catch (closePage e p) (fun _ => ret tt)
  | None => ret tt
  end ;;;
  update (fun s => with_activePages (Z.max 0 (activePages s - 1)) s) ;;;
  when (browserGone message)
    (closeBrowser ;;; update (with_browserDisconnected true)) ;;;
  s <- this ;;
  if (maxRetries s <=? attempt)%nat
  then throw (exhaustedMessage (maxRetries s) message)
  else emit (Delay (backoff attempt)).

(** One round of the loop body: [Some pdf] when the [try] block returns,
    [None] when the [catch] block ends normally and the loop goes on. *)
Definition attemptOnce (e : AttemptEnv) (attempt : nat) : M (option PDF) :=
  try_catch
    (pdf <- tryBlock e ;; ret (Some pdf))
    (fun message => catchBlock e attempt message ;;; ret None).

(** [while (attempt < this.maxRetries)]: [remaining] is
    [maxRetries - attempt]. A loop that ends without returning or throwing
    leaves the result [undefined]. *)
Fixpoint retryLoop (remaining attempt : nat) (env : nat -> AttemptEnv) : M (option PDF) :=
  match remaining with
  | O => ret None
  | S remaining' =>
      let attempt := S attempt in
      finished <- attemptOnce (env attempt) attempt ;;
      match finished with
      | Some pdf => ret (Some pdf)
      | None => retryLoop remaining' attempt env
      end
  end.

Definition concurrencyMessage (s : PDFService) : string :=
  ("Too many concurrent PDF operations (" ++ show_Z (activePages s) ++ "/"
     ++ show_Z (maxConcurrentPages s) ++ ")")%string.

(** [await this.getExchangeRates("INR")] *)
Definition fetchRates (env : CallEnv) : M Rates.RateMap :=
  fun m =>
    let '(rates, cache, request) :=
      Rates.getExchangeRates "INR" (now env) (net env)
        (exchangeRateCache (service m)) in
    (Returned rates,
     {| service := with_exchangeRateCache cache (service m); page := page m;
        events := events m ++ match request with
                              | Some url => [RatesRequested url]
                              | None => []
                              end;
        browsersLaunched := browsersLaunched m; pagesOpened := pagesOpened m |}).

(** The document data reaches the model only through the script: it decides
    what [generateHTML] and the page make of it ([preparing] and
    [rendering]). *)
Definition generatePurchaseOrderPDF (env : CallEnv) : M (option PDF) :=
  s <- this ;;
  if maxConcurrentPages s <=? activePages s then throw (concurrencyMessage s)
  else
    set_page None ;;;
    exchangeRates <- fetchRates env ;;
    s <- this ;;
    retryLoop (maxRetries s) 0 (attemptEnv env).

(** ** Scripts for worked examples *)

(** An attempt in which everything works. *)
Definition healthy (pdf : PDF) : AttemptEnv :=
  {| sharedInit := Thrown "no initialization in flight";
     launch := Launched true; disconnects := false; newPageFails := None;
     preparing := None; rendering := Returned pdf; pageCloseFails := false |}.

(** An attempt in which the browser cannot be started. *)
Definition cannotLaunch (message : string) : AttemptEnv :=
  {| sharedInit := Thrown "no initialization in flight";
     launch := LaunchFails message; disconnects := false; newPageFails := None;
     preparing := None; rendering := Thrown "not reached"; pageCloseFails := false |}.

(** An attempt whose page dies while it prints. *)
Definition pageDies (message : string) : AttemptEnv :=
  {| sharedInit := Thrown "no initialization in flight";
     launch := Launched true; disconnects := false; newPageFails := None;
     preparing := None; rendering := Thrown message; pageCloseFails := false |}.

(** An attempt whose page cannot load the document. *)
Definition contentFails (message : string) : AttemptEnv :=
  {| sharedInit := Thrown "no initialization in flight";
     launch := Launched true; disconnects := false; newPageFails := None;
     preparing := Some message; rendering := Thrown "not reached";
     pageCloseFails := false |}.

(** The service while one render holds a slot and the browser has just
    crashed: the [disconnected] listener has run. *)
Definition crashedWhileRendering : PDFService :=
  onDisconnected
    (with_activePages 1
       (with_initPromise true
          (with_browser (Some {| handle := 0; connected := true |}) constructed))).

Definition offline (attempts : nat -> AttemptEnv) : CallEnv :=
  {| now := 1700000000000;
     net := Rates.Rejected "timeout of 5000ms exceeded";
     attemptEnv := attempts |}.

End Render.

(* ===================================================================== *)
(** * Async: the calls of several requests, interleaved at each [await] *)
(* ===================================================================== *)

Module Async.

(** JavaScript runs one task at a time until it reaches an [await]; other
    tasks and the events of the environment run in between. A call of
    [generatePurchaseOrderPDF] is modelled by the place where it is
    suspended, together with its local variables [attempt] and [page]. The
    exchange-rate cache plays no part here and is left out. *)

Abbreviation Completion := Render.Completion.
Abbreviation Returned := Render.Returned.
Abbreviation Thrown := Render.Thrown.
Abbreviation PDF := Render.PDF.

(** The constructor's limits; no method assigns them. *)
Definition maxConcurrentPages : Z := 2.
Definition maxRetries : nat := 3.

(** The mutable fields of the one [PDFService] instance; browsers and
    promises are named by numbers. *)
Record Service := {
  browser : option nat;
  isInitializing : bool;
  initPromise : option nat;
  activePages : Z;
  browserDisconnected : bool
}.

Definition constructed : Service :=
  {| browser := None; isInitializing := false; initPromise := None;
     activePages := 0; browserDisconnected := false |}.

(** A promise returned by [_createBrowser()]. *)
Inductive Settlement :=
| Pending
| Fulfilled (b : nat)
| Rejected (message : string).

(** Where a call is suspended. *)
Inductive Task :=
| AwaitingRates
    (* [await this.getExchangeRates("INR")] *)
| AwaitingOwnLaunch (attempt : nat) (page : option nat) (promise : nat)
    (* in [initBrowser]: [this.browser = await this.initPromise] *)
| AwaitingSharedLaunch (attempt : nat) (page : option nat) (promise : nat)
    (* [initBrowser] returned the [initPromise] of another caller *)
| AwaitingInitBrowser (attempt : nat) (page : option nat)
    (result : Completion (option nat))
    (* [await this.initBrowser()], [initBrowser] having finished *)
| AwaitingNewPage (attempt : nat) (page : option nat) (b : nat)
    (* [page = await browser.newPage()] *)
| Rendering (attempt : nat) (p : nat)
    (* the awaits from [setViewport] to [page.pdf] *)
| ClosingPage (attempt : nat) (p : nat) (pdf : PDF)
    (* [await page.close()] of the [try] block *)
| CatchClosingPage (attempt : nat) (p : nat) (message : string)
    (* [await page.close()] of the [catch] block *)
| CatchClosingBrowser (attempt : nat) (page : option nat) (message : string) (b : nat)
    (* in [closeBrowser]: [await this.browser.close()] *)
| CatchAwaitingCloseBrowser (attempt : nat) (page : option nat) (message : string)
    (* [await this.closeBrowser()], [closeBrowser] having finished *)
| Sleeping (attempt : nat) (page : option nat)
    (* the backoff timer *)
| Finished (result : Completion (option PDF)).

Record World := {
  service : Service;
  promises : list Settlement;  (* the launches started so far *)
  connected : list nat;        (* the browsers whose connection is open *)
  listening : list nat;        (* the browsers that carry the listener *)
  browsers : nat;              (* browsers launched so far *)
  pages : nat;                 (* pages opened so far *)
  tasks : list Task
}.

Definition initial : World :=
  {| service := constructed; promises := []; connected := []; listening := [];
     browsers := 0; pages := 0; tasks := [] |}.

Definition with_service (s : Service) (w : World) : World :=
  {| service := s; promises := promises w; connected := connected w;
     listening := listening w; browsers := browsers w; pages := pages w;
     tasks := tasks w |}.

Definition with_tasks (ts : list Task) (w : World) : World :=
  {| service := service w; promises := promises w; connected := connected w;
     listening := listening w; browsers := browsers w; pages := pages w;
     tasks := ts |}.

Definition set_activePages (n : Z) (s : Service) : Service :=
  {| browser := browser s; isInitializing := isInitializing s;
     initPromise := initPromise s; activePages := n;
     browserDisconnected := browserDisconnected s |}.

Definition set_browserDisconnected (d : bool) (s : Service) : Service :=
  {| browser := browser s; isInitializing := isInitializing s;
     initPromise := initPromise s; activePages := activePages s;
     browserDisconnected := d |}.

Definition set_browser (b : option nat) (s : Service) : Service :=
  {| browser := b; isInitializing := isInitializing s;
     initPromise := initPromise s; activePages := activePages s;
     browserDisconnected := browserDisconnected s |}.

Definition set_isInitializing (i : bool) (s : Service) : Service :=
  {| browser := browser s; isInitializing := i;
     initPromise := initPromise s; activePages := activePages s;
     browserDisconnected := browserDisconnected s |}.

Definition set_initPromise (p : option nat) (s : Service) : Service :=
  {| browser := browser s; isInitializing := isInitializing s;
     initPromise := p; activePages := activePages s;
     browserDisconnected := browserDisconnected s |}.

Definition isConnected (w : World) (b : nat) : bool := existsb (Nat.eqb b) (connected w).

(** [!this.browser || !this.browser.connected || this.browserDisconnected] *)
Definition needsBrowser (w : World) : bool :=
  match browser (service w) with
  | None => true
  | Some b => negb (isConnected w b)
  end || browserDisconnected (service w).

(** ** The code between two awaits *)

(** The loop head and [initBrowser] up to its first [await]. *)
Definition startAttempt (attempt : nat) (page : option nat) (w : World) : Task * World :=
  if (attempt <? maxRetries)%nat then
    let attempt := S attempt in
    match isInitializing (service w), initPromise (service w) with
    | true, Some shared => (AwaitingSharedLaunch attempt page shared, w)
    | _, _ =>
        if needsBrowser w then
          let promise := length (promises w) in
          (AwaitingOwnLaunch attempt page promise,
           {| service :=
                set_initPromise (Some promise)
                  (set_browserDisconnected false
                     (set_isInitializing true (service w)));
              promises := promises w ++ [Pending];
              connected := connected w; listening := listening w;
              browsers := browsers w; pages := pages w; tasks := tasks w |})
        else
          (AwaitingInitBrowser attempt page (Returned (browser (service w))), w)
    end
  else (Finished (Returned None), w).

(** The end of the [catch] block. *)
Definition catchTail (attempt : nat) (page : option nat) (message : string)
    (w : World) : Task * World :=
  if (maxRetries <=? attempt)%nat
  then (Finished (Thrown (Render.exhaustedMessage maxRetries message)), w)
  else (Sleeping attempt page, w).

(** The [catch] block from [this.activePages = Math.max(0, ...)] on, with
    [closeBrowser] up to its [await]. *)
Definition catchRelease (attempt : nat) (page : option nat) (message : string)
    (w : World) : Task * World :=
  let w1 :=
    with_service
      (set_activePages (Z.max 0 (activePages (service w) - 1)) (service w)) w in
  if Render.browserGone message then
    match browser (service w1) with
    | Some b => (CatchClosingBrowser attempt page message b, w1)
    | None => (CatchAwaitingCloseBrowser attempt page message, w1)
    end
  else catchTail attempt page message w1.

(** The start of the [catch] block. *)
Definition catchEntry (attempt : nat) (page : option nat) (message : string)
    (w : World) : Task * World :=
  match page with
  | Some p => (CatchClosingPage attempt p message, w)
  | None => catchRelease attempt page message w
  end.

(** What follows [await this.initBrowser()]. *)
Definition afterInitBrowser (attempt : nat) (page : option nat)
    (result : Completion (option nat)) (w : World) : Task * World :=
  match result with
  | Render.Thrown message => catchEntry attempt page message w
  | Render.Returned None =>
      catchEntry attempt page
        "Cannot read properties of null (reading 'connected')" w
  | Render.Returned (Some b) =>
      if isConnected w b then
        (AwaitingNewPage attempt page b,
         with_service (set_activePages (activePages (service w) + 1) (service w)) w)
      else catchEntry attempt page "Browser is not connected" w
  end.

(** How an awaited operation of puppeteer or a timer ends. *)
Inductive Outcome :=
| Ok (pdf : PDF)              (* resolved; [pdf] is read after [page.pdf] only *)
| Failed (message : string).  (* rejected *)

(** Task [t] runs from its [await] to the next one. [None]: the awaited
    promise has not settled, or cannot settle that way. *)
Definition resume (t : Task) (o : Outcome) (w : World) : option (Task * World) :=
  match t with
  | AwaitingRates => Some (startAttempt 0 None w)
  | AwaitingOwnLaunch attempt page promise =>
      match promises w !! promise with
      | Some (Fulfilled b) =>
          Some (AwaitingInitBrowser attempt page (Returned (Some b)),
                {| service := set_isInitializing false
                                (set_browser (Some b) (service w));
                   promises := promises w; connected := connected w;
                   listening := b :: listening w;
                   browsers := browsers w; pages := pages w; tasks := tasks w |})
      | Some (Rejected message) =>
          Some (AwaitingInitBrowser attempt page (Thrown message),
                with_service
                  (set_browserDisconnected true
                     (set_isInitializing false (service w))) w)
      | _ => None
      end
  | AwaitingSharedLaunch attempt page promise =>
      match promises w !! promise with
      | Some (Fulfilled b) =>
          Some (afterInitBrowser attempt page (Returned (Some b)) w)
      | Some (Rejected message) =>
          Some (afterInitBrowser attempt page (Thrown message) w)
      | _ => None
      end
  | AwaitingInitBrowser attempt page result =>
      Some (afterInitBrowser attempt page result w)
  | AwaitingNewPage attempt page b =>
      match o with
      | Ok _ =>
          Some (Rendering attempt (pages w),
                {| service := service w; promises := promises w;
                   connected := connected w; listening := listening w;
                   browsers := browsers w; pages := S (pages w);
                   tasks := tasks w |})
      | Failed message => Some (catchEntry attempt page message w)
      end
  | Rendering attempt p =>
      match o with
      | Ok pdf => Some (ClosingPage attempt p pdf, w)
      | Failed message => Some (catchEntry attempt (Some p) message w)
      end
  | ClosingPage attempt p pdf =>
      Some (Finished (Returned (Some pdf)),
            with_service (set_activePages (activePages (service w) - 1) (service w)) w)
  | CatchClosingPage attempt p message =>
      Some (catchRelease attempt (Some p) message w)
  | CatchClosingBrowser attempt page message b =>
      match o with
      | Ok _ =>
          if isConnected w b then None
          else Some (CatchAwaitingCloseBrowser attempt page message,
                     with_service
                       (set_browserDisconnected true (set_browser None (service w))) w)
      | Failed _ =>
          Some (CatchAwaitingCloseBrowser attempt page message,
                with_service
                  (set_browserDisconnected true (set_browser None (service w))) w)
      end
  | CatchAwaitingCloseBrowser attempt page message =>
      Some (catchTail attempt page message
              (with_service (set_browserDisconnected true (service w)) w))
  | Sleeping attempt page => Some (startAttempt attempt page w)
  | Finished _ => None
  end.

(** ** The steps of the system *)

Inductive Label :=
| Call                                         (* a request calls the method *)
| Resume (i : nat) (o : Outcome)               (* the await of task [i] ends *)
| LaunchSettles (promise : nat) (failure : option string)
| Disconnects (b : nat).                       (* browser [b] loses its connection *)

Definition concurrencyMessage (s : Service) : string :=
  ("Too many concurrent PDF operations (" ++ Render.show_Z (activePages s) ++ "/"
     ++ Render.show_Z maxConcurrentPages ++ ")")%string.

Definition step (l : Label) (w : World) : option World :=
  match l with
  | Call =>
      if maxConcurrentPages <=? activePages (service w)
      then Some (with_tasks
                   (tasks w ++ [Finished (Thrown (concurrencyMessage (service w)))]) w)
      else Some (with_tasks (tasks w ++ [AwaitingRates]) w)
  | Resume i o =>
      match tasks w !! i with
      | Some t =>
          match resume t o w with
          | Some (t', w') => Some (with_tasks (<[i := t']> (tasks w')) w')
          | None => None
          end
      | None => None
      end
  | LaunchSettles promise failure =>
      match promises w !! promise with
      | Some Pending =>
          match failure with
          | Some message =>
              Some {| service := service w;
                      promises := <[promise := Rejected message]> (promises w);
                      connected := connected w; listening := listening w;
                      browsers := browsers w; pages := pages w; tasks := tasks w |}
          | None =>
              Some {| service := service w;
                      promises := <[promise := Fulfilled (browsers w)]> (promises w);
                      connected := connected w ++ [browsers w];
                      listening := listening w;
                      browsers := S (browsers w); pages := pages w;
                      tasks := tasks w |}
          end
      | _ => None
      end
  | Disconnects b =>
      if isConnected w b then
        Some {| service :=
                  if existsb (Nat.eqb b) (listening w)
                  then set_browser None (set_browserDisconnected true (service w))
                  else service w;
                promises := promises w;
                connected := List.filter (fun b' => negb (Nat.eqb b b')) (connected w);
                listening := listening w;
                browsers := browsers w; pages := pages w; tasks := tasks w |}
      else None
  end.

Fixpoint run (ls : list Label) (w : World) : option World :=
  match ls with
  | [] => Some w
  | l :: ls' =>
      match step l w with
      | Some w' => run ls' w'
      | None => None
      end
  end.

(** The worlds the system can be in. *)
Definition reachable (w : World) : Prop := exists ls, run ls initial = Some w.

(** ** Two schedules *)

Definition resumes (i : nat) : Label := Resume i (Ok "").

(** One render is under way when the browser crashes. *)
Definition oneRenderThenCrash : list Label :=
  [ Call;                 (* request 0 passes the gate *)
    resumes 0;            (* rates read; attempt 1 starts launch 0 *)
    LaunchSettles 0 None; (* browser 0 is up *)
    resumes 0;            (* [this.browser = 0], listener registered *)
    resumes 0;            (* [this.activePages++]: 1 *)
    resumes 0;            (* page 0 is open, rendering *)
    Disconnects 0 ].      (* browser 0 dies; the listener clears the handle *)

(** A second request starts a new browser while the first one handles its
    failure; the retry of the first request starts a third browser. *)
Definition secondBrowserLeaks : list Label :=
  oneRenderThenCrash ++
  [ Call;                 (* request 1 passes the gate *)
    resumes 1;            (* attempt 1 of request 1 starts launch 1 and
                             clears [browserDisconnected] *)
    Resume 0 (Failed "Protocol error (Page.printToPDF): Target closed");
                          (* request 0 fails and closes its page *)
    resumes 0;            (* [activePages] released; [closeBrowser] finds no handle *)
    resumes 0;            (* [this.browserDisconnected = true]; backoff *)
    LaunchSettles 1 None; (* browser 1 is up *)
    resumes 1;            (* [this.browser = 1] *)
    resumes 1;            (* request 1 holds a slot on browser 1 *)
    resumes 0;            (* retry of request 0: browser 1 is connected, but the
                             flag is set, so launch 2 starts *)
    LaunchSettles 2 None ].  (* browser 2 is up as well *)

(** The same two requests, to their ends: browser 2 comes up, request 0
    prints on it, request 1 prints on browser 1. *)
Definition bothRequestsFinish : list Label :=
  secondBrowserLeaks ++
  [ resumes 0;            (* [this.browser = 2]: browser 1 is overwritten *)
    resumes 0;            (* request 0 holds a slot on browser 2 *)
    resumes 0;            (* page 1 is open on browser 2 *)
    Resume 0 (Ok "%PDF-0");  (* [page.pdf] of request 0 *)
    resumes 0;            (* page closed; request 0 returns its PDF *)
    resumes 1;            (* page 2 is open on browser 1 *)
    Resume 1 (Ok "%PDF-1");  (* [page.pdf] of request 1 *)
    resumes 1 ].          (* page closed; request 1 returns its PDF *)

(** A second request fails to start a browser, releases a slot it never
    took, and then renders; a third request arrives. *)
Definition slotReleasedTwice : list Label :=
  oneRenderThenCrash ++
  [ Call;                 (* request 1 passes the gate: 1 < 2 *)
    resumes 1;            (* attempt 1 of request 1 starts launch 1 *)
    LaunchSettles 1 (Some "Failed to launch the browser process!");
    resumes 1;            (* [initBrowser] throws *)
    resumes 1;            (* catch: [activePages] = max(0, 1 - 1) = 0; backoff *)
    resumes 1;            (* attempt 2 starts launch 2 *)
    LaunchSettles 2 None; (* browser 1 is up *)
    resumes 1;            (* [this.browser = 1] *)
    resumes 1 ].          (* [this.activePages++]: 1; request 1 opens its page *)

(** Three requests arrive before any of them has reached
    [this.activePages++]. *)
Definition threeAtOnce : list Label :=
  [ Call; Call; Call;     (* the counter is 0 at each call *)
    resumes 0;            (* request 0 starts launch 0 *)
    resumes 1;            (* request 1 takes the stored promise *)
    resumes 2;            (* and so does request 2 *)
    LaunchSettles 0 None; (* browser 0 is up *)
    resumes 0;            (* [this.browser = 0] *)
    resumes 0;            (* [this.activePages++]: 1 *)
    resumes 1;            (* [this.activePages++]: 2 *)
    resumes 2 ].          (* [this.activePages++]: 3 *)

(** A task between [this.activePages++] and the decrement that pairs with
    it, as far as the place of suspension tells. *)
Definition holdsSlot (t : Task) : bool :=
  match t with
  | AwaitingNewPage _ _ _ | Rendering _ _ | ClosingPage _ _ _ => true
  | _ => false
  end.

(** The awaits and launches that fail in a schedule. *)
Definition failures (ls : list Label) : list Label :=
  List.filter (fun l => match l with
                        | Resume _ (Failed _) | LaunchSettles _ (Some _) => true
                        | _ => false
                        end) ls.

End Async.

From Stdlib Require DecimalN.

(* ===================================================================== *)
(** * Lifecycle: [cleanup] and requests served one after the other *)
(* ===================================================================== *)

Module Lifecycle.
Import Render.

(** [async cleanup() { await this.closeBrowser(); this.activePages = 0; }] *)
Definition cleanup : M unit :=
  closeBrowser ;;; update (with_activePages 0).


(** The backoff delays in a trace, oldest first. *)
Definition delays (evs : list Event) : list Z :=
  flat_map (fun ev => match ev with Delay ms => [ms] | _ => [] end) evs.

(** The waits before [page.pdf] in a trace, oldest first. *)
Definition settles (evs : list Event) : list Z :=
  flat_map (fun ev => match ev with Settle ms => [ms] | _ => [] end) evs.

End Lifecycle.

(* ===================================================================== *)
(** * Bursts: requests that arrive together *)
(* ===================================================================== *)

Module Burst.
Import Async.


(** [n + 1] requests arrive before any of them is resumed; request 0 starts
    the launch, the others take the stored promise; the browser comes up and
    each request goes on to [this.activePages++]. *)
Definition burst (n : nat) : list Label :=
  repeat Call (S n)
  ++ [resumes 0]
  ++ map resumes (seq 1 n)
  ++ [LaunchSettles 0 None; resumes 0; resumes 0]
  ++ map resumes (seq 1 n).

End Burst.

(* ===================================================================== *)
(** * Numbering: [formatPONo] and the controller's [formatBillNo] *)
(* ===================================================================== *)

Module Numbering.

Local Open Scope string_scope.

(** [Number.MAX_SAFE_INTEGER]: up to it every integer is a number of its
    own, printed in plain digits. *)
Definition maxSafe : N := 9007199254740991.

(** [String(seq)] for a sequence number, an integer from 0 to [maxSafe]. *)
Definition show_N (n : N) : string := NilZero.string_of_uint (N.to_uint n).

(** [s.padStart(targetLength, fill)] with a fill of one character. *)
Definition padStart (targetLength : nat) (fill : ascii) (s : string) : string :=
  string_of_list_ascii (repeat fill (targetLength - String.length s)) ++ s.

(** [process.env.NAME || fallback]: a variable that is not set and one that
    is set to the empty string both give the fallback. *)
Definition envOr (value : option string) (fallback : string) : string :=
  match value with
  | None => fallback
  | Some EmptyString => fallback
  | Some v => v
  end.

(** The environment variables the two functions read. *)
Record Env := {
  COMPANY_PREFIX : option string;
  YEAR_RANGE : option string;
  COMPANY_PREFIX_PO : option string;
  COMPANY_PREFIX_PI : option string;
  COMPANY_PREFIX_INV : option string
}.

Definition unset : Env :=
  {| COMPANY_PREFIX := None; YEAR_RANGE := None; COMPANY_PREFIX_PO := None;
     COMPANY_PREFIX_PI := None; COMPANY_PREFIX_INV := None |}.

(** [formatPONo(seq)] of [services/pdf.service.js]. *)
Definition formatPONo (env : Env) (seq : N) : string :=
  envOr (COMPANY_PREFIX env) "INGPO" ++ "/" ++ envOr (YEAR_RANGE env) "25-26"
    ++ "/" ++ padStart 3 "0" (show_N seq).

(** The year range of [formatBillNo], from [now.getFullYear()]. *)
Definition yearRange (currentYear : N) : string :=
  let shortYear := (currentYear mod 100)%N in
  let nextYear := ((shortYear + 1) mod 100)%N in
  show_N shortYear ++ "-" ++ show_N nextYear.

(** The object literal [prefixes]. *)
Definition prefixes (env : Env) : list (string * string) :=
  [ ("purchase_order", envOr (COMPANY_PREFIX_PO env) "INGPO");
    ("proforma_invoice", envOr (COMPANY_PREFIX_PI env) "INGPI");
    ("invoice", envOr (COMPANY_PREFIX_INV env) "INGINV") ].

Fixpoint own {V} (table : list (string * V)) (key : string) : option V :=
  match table with
  | [] => None
  | (k, v) :: rest => if String.eqb k key then Some v else own rest key
  end.

Section FormatBillNo.
(** The text of the value that an object literal inherits from
    [Object.prototype] under a key, for the keys it has there. *)
Variable inheritedText : string -> option string.

(** [prefixes[type] || "INGPO"]: every own value is a non-empty string. *)
Definition prefixFor (env : Env) (type : string) : string :=
  match own (prefixes env) type with
  | Some prefix => prefix
  | None =>
      match inheritedText type with
      | Some text => text
      | None => "INGPO"
      end
  end.

(** [formatBillNo(type, seq)] of the bill controller, in the year
    [currentYear]. *)
Definition formatBillNo (env : Env) (currentYear : N) (type : string) (seq : N) : string :=
  prefixFor env type ++ "/" ++ yearRange currentYear ++ "/" ++ padStart 3 "0" (show_N seq).

End FormatBillNo.

(** The three document types. *)
Definition documentTypes : list string :=
  ["purchase_order"; "proforma_invoice"; "invoice"].

End Numbering.

(* ===================================================================== *)
(** * The bill controller: document type and currency of a request *)
(* ===================================================================== *)

Module BillRequest.
Import Terms.

(** The table [map] of [normalizeBillType]. *)
Definition typeMap : list (ustring * ustring) :=
  [ (js "po", js "purchase_order");
    (js "p_o", js "purchase_order");
    (js "purchase", js "purchase_order");
    (js "purchaseorder", js "purchase_order");
    (js "purchase-order", js "purchase_order");
    (js "purchase_order", js "purchase_order");
    (js "pi", js "proforma_invoice");
    (js "proforma", js "proforma_invoice");
    (js "proforma_invoice", js "proforma_invoice");
    (js "proforma-invoice", js "proforma_invoice");
    (js "proformainvoice", js "proforma_invoice");
    (js "invoice", js "invoice");
    (js "inv", js "invoice") ].

Definition canonicalTypes : list ustring :=
  [js "purchase_order"; js "proforma_invoice"; js "invoice"].

Fixpoint lookupOwn {V} (table : list (ustring * V)) (key : ustring) : option V :=
  match table with
  | [] => None
  | (k, v) :: rest => if bool_decide (k = key) then Some v else lookupOwn rest key
  end.

(** What [normalizeBillType] returns: one of its strings, or the value the
    table inherits from [Object.prototype] under the key, which is no
    string. *)
Inductive BillType :=
| Canonical (type : ustring)
| Inherited (key : ustring).

Section NormalizeBillType.
Variable toLowerCase : ustring -> ustring.

(** [rawType] is [None] when the argument is not a string. *)
Definition normalizeBillType (rawType : option ustring) : BillType :=
  match rawType with
  | None => Canonical (js "purchase_order")
  | Some [] => Canonical (js "purchase_order")
  | Some raw =>
      let t := trim (toLowerCase raw) in
      match lookupOwn typeMap t with
      | Some type => Canonical type
      | None =>
          if bool_decide (t ∈ map js JsObject.prototypeKeys) then Inherited t
          else if bool_decide (t ∈ canonicalTypes) then Canonical t
          else Canonical (js "purchase_order")
      end
  end.

End NormalizeBillType.

(** Lower case for the letters A to Z: the model of [toLowerCase] used in
    worked examples. *)
Definition lower_ascii (s : ustring) : ustring :=
  map (fun c => if ((65 <=? c) && (c <=? 90))%N then (c + 32)%N else c) s.

(** The array [supportedCurrencies] of [createBill]. *)
Definition supportedCurrencies : list string :=
  [ "USD"; "EUR"; "GBP"; "JPY"; "AUD"; "CAD"; "CHF"; "CNY"; "SEK"; "NZD";
    "MXN"; "SGD"; "HKD"; "NOK"; "INR"; "BRL"; "ZAR"; "RUB" ]%string.

(** [payload.currency && supportedCurrencies.includes(payload.currency)
    ? payload.currency : "INR"]; [None] is a currency that is not a
    string. *)
Definition chooseCurrency (payloadCurrency : option string) : string :=
  match payloadCurrency with
  | Some c => if JsString.array_includes supportedCurrencies c then c else "INR"%string
  | None => "INR"%string
  end.

End BillRequest.

(* ===================================================================== *)
(** * [models/Bill.js]: the values the schema allows *)
(* ===================================================================== *)

Module BillSchema.

(** The [enum] of the field [type]. *)
Definition typeEnum : list string :=
  ["purchase_order"; "proforma_invoice"; "invoice"]%string.

(** The [enum] of the field [currency]. *)
Definition currencyEnum : list string :=
  [ "USD"; "EUR"; "GBP"; "JPY"; "AUD"; "CAD"; "CHF"; "CNY"; "SEK"; "NZD";
    "MXN"; "SGD"; "HKD"; "NOK"; "INR"; "BRL"; "ZAR"; "RUB" ]%string.

End BillSchema.

(* ===================================================================== *)
(** * [utils/currency.js]: the list of supported currencies *)
(* ===================================================================== *)

Module CurrencyList.

(** [getSupportedCurrencies()]: code and name. *)
Definition getSupportedCurrencies : list (string * string) :=
  [ ("USD", "US Dollar"); ("EUR", "Euro"); ("GBP", "British Pound");
    ("JPY", "Japanese Yen"); ("AUD", "Australian Dollar");
    ("CAD", "Canadian Dollar"); ("CHF", "Swiss Franc"); ("CNY", "Chinese Yuan");
    ("SEK", "Swedish Krona"); ("NZD", "New Zealand Dollar");
    ("MXN", "Mexican Peso"); ("SGD", "Singapore Dollar");
    ("HKD", "Hong Kong Dollar"); ("NOK", "Norwegian Krone");
    ("INR", "Indian Rupee"); ("BRL", "Brazilian Real");
    ("ZAR", "South African Rand"); ("RUB", "Russian Ruble") ]%string.

(** [isSupportedCurrency(currency)] *)
Definition isSupportedCurrency (currency : string) : bool :=
  JsString.array_includes (map fst getSupportedCurrencies) currency.


End CurrencyList.

(* ===================================================================== *)
(** * [retryWithExponentialBackoff] and the PDF step of [createBill] *)
(* ===================================================================== *)

Module Retry.

Abbreviation Completion := Render.Completion.
Abbreviation Returned := Render.Returned.
Abbreviation Thrown := Render.Thrown.

(** An integer as a JavaScript number. *)
Definition num (z : Z) : Qc := Q2Qc (inject_Z z).

(** [Math.min] of two numbers. *)
Definition minimum (a b : Qc) : Qc :=
  match (a ?= b)%Qc with
  | Lt => a
  | _ => b
  end.

(** The two lines the function writes to the console that tell what it
    does: the attempt it starts, and the delay it is about to sleep. *)
Inductive Log :=
| Attempt (attempt maxAttempts : nat)
| Retrying (delayMs : Qc).

Section RetryWithExponentialBackoff.
Context {State Value : Type}.
(** [fn()], by the number of the attempt that calls it. *)
Variable fn : nat -> State -> Completion Value * State.
(** [x + Math.random() * 1000] in the [catch] of an attempt, as the
    addition of numbers gives it. *)
Variable jitter : nat -> Qc -> Qc.
(** What the rest of the system does to the state during a delay. *)
Variable sleep : Qc -> State -> State.
Variable maxAttempts : nat.
Variable baseDelayMs : Qc.

Definition failedMessage (message : string) : string :=
  ("Operation failed after " ++ Render.show_nat maxAttempts ++ " attempts: "
     ++ message)%string.

(** [Math.min(baseDelayMs * Math.pow(2, attempt - 1) + Math.random() * 1000,
    30000)] *)
Definition delayMs (attempt : nat) : Qc :=
  minimum (jitter attempt (baseDelayMs * num 2 ^ (attempt - 1))%Qc) (num 30000).

(** [execute]: [remaining] is [maxAttempts - attempt], so that
    [attempt >= maxAttempts] is [remaining = 0]. *)
Fixpoint execute (remaining attempt : nat) (s : State) (log : list Log)
    : Completion Value * State * list Log :=
  let log := log ++ [Attempt attempt maxAttempts] in
  match fn attempt s with
  | (Returned value, s') => (Returned value, s', log)
  | (Thrown message, s') =>
      match remaining with
      | O => (Thrown (failedMessage message), s', log)
      | S remaining' =>
          execute remaining' (S attempt) (sleep (delayMs attempt) s')
            (log ++ [Retrying (delayMs attempt)])
      end
  end.

Definition retryWithExponentialBackoff (s : State)
    : Completion Value * State * list Log :=
  execute (maxAttempts - 1) 1 s [].

End RetryWithExponentialBackoff.

(** The attempts and the delays in a log. *)
Definition attempts (log : list Log) : list nat :=
  flat_map (fun l => match l with Attempt k _ => [k] | Retrying _ => [] end) log.

Definition sleeps (log : list Log) : list Qc :=
  flat_map (fun l => match l with Attempt _ _ => [] | Retrying d => [d] end) log.

(** The response of [createBill] when the PDF step fails. *)
Record Response := { status : Z; error : string; details : string }.

(** The PDF step of [createBill]:
    [retryWithExponentialBackoff(() => generatePurchaseOrderPDF(pdfData), 3,
    1000)] inside [try], with [catch] answering 500. [envs k] is the
    environment of the k-th call of the service; no other request touches
    the service during the delays. *)
Definition pdfStep (envs : nat -> Render.CallEnv) (jitter : nat -> Qc -> Qc)
    (m : Render.Machine)
    : (Render.PDF + Response) * Render.Machine * list Log :=
  match retryWithExponentialBackoff
          (fun k => Render.generatePurchaseOrderPDF (envs k)) jitter (fun _ m => m)
          3 (num 1000) m with
  | (Returned (Some pdf), m', log) => (inl pdf, m', log)
  | (Returned None, m', log) =>
      (* [pdfBuffer.length] of [undefined] throws inside the [try] *)
      (inr {| status := 500; error := "Failed to generate PDF";
              details := "Cannot read properties of undefined (reading 'length')" |},
       m', log)
  | (Thrown message, m', log) =>
      (inr {| status := 500; error := "Failed to generate PDF"; details := message |},
       m', log)
  end.

End Retry.

(* ===================================================================== *)
(** * The e-mail addresses of a request *)
(* ===================================================================== *)

Module Emails.
Import Terms.

Definition at_sign : N := 64.

(** The class of the address pattern: any code unit that is neither white
    space nor the at sign. *)
Definition is_plain (c : N) : bool := negb (is_space c) && negb (c =? at_sign)%N.

(** A dot that has at least one code unit before it and one after it. *)
Definition has_inner_dot (domain : ustring) : bool :=
  match domain with
  | [] => false
  | _ :: rest => existsb (fun c => (c =? dot)%N) (removelast rest)
  end.

(** [emailRegex.test(email)]: a run of plain code units, an at sign, and
    plain code units to the end with a dot among them that is neither the
    first nor the last. The first run stops at the first code unit that is
    not plain, which has to be the at sign. *)
Definition emailRegex_test (email : ustring) : bool :=
  match email with
  | [] => false
  | first :: _ =>
      is_plain first &&
      match dropWhile is_plain email with
      | a :: domain =>
          (a =? at_sign)%N && forallb is_plain domain && has_inner_dot domain
      | [] => false
      end
  end.

Definition defaultEmails : list ustring :=
  [js "sales@ingredientz.co"; js "procurement@ingredientz.co"].

(** An element of the array [req.body.emails]: a string, a falsy value that
    is no string (null, 0, false), or a truthy value that is no string (a
    number, true, an object, an array), with the message of the TypeError
    that [email.trim()] throws for it. *)
Inductive Element :=
| Address (email : ustring)
| FalsyElement
| NoString (typeError : string).

(** [req.body.emails.filter((email) => email && email.trim().length > 0)]:
    the elements are tested in order, and the first truthy one that is no
    string ends the filter with its TypeError. *)
Fixpoint nonBlank (elements : list Element) : Render.Completion (list ustring) :=
  match elements with
  | [] => Render.Returned []
  | Address email :: rest =>
      match nonBlank rest with
      | Render.Returned kept =>
          Render.Returned (if nonempty (trim email) then email :: kept else kept)
      | Render.Thrown typeError => Render.Thrown typeError
      end
  | FalsyElement :: rest => nonBlank rest
  | NoString typeError :: _ => Render.Thrown typeError
  end.

(** [req.body.emails] when it is no string: an array, or a value that
    leaves [emails] the empty array (the field is missing or falsy, or it is
    a number or an object that is no array). A field that is a string,
    which [createBill] parses with [JSON.parse] or splits at the commas, is
    not modelled. *)
Inductive EmailsField :=
| NoArray
| EmailArray (elements : list Element).

(** How the e-mail handling of [createBill] ends: with the addresses of the
    bill, with [res.status(400).json({ error })], or with a TypeError that
    [asyncHandler] passes to [errorHandler]. *)
Inductive Outcome :=
| Accepted (emails : list ustring)
| Refused (status : Z) (error : string)
| Throws (typeError : string).

(** The e-mail handling of [createBill]: the array branch of the parsing,
    the defaults for an empty array, the filter by the pattern, and the
    answer 400 when nothing passes. *)
Definition requestEmails (field : EmailsField) : Outcome :=
  match (match field with
         | NoArray => Render.Returned []
         | EmailArray elements => nonBlank elements
         end) with
  | Render.Thrown typeError => Throws typeError
  | Render.Returned emails =>
      let emails := match emails with [] => defaultEmails | _ => emails end in
      match List.filter emailRegex_test emails with
      | [] => Refused 400 "At least one valid email address is required"
      | valid => Accepted valid
      end
  end.

End Emails.

(* ===================================================================== *)
(** * The logo: from the request to the document *)
(* ===================================================================== *)

Module Logo.

Local Open Scope string_scope.

(** [req.file], when it is there and has a buffer: its declared type, the
    length of the buffer and the buffer in base 64. *)
Record File := { mimetype : string; size : N; base64 : string }.

Definition allowedTypes : list string :=
  ["image/jpeg"; "image/jpg"; "image/png"; "image/gif"].

Definition maxSize : N := 5 * 1024 * 1024.

(** The [switch] of the controller's [imageToBase64] on the lower-cased
    extension of the path. *)
Definition mimeTypeFor (ext : string) : string :=
  if String.eqb ext ".jpg" || String.eqb ext ".jpeg" then "image/jpeg"
  else if String.eqb ext ".png" then "image/png"
  else if String.eqb ext ".gif" then "image/gif"
  else if String.eqb ext ".svg" then "image/svg+xml"
  else "image/png".

(** The controller's [imageToBase64(imagePath)]: [read] is [None] when
    reading the file throws, else the base 64 of its content. *)
Definition imageToBase64 (ext : string) (read : option string) : string :=
  match read with
  | Some content => "data:" ++ mimeTypeFor ext ++ ";base64," ++ content
  | None => ""
  end.

Inductive Checked :=
| Refused (status : Z) (error : string)
| LogoBase64 (logo : string).

(** The logo part of [createBill]. The four default paths all end in
    [logo.png]; [found] is [None] when none of them exists, else what
    reading the first one that exists gives. Turning the buffer into base 64
    does not throw, so the [catch] around it is left out. *)
Definition requestLogo (file : option File) (found : option (option string))
    : Checked :=
  match file with
  | Some f =>
      if negb (JsString.array_includes allowedTypes (mimetype f)) then
        Refused 400 "Invalid file type. Please upload JPG, PNG, or GIF images only."
      else if (maxSize <? size f)%N then
        Refused 400 "File too large. Please upload images smaller than 5MB."
      else LogoBase64 ("data:" ++ mimetype f ++ ";base64," ++ base64 f)
  | None =>
      match found with
      | Some read => LogoBase64 (imageToBase64 ".png" read)
      | None => LogoBase64 ""
      end
  end.

(** The logo part of [generateHTML]: [assetsLogo] is the base 64 of
    [assets/logo.png] when that file exists and can be read. *)
Definition logoSrc (logoBase64 : string) (assetsLogo : option string) : string :=
  match logoBase64 with
  | EmptyString =>
      match assetsLogo with
      | Some content => "data:image/png;base64," ++ content
      | None => ""
      end
  | _ =>
      if String.prefix "data:" logoBase64 then logoBase64
      else "data:image/png;base64," ++ logoBase64
  end.

End Logo.

(* ===================================================================== *)
(** * Errors thrown in a handler: [asyncHandler] and [errorHandler] *)
(* ===================================================================== *)

Module ErrorHandling.

Local Open Scope string_scope.

(** The properties of an error object that [errorHandler] reads:
    [statusCode] is [None] when it is missing or 0, [errors] holds the
    messages of [err.errors], [keyValue] the keys of [err.keyValue]. *)
Record Error := {
  name : string;
  code : option Z;
  statusCode : option Z;
  message : string;
  errors : list string;
  keyValue : list string
}.

(** [new Error(message)] and [new TypeError(message)]. *)
Definition plainError (kind message : string) : Error :=
  {| name := kind; code := None; statusCode := None; message := message;
     errors := []; keyValue := [] |}.

Inductive Body :=
| ValidationBody (details : list string)   (* error: "Validation Error" *)
| DuplicateBody (details : string)         (* error: "Duplicate Entry" *)
| CastBody                                 (* error: "Invalid ID format" *)
| ErrorBody (error : string) (stack : bool).

Record Response := { status : Z; body : Body }.

(** [Array.prototype.toString] of an array of strings. *)
Fixpoint joinComma (xs : list string) : string :=
  match xs with
  | [] => ""
  | [x] => x
  | x :: rest => x ++ "," ++ joinComma rest
  end.

(** [errorHandler(err, req, res, next)]; [development] is
    [process.env.NODE_ENV === "development"]. *)
Definition errorHandler (development : bool) (err : Error) : Response :=
  if String.eqb (name err) "ValidationError" then
    {| status := 400; body := ValidationBody (errors err) |}
  else if match code err with Some c => (c =? 11000)%Z | None => false end then
    {| status := 400;
       body := DuplicateBody (joinComma (keyValue err) ++ " already exists") |}
  else if String.eqb (name err) "CastError" then
    {| status := 400; body := CastBody |}
  else
    {| status := match statusCode err with Some c => c | None => 500 end;
       body := ErrorBody (match message err with
                          | EmptyString => "Internal Server Error"
                          | m => m
                          end) development |}.

(** A handler wrapped by [asyncHandler] and mounted before [errorHandler]:
    it answers, or it throws and [errorHandler] answers. *)
Definition answer {Answer} (development : bool) (own : Answer -> Response)
    (outcome : Answer + Error) : Response :=
  match outcome with
  | inl a => own a
  | inr err => errorHandler development err
  end.

End ErrorHandling.

(* ===================================================================== *)
(** * The items of a request *)
(* ===================================================================== *)

Module BillItems.
Import ErrorHandling.

Local Open Scope string_scope.

Section Items.
(** A value of the request body. *)
Variable raw : Type.
(** [Number(x)] is a number greater than 0: neither of
    [isNaN(Number(x))] and [Number(x) <= 0] holds. *)
Variable positive : raw -> bool.
(** The value in a template literal. *)
Variable text : raw -> string.

(** The field [unit] of an item: a string, or a value that is no string
    (missing, null, a number), with the message of the TypeError that
    [unit.toLowerCase()] throws for it. *)
Inductive Unit :=
| UnitName (unit : string)
| NoString (typeError : string).

(** A field read as [(it.field || fallback).trim()]: a string or a falsy
    value, for which the call returns, or a truthy value that is no string
    (a number, true, an array, an object), with the message of the
    TypeError that the call throws for it. *)
Inductive Trimmed :=
| Trims
| NoTrim (typeError : string).

(** The fields of an item that can make the callback of [items.map]
    throw. *)
Record Item := {
  quantity : raw;
  unitPrice : raw;
  unit : Unit;
  description : Trimmed;
  hsn : Trimmed
}.

(** An element of [payload.items]: [null], for which reading [it.quantity]
    throws a TypeError with the given message, or a value with properties
    (of a primitive value every property is missing). *)
Inductive Element :=
| NullElement (typeError : string)
| Properties (it : Item).

(** The callback of [payload.items.map] for the element at [index]: the
    error it throws, if it throws. A positive quantity and price pass the
    guard of [calculateItemTotal], which then calls [unit.toLowerCase()];
    the object that is returned trims the description and the HSN code. *)
Definition itemError (index : nat) (el : Element) : option Error :=
  match el with
  | NullElement typeError => Some (plainError "TypeError" typeError)
  | Properties it =>
      if negb (positive (quantity it)) then
        Some (plainError "Error"
                ("Invalid quantity for item " ++ Render.show_nat (index + 1) ++ ": "
                   ++ text (quantity it)))
      else if negb (positive (unitPrice it)) then
        Some (plainError "Error"
                ("Invalid unit price for item " ++ Render.show_nat (index + 1) ++ ": "
                   ++ text (unitPrice it)))
      else
        match unit it, description it, hsn it with
        | NoString typeError, _, _ => Some (plainError "TypeError" typeError)
        | UnitName _, NoTrim typeError, _ => Some (plainError "TypeError" typeError)
        | UnitName _, Trims, NoTrim typeError => Some (plainError "TypeError" typeError)
        | UnitName _, Trims, Trims => None
        end
  end.

(** [map] runs the callback on the elements in order; the first error ends
    it. *)
Fixpoint itemsError (index : nat) (items : list Element) : option Error :=
  match items with
  | [] => None
  | el :: rest =>
      match itemError index el with
      | Some err => Some err
      | None => itemsError (S index) rest
      end
  end.

End Items.

End BillItems.

(* ===================================================================== *)
(** * The document: type, title and the terms that are printed *)
(* ===================================================================== *)

Module Document.
Import Terms.

Local Open Scope string_scope.

(** [billData.documentType || billData.type || "purchase_order"], for
    fields that are strings or missing. *)
Definition documentType (documentType type : option string) : string :=
  match documentType with
  | Some (String c d) => String c d
  | _ =>
      match type with
      | Some (String c t) => String c t
      | _ => "purchase_order"
      end
  end.

Definition titleMap : list (string * string) :=
  [ ("purchase_order", "PURCHASE ORDER");
    ("proforma_invoice", "PROFORMA INVOICE");
    ("invoice", "INVOICE") ].

Definition purchaseOrderTerms : list ustring :=
  [ js "Goods supplied as per specifications and delivery schedule mentioned in the Purchase Order.";
    js "Prices are exclusive of GST unless otherwise specified.";
    js "Delivery to be made to the specified delivery address. Any change in address must be informed in writing.";
    js "Payment shall be made against submission of tax invoice within agreed credit terms.";
    js "Shortages or damages found at the time of delivery must be reported within 48 hours." ].

Definition defaultTermsMap : list (string * list ustring) :=
  [ ("purchase_order", purchaseOrderTerms);
    ("proforma_invoice",
     [ js "This is a Proforma Invoice and not a demand for payment.";
       js "Prices quoted are indicative and valid for 15 days unless otherwise mentioned.";
       js "Goods will be dispatched after receipt of advance payment as per agreed terms.";
       js "Taxes, duties and freight charges will be extra as applicable." ]);
    ("invoice",
     [ js "Goods are supplied as per GST rules and tax invoice is issued as per statutory requirements.";
       js "Payment due within agreed credit period from invoice date.";
       js "Late payment may attract interest as per agreement.";
       js "Claims relating to shortages or damages must be raised within 7 days of receipt." ]) ].

(** A value read from one of the two tables: an own entry, or what the
    table inherits from [Object.prototype] under the key. *)
Inductive Entry (V : Type) :=
| Own (value : V)
| Inherited (key : string).
Arguments Own {V} value.
Arguments Inherited {V} key.

(** [table[key] || fallback]: own entries and inherited values are
    truthy. *)
Definition entryOr {V} (table : list (string * V)) (key : string) (fallback : V) : Entry V :=
  match Numbering.own table key with
  | Some v => Own v
  | None =>
      if JsString.array_includes JsObject.prototypeKeys key then Inherited key
      else Own fallback
  end.

(** [titleMap[documentType] || "PURCHASE ORDER"] *)
Definition poTitle (type : string) : Entry string :=
  entryOr titleMap type "PURCHASE ORDER".

(** [processedTerms] as [generateTermsHTML] finds it: the normalized terms
    of the request or, when there are none, the default terms of the
    document type. *)
Definition processedTerms (JSON_parse : ustring -> JsonResult)
    (termsAndConditions : TermsInput) (type : string) : Entry (list ustring) :=
  match processTermsAndConditions JSON_parse termsAndConditions with
  | [] => entryOr defaultTermsMap type purchaseOrderTerms
  | terms => Own terms
  end.

(** What [generateTermsHTML] returns for an array: the notice that there
    are no terms, or the ordered list with one item per term. *)
Inductive TermsHTML :=
| NoTermsNotice
| TermsList (items : list ustring).

Definition generateTermsHTML (terms : list ustring) : TermsHTML :=
  match terms with
  | [] => NoTermsNotice
  | _ => TermsList terms
  end.

End Document.

(* ===================================================================== *)
(** * Properties *)
(* ===================================================================== *)

Module JsStringFacts.
Import JsString.

Lemma prefix_spec (a b : string) :
  String.prefix a b = true <-> exists post, b = (a ++ post)%string.
Proof.
  revert b. induction a as [| c a IH]; intros b.
  - split; [intros _; now exists b | intros _; destruct b; reflexivity].
  - destruct b as [| d b]; simpl.
    + split; [discriminate | intros [post [=]]].
    + destruct (ascii_dec c d) as [-> | Hne].
      * rewrite IH. split; intros [post Hpost]; exists post;
          [now rewrite Hpost | now injection Hpost].
      * split; [discriminate | intros [post Heq]; injection Heq as Hd _; congruence].
Qed.

(** [includes] is the substring test. *)
Lemma includes_spec (needle haystack : string) :
  includes needle haystack = true <->
  exists pre post, haystack = (pre ++ needle ++ post)%string.
Proof.
  induction haystack as [| c rest IH].
  - change (includes needle "") with (String.prefix needle "").
    rewrite prefix_spec. split.
    + intros [post Hpost]. now exists EmptyString, post.
    + intros (pre & post & Heq). destruct pre; [now exists post |]. discriminate.
  - change (includes needle (String c rest))
      with (String.prefix needle (String c rest) || includes needle rest).
    rewrite orb_true_iff, prefix_spec, IH. split.
    + intros [[post Hpost] | (pre & post & Heq)].
      * now exists EmptyString, post.
      * exists (String c pre), post. rewrite Heq. reflexivity.
    + intros (pre & post & Heq). destruct pre as [| c' pre]; simpl in Heq.
      * left. now exists post.
      * right. injection Heq as _ Heq. now exists pre, post.
Qed.

End JsStringFacts.

Module PaginationFacts.
Import Pagination.

Lemma shouldBreakPage_spec {A} (items : list A) :
  shouldBreakPage A items = true <-> (8 < length items)%nat.
Proof.
  unfold shouldBreakPage.
  destruct (Z.leb_spec (Z.of_nat (length items)) 8); split; intros;
    solve [ reflexivity | discriminate | lia ].
Qed.

(** C9. The terms-and-conditions section gets the forced page break (class
    [new-page]) exactly when there are more than 8 line items: a request with
    8 items keeps the terms on the same page, one with 9 items breaks. *)
Theorem C9_page_break_iff_more_than_8 :
  (forall (A : Type) (items : list A),
      (shouldBreakPage A items = true <-> (8 < length items)%nat) /\
      (termsSectionClass A items = "terms-section new-page"%string
         <-> (8 < length items)%nat) /\
      (termsSectionClass A items = "terms-section "%string
         <-> (length items <= 8)%nat)) /\
  shouldBreakPage nat (seq 1 8) = false /\
  shouldBreakPage nat (seq 1 9) = true.
Proof.
  split; [| split; reflexivity].
  intros A items. pose proof (shouldBreakPage_spec items) as Hs.
  split; [exact Hs |].
  unfold termsSectionClass.
  destruct (shouldBreakPage A items) eqn:Hb; simpl.
  - assert (8 < length items)%nat by (apply Hs; reflexivity).
    split; split; intros; try reflexivity; try lia; try discriminate.
  - assert (~ (8 < length items)%nat) by (intros Hc; apply Hs in Hc; discriminate).
    split; split; intros; try reflexivity; try lia; try discriminate.
Qed.

End PaginationFacts.

Module CurrencyFacts.
Import Currency.

Section Platform.
Variable number : Type.
Variable isNaN : number -> bool.
Variable zero : number.
Variable toUpperCase : string -> string.
Variable numberFormat : nat -> number -> string.

Local Abbreviation format := (formatCurrency number isNaN zero toUpperCase numberFormat).
Local Abbreviation upper c := (normalizedCode toUpperCase c).

(** The result depends on the code only through its upper-cased form. *)
Lemma formatCurrency_only_upper_case amount c1 c2 :
  upper c1 = upper c2 -> format amount c1 = format amount c2.
Proof. unfold formatCurrency. intros ->. reflexivity. Qed.

Lemma unknown_code_decimals code :
  currencies !! code = None ->
  decimalPlaces code = if String.eqb code "KRW" then 0%nat else 2%nat.
Proof.
  intros Hnone. unfold decimalPlaces, JsString.array_includes. simpl.
  destruct (String.eqb_spec code "JPY") as [-> | _]; [vm_compute in Hnone; discriminate |].
  simpl. destruct (String.eqb code "KRW"); reflexivity.
Qed.

End Platform.

(** C6, as amended. The code is upper-cased before the lookup; a code whose
    upper-cased form has no entry in [currencies] is formatted with the whole
    INR entry, symbol included: the rupee sign on the left without a space.
    The precision comes from the code itself: 0 digits for KRW, 2 otherwise. *)
Theorem C6_unknown_code_formats_as_INR
    (number : Type) (isNaN : number -> bool) (zero : number)
    (toUpperCase : string -> string) (numberFormat : nat -> number -> string)
    (amount : number) (currencyCode : option string) :
  currencies !! normalizedCode toUpperCase currencyCode = None ->
  formatCurrency number isNaN zero toUpperCase numberFormat amount currencyCode
    = (symbol INR_config ++
       numberFormat
         (if String.eqb (normalizedCode toUpperCase currencyCode) "KRW"
          then 0%nat else 2%nat)
         (safeNumber number isNaN zero amount))%string
  /\ position INR_config = left /\ spacing INR_config = false
  /\ symbol INR_config = "₹"%string
  /\ forall other : option string,
       normalizedCode toUpperCase other = normalizedCode toUpperCase currencyCode ->
       formatCurrency number isNaN zero toUpperCase numberFormat amount other
       = formatCurrency number isNaN zero toUpperCase numberFormat amount currencyCode.
Proof.
  intros Hnone. repeat split.
  - unfold formatCurrency, configFor. rewrite Hnone.
    rewrite (unknown_code_decimals _ Hnone). reflexivity.
  - intros other Heq. now apply formatCurrency_only_upper_case.
Qed.

Lemma C6_unknown_code_formats_as_INR_witness :
  currencies !! normalizedCode JsString.ascii_toUpperCase (Some "xyz"%string) = None /\
  formatWhole (Whole 5) (Some "xyz"%string) = "₹5.00"%string.
Proof.
  split; [vm_compute; reflexivity |].
  refine (eq_trans
    (proj1 (C6_unknown_code_formats_as_INR whole whole_isNaN (Whole 0)
              JsString.ascii_toUpperCase whole_format (Whole 5)
              (Some "xyz"%string) _)) _);
    vm_compute; reflexivity.
Defined.

(** C6 as stated fails: the code xyz has no entry, and the formatted string
    carries the rupee sign; neither xyz nor XYZ occurs in it. The code krw
    has no entry either, and its amount is printed without the two decimals
    of the INR entry. The formatter of [utils/currency.js] keeps an unknown
    code as the symbol, but looks the code up as it is written: usd is not
    found. *)
Lemma C6_counterexample_unknown_code_symbol :
  currencies !! JsString.ascii_toUpperCase "xyz" = None /\
  formatWhole (Whole 5) (Some "xyz"%string) = "₹5.00"%string /\
  JsString.includes "xyz" (formatWhole (Whole 5) (Some "xyz"%string)) = false /\
  JsString.includes "XYZ" (formatWhole (Whole 5) (Some "xyz"%string)) = false /\
  currencies !! JsString.ascii_toUpperCase "krw" = None /\
  formatWhole (Whole 100000) (Some "krw"%string) = "₹1,00,000"%string /\
  formatWhole (Whole 100000) (Some "inr"%string) = "₹1,00,000.00"%string /\
  Utils.formatWhole (Whole 5) (Some "xyz"%string) = "xyz5.00"%string /\
  Utils.formatWhole (Whole 5) (Some "usd"%string) = "usd5.00"%string /\
  Utils.formatWhole (Whole 5) (Some "USD"%string) = "$5.00"%string.
Proof. vm_compute. repeat split; reflexivity. Qed.

(** The formatter on a few amounts. *)
Example format_JPY : formatWhole (Whole 1234) (Some "JPY"%string) = "¥1,234"%string.
Proof. vm_compute. reflexivity. Qed.

Example format_NaN_INR : formatWhole WNaN (Some "INR"%string) = "₹0.00"%string.
Proof. vm_compute. reflexivity. Qed.

Example format_KRW_has_no_decimals :
  formatWhole (Whole 100000) (Some "krw"%string) = "₹1,00,000"%string.
Proof. vm_compute. reflexivity. Qed.

End CurrencyFacts.

Module RatesFacts.
Import Rates.

Lemma cacheIsValid_true now c :
  cacheIsValid now c = true <->
  exists t, lastUpdated c = Some t /\ t <> 0 /\ now - t < cacheValidityMs c.
Proof.
  unfold cacheIsValid. destruct (lastUpdated c) as [t |].
  - rewrite andb_true_iff, negb_true_iff, Z.eqb_neq, Z.ltb_lt.
    split; [intros [? ?]; exists t; auto | intros (t' & [= <-] & ? & ?); auto].
  - split; [discriminate | intros (t' & [=] & _)].
Qed.



Lemma hit_returns_cache base now net c :
  cacheIsValid now c = true ->
  getExchangeRates base now net c = (rates c, c, None).
Proof. intros Hhit. unfold getExchangeRates. now rewrite Hhit. Qed.

Lemma fetch_success base now fresh c :
  cacheIsValid now c = false ->
  getExchangeRates base now (Resolved (Data (Some fresh))) c
  = (fresh,
     {| rates := fresh; lastUpdated := Some now;
        cacheValidityMs := cacheValidityMs c |},
     Some (endpoint base)).
Proof. intros Hmiss. unfold getExchangeRates. now rewrite Hmiss. Qed.

Lemma fetch_failure base now net c :
  cacheIsValid now c = false -> fetchFails net ->
  getExchangeRates base now net c = (fallbackFor base, c, Some (endpoint base)).
Proof.
  intros Hmiss Hfail. unfold getExchangeRates. rewrite Hmiss.
  destruct net as [msg | [| [fresh |]]]; simpl in Hfail; solve [reflexivity | contradiction].
Qed.





(** C10. The cache test looks at the age of the snapshot only. After a call
    for the base [b1] whose fetch succeeded, a call for another base [b2]
    within the validity period requests nothing and returns the map fetched
    for [b1]. *)
Theorem C10_cache_ignores_base_currency
    (b1 b2 : string) (t1 t2 : Z) (net1 net2 : AxiosResult)
    (c : ExchangeRateCache) (fetched : RateMap) :
  b1 <> b2 ->
  cacheIsValid t1 c = false ->
  0 < t1 ->
  net1 = Resolved (Data (Some fetched)) ->
  t2 - t1 < cacheValidityMs c ->
  let first := getExchangeRates b1 t1 net1 c in
  let c1 := snd (fst first) in
  first = (fetched, c1, Some (endpoint b1)) /\
  getExchangeRates b2 t2 net2 c1 = (fetched, c1, None).
Proof.
  intros Hne Hmiss Hpos -> Hin first c1. subst first c1.
  rewrite (fetch_success _ _ _ _ Hmiss). simpl. split; [reflexivity |].
  rewrite hit_returns_cache; [reflexivity |].
  apply cacheIsValid_true. exists t1. simpl. repeat split; lia.
Qed.

Lemma C10_cache_ignores_base_currency_witness :
  getExchangeRates "USD" 1700000600000 (Resolved (Data (Some fallbackRates)))
    (snd (fst (getExchangeRates "INR" 1700000000000
                 (Resolved (Data (Some {[ "USD"%string := dec 12 1000 ]})))
                 initialCache)))
  = ({[ "USD"%string := dec 12 1000 ]},
     snd (fst (getExchangeRates "INR" 1700000000000
                 (Resolved (Data (Some {[ "USD"%string := dec 12 1000 ]})))
                 initialCache)),
     None).
Proof.
  refine (proj2 (C10_cache_ignores_base_currency "INR" "USD"
            1700000000000 1700000600000
            (Resolved (Data (Some {[ "USD"%string := dec 12 1000 ]})))
            (Resolved (Data (Some fallbackRates)))
            initialCache {[ "USD"%string := dec 12 1000 ]} _ _ _ _ _));
    solve [reflexivity | lia | discriminate].
Defined.

End RatesFacts.

Module TermsFacts.
Import Terms.

(** ** Edges of a string *)

(** Neither the first nor the last code unit of [s] is in the class [p]. *)
Definition edges_avoid (p : N -> bool) (s : ustring) : Prop :=
  (forall c, head s = Some c -> p c = false) /\
  (forall c, last s = Some c -> p c = false).

Lemma dropWhile_head p s c : head (dropWhile p s) = Some c -> p c = false.
Proof.
  induction s as [| a s IH]; simpl; [discriminate |].
  destruct (p a) eqn:Ha; [exact IH |]. simpl. now intros [= <-].
Qed.

Lemma dropWhile_id p s :
  (forall c, head s = Some c -> p c = false) -> dropWhile p s = s.
Proof.
  destruct s as [| a s]; simpl; [reflexivity |]. intros H.
  now rewrite (H a eq_refl).
Qed.

Lemma dropWhile_length p s : (length (dropWhile p s) <= length s)%nat.
Proof.
  induction s as [| a s IH]; simpl; [lia |]. destruct (p a); simpl; lia.
Qed.

Lemma dropWhile_last p s c :
  last (dropWhile p s) = Some c -> last s = Some c.
Proof.
  induction s as [| a s IH]; simpl; [discriminate |].
  destruct (p a); [| now intros ?].
  intros H. specialize (IH H). destruct s; [discriminate | exact IH].
Qed.

Lemma dropWhileEnd_cons p a s :
  dropWhileEnd p (a :: s) =
  match dropWhileEnd p s with
  | [] => if p a then [] else [a]
  | kept => a :: kept
  end.
Proof. reflexivity. Qed.

Lemma dropWhileEnd_head p s c :
  head (dropWhileEnd p s) = Some c -> head s = Some c.
Proof.
  destruct s as [| a s]; [discriminate |]. rewrite dropWhileEnd_cons.
  destruct (dropWhileEnd p s); [destruct (p a) |]; simpl; congruence.
Qed.

Lemma dropWhileEnd_last p s c : last (dropWhileEnd p s) = Some c -> p c = false.
Proof.
  induction s as [| a s IH]; [discriminate |]. rewrite dropWhileEnd_cons.
  destruct (dropWhileEnd p s) as [| k ks] eqn:Hk.
  - destruct (p a) eqn:Ha; [discriminate |]. simpl. now intros [= <-].
  - intros H. apply IH. exact H.
Qed.

Lemma dropWhileEnd_id p s :
  (forall c, last s = Some c -> p c = false) -> dropWhileEnd p s = s.
Proof.
  induction s as [| a s IH]; [reflexivity |]. intros H. rewrite dropWhileEnd_cons.
  destruct s as [| b s].
  - simpl. now rewrite (H a eq_refl).
  - rewrite IH; [reflexivity |]. intros c Hc. apply H. exact Hc.
Qed.

Lemma strip_edges_avoid p s : edges_avoid p (strip_edges p s).
Proof.
  unfold strip_edges. split; intros c Hc.
  - apply dropWhileEnd_head in Hc. eapply dropWhile_head; eauto.
  - eapply dropWhileEnd_last; eauto.
Qed.

Lemma strip_edges_id p s : edges_avoid p s -> strip_edges p s = s.
Proof.
  intros [Hh Hl]. unfold strip_edges.
  rewrite (dropWhile_id _ _ Hh). now apply dropWhileEnd_id.
Qed.

Lemma edges_avoid_weaken (p q : N -> bool) s :
  (forall c, q c = true -> p c = true) -> edges_avoid p s -> edges_avoid q s.
Proof.
  intros Hsub [Hh Hl]. split; intros c Hc.
  - specialize (Hh c Hc). destruct (q c) eqn:Hq; [| reflexivity].
    apply Hsub in Hq. congruence.
  - specialize (Hl c Hc). destruct (q c) eqn:Hq; [| reflexivity].
    apply Hsub in Hq. congruence.
Qed.

Lemma space_is_quote_comma_space c : is_space c = true -> is_quote_comma_space c = true.
Proof. unfold is_quote_comma_space. intros ->. apply orb_true_r. Qed.

(** ** Collapsing white space *)

Lemma is_space_space : is_space space = true.
Proof. reflexivity. Qed.

Lemma collapse_spaces_cons_other c s :
  is_space c = false -> collapse_spaces (c :: s) = c :: collapse_spaces s.
Proof. intros H. simpl. now rewrite H. Qed.

Lemma collapse_spaces_head s c :
  head (collapse_spaces s) = Some c ->
  exists a, head s = Some a /\ (if is_space a then c = space else c = a).
Proof.
  induction s as [| a s IH]; [discriminate |]. simpl.
  destruct (is_space a) eqn:Ha.
  - destruct s as [| b s].
    + simpl. intros [= <-]. exists a. rewrite Ha. auto.
    + destruct (is_space b) eqn:Hb.
      * intros H. destruct (IH H) as (b' & [= <-] & Hc). rewrite Hb in Hc.
        exists a. rewrite Ha. auto.
      * simpl. intros [= <-]. exists a. rewrite Ha. auto.
  - simpl. intros [= <-]. exists a. rewrite Ha. auto.
Qed.

Lemma last_cons_cons {A} (a b : A) s : last (a :: b :: s) = last (b :: s).
Proof. reflexivity. Qed.

Lemma collapse_spaces_nil s : collapse_spaces s = [] -> s = [].
Proof.
  induction s as [| a s IH]; [reflexivity |]. simpl.
  destruct (is_space a); [| discriminate].
  destruct s as [| b s]; [discriminate |].
  destruct (is_space b); [| discriminate].
  intros H. specialize (IH H). discriminate.
Qed.

Lemma collapse_spaces_last s c :
  last (collapse_spaces s) = Some c ->
  exists l, last s = Some l /\ (if is_space l then c = space else c = l).
Proof.
  induction s as [| a s IH]; [discriminate |].
  destruct s as [| b s].
  - simpl. destruct (is_space a) eqn:Ha; simpl; intros [= <-];
      exists a; rewrite Ha; auto.
  - rewrite last_cons_cons.
    assert (Hne : collapse_spaces (b :: s) <> [])
      by (intros H; apply collapse_spaces_nil in H; discriminate).
    assert (Hlast : forall x, last (x :: collapse_spaces (b :: s))
                              = last (collapse_spaces (b :: s))).
    { intros x. destruct (collapse_spaces (b :: s)); [congruence | reflexivity]. }
    change (collapse_spaces (a :: b :: s)) with
      (if is_space a then
         if is_space b then collapse_spaces (b :: s)
         else space :: collapse_spaces (b :: s)
       else a :: collapse_spaces (b :: s)).
    destruct (is_space a); [destruct (is_space b) |];
      rewrite ?Hlast; exact IH.
Qed.

Lemma collapse_spaces_edges p s :
  (forall c, is_space c = true -> p c = true) ->
  edges_avoid p s -> edges_avoid p (collapse_spaces s).
Proof.
  intros Hsub [Hh Hl]. split; intros c Hc.
  - apply collapse_spaces_head in Hc as (a & Ha & Hc).
    specialize (Hh a Ha). destruct (is_space a) eqn:Hsp.
    + apply Hsub in Hsp. congruence.
    + now subst.
  - apply collapse_spaces_last in Hc as (l & Hlast & Hc).
    specialize (Hl l Hlast). destruct (is_space l) eqn:Hsp.
    + apply Hsub in Hsp. congruence.
    + now subst.
Qed.

Lemma collapse_spaces_idempotent s :
  collapse_spaces (collapse_spaces s) = collapse_spaces s.
Proof.
  induction s as [| a s IH]; [reflexivity |].
  destruct s as [| b s].
  - simpl. destruct (is_space a) eqn:Ha; simpl; [reflexivity | now rewrite Ha].
  - change (collapse_spaces (a :: b :: s)) with
      (if is_space a then
         if is_space b then collapse_spaces (b :: s)
         else space :: collapse_spaces (b :: s)
       else a :: collapse_spaces (b :: s)).
    destruct (is_space a) eqn:Ha; [destruct (is_space b) eqn:Hb |].
    + exact IH.
    + rewrite (collapse_spaces_cons_other b s Hb) in *.
      change (collapse_spaces (space :: b :: collapse_spaces s)) with
        (if is_space b then collapse_spaces (b :: collapse_spaces s)
         else space :: collapse_spaces (b :: collapse_spaces s)).
      rewrite Hb. now rewrite IH.
    + rewrite collapse_spaces_cons_other by exact Ha. now rewrite IH.
Qed.

(** ** The marker test *)

Definition next_is_dot (s : ustring) : bool :=
  match s with
  | c :: _ => (c =? dot)%N
  | [] => false
  end.

Lemma has_marker_cons c s :
  has_marker (c :: s) = (is_digit c && next_is_dot s) || has_marker s.
Proof. reflexivity. Qed.

Lemma is_digit_not_space c : is_digit c = true -> is_space c = false.
Proof.
  unfold is_digit. rewrite andb_true_iff, !N.leb_le. intros [Hlo Hhi].
  assert (Hc : (c = 48 \/ c = 49 \/ c = 50 \/ c = 51 \/ c = 52 \/ c = 53 \/
                c = 54 \/ c = 55 \/ c = 56 \/ c = 57)%N) by lia.
  destruct Hc as [-> | [-> | [-> | [-> | [-> | [-> | [-> | [-> | [-> | ->]]]]]]]]];
    reflexivity.
Qed.

Lemma dot_not_space : is_space dot = false.
Proof. reflexivity. Qed.

Lemma dot_not_digit : is_digit dot = false.
Proof. reflexivity. Qed.

Lemma next_is_dot_head s : next_is_dot s = true <-> head s = Some dot.
Proof.
  destruct s as [| c s]; simpl; [split; discriminate |].
  rewrite N.eqb_eq. split; [now intros -> | now intros [= ->]].
Qed.

Lemma has_marker_dropWhile p s : has_marker s = false -> has_marker (dropWhile p s) = false.
Proof.
  induction s as [| a s IH]; [reflexivity |]. intros H. simpl dropWhile.
  destruct (p a); [| exact H].
  rewrite has_marker_cons in H. apply orb_false_iff in H as [_ H]. auto.
Qed.

Lemma has_marker_dropWhileEnd p s :
  has_marker s = false -> has_marker (dropWhileEnd p s) = false.
Proof.
  induction s as [| a s IH]; [reflexivity |]. intros H.
  rewrite has_marker_cons in H. apply orb_false_iff in H as [Ha Hs].
  rewrite dropWhileEnd_cons. specialize (IH Hs).
  destruct (dropWhileEnd p s) as [| k ks] eqn:Hk.
  - destruct (p a); [reflexivity |]. simpl. now rewrite andb_false_r.
  - rewrite has_marker_cons, IH, orb_false_r.
    destruct (is_digit a); [| reflexivity]. simpl in *.
    assert (Hhd : head s = Some k)
      by (apply (dropWhileEnd_head p); rewrite Hk; reflexivity).
    destruct s as [| b s]; [discriminate |]. injection Hhd as ->. exact Ha.
Qed.

Lemma has_marker_strip_edges p s :
  has_marker s = false -> has_marker (strip_edges p s) = false.
Proof.
  intros H. unfold strip_edges. now apply has_marker_dropWhileEnd, has_marker_dropWhile.
Qed.

Lemma has_marker_collapse_spaces s :
  has_marker s = false -> has_marker (collapse_spaces s) = false.
Proof.
  induction s as [| a s IH]; [reflexivity |]. intros H.
  rewrite has_marker_cons in H. apply orb_false_iff in H as [Ha Hs].
  specialize (IH Hs). simpl.
  destruct (is_space a) eqn:Hsp.
  - destruct s as [| b s]; [reflexivity |].
    destruct (is_space b); [exact IH |].
    rewrite has_marker_cons, IH. reflexivity.
  - rewrite has_marker_cons, IH, orb_false_r.
    destruct (is_digit a); [| reflexivity]. simpl in *.
    destruct (next_is_dot (collapse_spaces s)) eqn:Hd; [| reflexivity].
    apply next_is_dot_head in Hd. apply collapse_spaces_head in Hd as (b & Hb & Hc).
    destruct (is_space b) eqn:Hbs; [discriminate |]. subst b.
    apply next_is_dot_head in Hb. congruence.
Qed.

(** ** Splitting on the numbered markers *)

Lemma marker_at_digit_dot c s :
  is_digit c = true -> next_is_dot s = true -> marker_at (c :: s) <> None.
Proof.
  intros Hd Hdot. unfold marker_at. simpl dropWhile.
  rewrite (is_digit_not_space c Hd), Hd.
  destruct s as [| b s]; [discriminate |]. simpl in Hdot.
  apply N.eqb_eq in Hdot. subst b. simpl. discriminate.
Qed.

Lemma marker_at_shorter s after :
  marker_at s = Some after -> (length after < length s)%nat.
Proof.
  unfold marker_at. intros H.
  pose proof (dropWhile_length is_space s) as H1.
  destruct (dropWhile is_space s) as [| d after_d]; [discriminate |].
  destruct (is_digit d); [| discriminate].
  pose proof (dropWhile_length is_digit after_d) as H2.
  destruct (dropWhile is_digit after_d) as [| c after_dot]; [discriminate |].
  destruct (c =? dot)%N; [| discriminate]. injection H as <-.
  pose proof (dropWhile_length is_space after_dot) as H3.
  simpl in *. lia.
Qed.

Lemma split_loop_length fuel seg s : (1 <= length (split_loop fuel seg s))%nat.
Proof.
  revert seg s. induction fuel as [| fuel IH]; intros seg s; simpl; [lia |].
  destruct s as [| c rest]; simpl; [lia |].
  destruct (marker_at (c :: rest)); simpl; [lia | apply IH].
Qed.

(** A string with a marker splits into at least two segments, so the guard
    [numberedSplit.length > 1] never fails. *)
Lemma split_loop_marker fuel seg s :
  (length s <= fuel)%nat -> has_marker s = true ->
  (1 < length (split_loop fuel seg s))%nat.
Proof.
  revert seg s. induction fuel as [| fuel IH]; intros seg s Hfuel Hm.
  - destruct s; [discriminate | simpl in Hfuel; lia].
  - destruct s as [| c rest]; [discriminate |]. simpl split_loop.
    destruct (marker_at (c :: rest)) as [after |] eqn:Hat.
    + simpl. pose proof (split_loop_length fuel [] after). lia.
    + apply IH; [simpl in Hfuel; lia |].
      rewrite has_marker_cons in Hm. apply orb_true_iff in Hm as [Hm | Hm]; [| exact Hm].
      apply andb_true_iff in Hm as [Hd Hdot].
      exfalso. exact (marker_at_digit_dot c rest Hd Hdot Hat).
Qed.

Definition ends_with_digit (s : ustring) : bool :=
  match last s with
  | Some l => is_digit l
  | None => false
  end.

Lemma has_marker_snoc seg c :
  has_marker (seg ++ [c]) = has_marker seg || (ends_with_digit seg && (c =? dot)%N).
Proof.
  induction seg as [| a seg IH]; [simpl; now rewrite andb_false_r |].
  destruct seg as [| b seg].
  - simpl. unfold ends_with_digit. simpl.
    destruct (is_digit a), (is_digit c), (c =? dot)%N; reflexivity.
  - change ((a :: b :: seg) ++ [c]) with (a :: ((b :: seg) ++ [c])).
    rewrite !has_marker_cons, IH.
    change (ends_with_digit (a :: b :: seg)) with (ends_with_digit (b :: seg)).
    simpl next_is_dot. now rewrite orb_assoc.
Qed.

Lemma ends_with_digit_snoc seg c : ends_with_digit (seg ++ [c]) = is_digit c.
Proof. unfold ends_with_digit. now rewrite last_snoc. Qed.

(** Every segment of the split is free of markers, provided the segment
    under construction is, and does not end in a digit that the next code
    unit would complete to a marker. *)
Lemma split_loop_marker_free fuel seg s :
  (length s <= fuel)%nat ->
  has_marker seg = false ->
  (ends_with_digit seg = true -> next_is_dot s = false) ->
  Forall (fun t => has_marker t = false) (split_loop fuel seg s).
Proof.
  revert seg s. induction fuel as [| fuel IH]; intros seg s Hfuel Hseg Hjoin.
  - destruct s; [| simpl in Hfuel; lia]. simpl. rewrite app_nil_r.
    repeat constructor. exact Hseg.
  - destruct s as [| c rest]; [repeat constructor; exact Hseg |].
    simpl split_loop.
    destruct (marker_at (c :: rest)) as [after |] eqn:Hat.
    + constructor; [exact Hseg |].
      apply IH; [| reflexivity | discriminate].
      apply marker_at_shorter in Hat. simpl in *. lia.
    + apply IH; [simpl in Hfuel; lia | |].
      * rewrite has_marker_snoc, Hseg. simpl.
        destruct (ends_with_digit seg); [| reflexivity].
        simpl. exact (Hjoin eq_refl).
      * rewrite ends_with_digit_snoc. intros Hd.
        destruct (next_is_dot rest) eqn:Hdot; [| reflexivity].
        exfalso. exact (marker_at_digit_dot c rest Hd Hdot Hat).
Qed.

Lemma split_numbered_marker_free s :
  Forall (fun t => has_marker t = false) (split_numbered s).
Proof.
  apply split_loop_marker_free; [lia | reflexivity | discriminate].
Qed.

Lemma split_numbered_marker s :
  has_marker s = true -> (1 <? length (split_numbered s))%nat = true.
Proof.
  intros H. apply Nat.ltb_lt. apply split_loop_marker; [lia | exact H].
Qed.

(** What the numbered branch computes, without its dead guard. *)
Lemma numberedTerms_marker clean :
  has_marker clean = true ->
  numberedTerms clean
  = filter (fun t => nonempty t = true) (map trim (tail (split_numbered clean))).
Proof.
  intros H. unfold numberedTerms. now rewrite H, (split_numbered_marker _ H).
Qed.

Lemma numberedTerms_plain clean :
  has_marker clean = false -> numberedTerms clean = [clean].
Proof. intros H. unfold numberedTerms. now rewrite H. Qed.

Lemma numberedTerms_marker_free clean :
  Forall (fun t => has_marker t = false) (numberedTerms clean).
Proof.
  destruct (has_marker clean) eqn:Hm.
  - rewrite (numberedTerms_marker _ Hm).
    pose proof (split_numbered_marker_free clean) as Hall.
    rewrite List.Forall_forall in *. intros t Ht.
    rewrite <- list_elem_of_In in Ht.
    apply list_elem_of_filter in Ht as [_ Ht].
    apply list_elem_of_fmap in Ht as (u & -> & Hu).
    apply has_marker_strip_edges, Hall.
    rewrite <- list_elem_of_In.
    destruct (split_numbered clean); [exact Hu | now right].
  - rewrite (numberedTerms_plain _ Hm). repeat constructor. exact Hm.
Qed.

(** ** The shape of every normalized term *)

(** A term as the final pass leaves it: not empty, no quote, comma or white
    space at either end, every run of white space a single space, and no
    numbered marker inside. *)
Definition settled (t : ustring) : Prop :=
  nonempty t = true /\
  edges_avoid is_quote_comma_space t /\
  collapse_spaces t = t /\
  has_marker t = false.

Lemma finalTerm_eq u :
  finalTerm u = collapse_spaces (strip_edges is_quote_comma_space u).
Proof.
  unfold finalTerm, trim. apply strip_edges_id.
  apply (edges_avoid_weaken is_quote_comma_space); [apply space_is_quote_comma_space |].
  apply collapse_spaces_edges; [apply space_is_quote_comma_space |].
  apply strip_edges_avoid.
Qed.

Lemma finalTerm_settled u :
  has_marker u = false -> nonempty (finalTerm u) = true -> settled (finalTerm u).
Proof.
  intros Hm Hne. split; [exact Hne |]. rewrite finalTerm_eq. repeat split.
  - apply collapse_spaces_edges; [apply space_is_quote_comma_space |].
    apply strip_edges_avoid.
  - apply collapse_spaces_edges; [apply space_is_quote_comma_space |].
    apply strip_edges_avoid.
  - apply collapse_spaces_idempotent.
  - now apply has_marker_collapse_spaces, has_marker_strip_edges.
Qed.

Lemma processElement_marker_free e :
  Forall (fun t => has_marker t = false) (processElement e).
Proof.
  destruct e as [t |]; simpl; [| constructor].
  destruct (nonempty (trim t)); [apply numberedTerms_marker_free | constructor].
Qed.

Lemma processArray_settled elems : Forall settled (processArray elems).
Proof.
  unfold processArray, finalCleanup. rewrite List.Forall_forall. intros t Ht.
  rewrite <- list_elem_of_In in Ht.
  apply list_elem_of_filter in Ht as [Hne Ht].
  apply list_elem_of_fmap in Ht as (u & -> & Hu).
  apply finalTerm_settled; [| exact Hne].
  rewrite list_elem_of_In in Hu. apply in_flat_map in Hu as (e & _ & Hu).
  pose proof (processElement_marker_free e) as Hall.
  rewrite List.Forall_forall in Hall. now apply Hall.
Qed.

(** ** Terms that a second pass leaves alone *)

Definition is_bracket (c : N) : bool := ((c =? lbracket) || (c =? rbracket))%N.

(** [t] starts or ends with a square bracket. *)
Definition edge_bracket (t : ustring) : bool :=
  match head t with Some c => is_bracket c | None => false end
  || match last t with Some c => is_bracket c | None => false end.

(** A backslash is followed by a double quote somewhere in [s]. *)
Fixpoint has_escaped_quote (s : ustring) : bool :=
  match s with
  | [] => false
  | c :: rest =>
      ((c =? backslash)%N &&
       match rest with c' :: _ => (c' =? quote)%N | [] => false end)
      || has_escaped_quote rest
  end.

Lemma unescape_quotes_id s : has_escaped_quote s = false -> unescape_quotes s = s.
Proof.
  induction s as [| c s IH]; [reflexivity |]. simpl. intros H.
  apply orb_false_iff in H as [Hc Hs]. rewrite (IH Hs).
  destruct s as [| c' s']; [reflexivity |]. now rewrite Hc.
Qed.

Lemma quote_or_bracket_cases c :
  is_quote_or_bracket c = true ->
  is_quote_comma_space c = true \/ is_bracket c = true.
Proof.
  unfold is_quote_or_bracket, is_quote_comma_space, is_bracket.
  destruct (c =? quote)%N, (c =? apostrophe)%N, (c =? lbracket)%N,
    (c =? rbracket)%N; simpl; auto.
Qed.

Lemma settled_edges_quote_or_bracket t :
  settled t -> edge_bracket t = false -> edges_avoid is_quote_or_bracket t.
Proof.
  intros (_ & [Hh Hl] & _ & _) Hb. unfold edge_bracket in Hb.
  apply orb_false_iff in Hb as [Hbh Hbl]. split; intros c Hc.
  - rewrite Hc in Hbh. specialize (Hh c Hc).
    destruct (is_quote_or_bracket c) eqn:Hq; [| reflexivity].
    apply quote_or_bracket_cases in Hq as [Hq | Hq]; congruence.
  - rewrite Hc in Hbl. specialize (Hl c Hc).
    destruct (is_quote_or_bracket c) eqn:Hq; [| reflexivity].
    apply quote_or_bracket_cases in Hq as [Hq | Hq]; congruence.
Qed.

Lemma settled_trim t : settled t -> trim t = t.
Proof.
  intros (_ & He & _ & _). apply strip_edges_id.
  exact (edges_avoid_weaken _ _ _ space_is_quote_comma_space He).
Qed.

Lemma settled_finalTerm t : settled t -> finalTerm t = t.
Proof.
  intros Hs. destruct Hs as (Hne & He & Hc & Hm).
  rewrite finalTerm_eq, (strip_edges_id _ _ He). exact Hc.
Qed.

Lemma settled_processElement t :
  settled t -> edge_bracket t = false -> has_escaped_quote t = false ->
  processElement (EStr t) = [t].
Proof.
  intros Hs Hb He. pose proof Hs as (Hne & _ & _ & Hm). simpl.
  rewrite (settled_trim _ Hs), Hne.
  rewrite (strip_edges_id _ _ (settled_edges_quote_or_bracket _ Hs Hb)).
  rewrite (unescape_quotes_id _ He), (settled_trim _ Hs).
  now apply numberedTerms_plain.
Qed.

Lemma processArray_fixed ys :
  Forall settled ys ->
  Forall (fun t => edge_bracket t = false /\ has_escaped_quote t = false) ys ->
  processArray (map EStr ys) = ys.
Proof.
  unfold processArray, finalCleanup.
  induction ys as [| t ys IH]; intros Hs Hc; [reflexivity |].
  apply Forall_cons_1 in Hs as [Ht Hs]. apply Forall_cons_1 in Hc as [[Hb He] Hc].
  change (flat_map processElement (map EStr (t :: ys)))
    with (processElement (EStr t) ++ flat_map processElement (map EStr ys)).
  rewrite (settled_processElement _ Ht Hb He).
  change (map finalTerm ([t] ++ flat_map processElement (map EStr ys)))
    with (finalTerm t :: map finalTerm (flat_map processElement (map EStr ys))).
  rewrite (settled_finalTerm _ Ht).
  rewrite filter_cons_True by (destruct Ht as [Hne _]; exact Hne).
  f_equal. now apply IH.
Qed.

(** C7. At the input of the specification the numbered string splits into
    its two terms; at a string with text before the first marker the split
    has that text as its first segment and [slice(1)] removes it, in the
    array branch and in the string branch alike. *)
Theorem C7_leading_text_is_dropped :
  Normalize (strings [js "1. First term 2. Second term"])
    = [js "First term"; js "Second term"] /\
  split_numbered (js "Payment terms: 1. Net 30 2. FOB")
    = [js "Payment terms:"; js "Net 30"; js "FOB"] /\
  Normalize (strings [js "Payment terms: 1. Net 30 2. FOB"])
    = [js "Net 30"; js "FOB"] /\
  Normalize (TStr (js "Payment terms: 1. Net 30 2. FOB"))
    = [js "Net 30"; js "FOB"].
Proof. repeat split; vm_compute; reflexivity. Qed.

(** C8, as amended. Normalizing an array of strings a second time changes
    nothing provided no term of the first result starts or ends with a
    square bracket or contains a backslash followed by a double quote. *)
Theorem C8_idempotent_without_brackets_and_escapes
    (JSON_parse : ustring -> JsonResult) (x : list ustring) :
  Forall (fun t => edge_bracket t = false /\ has_escaped_quote t = false)
    (processTermsAndConditions JSON_parse (strings x)) ->
  processTermsAndConditions JSON_parse
    (strings (processTermsAndConditions JSON_parse (strings x)))
  = processTermsAndConditions JSON_parse (strings x).
Proof.
  unfold strings. simpl processTermsAndConditions. intros Hclean.
  apply processArray_fixed; [apply processArray_settled | exact Hclean].
Qed.

Lemma C8_idempotent_without_brackets_and_escapes_witness :
  Normalize (strings (Normalize (strings [js "1. First term 2. Second term"])))
  = Normalize (strings [js "1. First term 2. Second term"]).
Proof.
  apply (C8_idempotent_without_brackets_and_escapes json_rejects
           [js "1. First term 2. Second term"]).
  vm_compute. repeat constructor.
Defined.

(** C8 as stated fails. The final pass strips the comma and the space of
    [, [a] and leaves the bracket, which the first pass of the second
    application then strips. And in a, backslash, backslash, quote, b the
    first application replaces backslash-quote by a quote, which leaves a
    backslash-quote for the second application to replace. *)
Lemma C8_counterexample_not_idempotent :
  Normalize (strings [js ", [a"]) = [js "[a"] /\
  Normalize (strings (Normalize (strings [js ", [a"]))) = [js "a"] /\
  Normalize (strings (Normalize (strings [js ", [a"])))
    <> Normalize (strings [js ", [a"]) /\
  Normalize (strings [[97; 92; 92; 34; 98]%N]) = [[97; 92; 34; 98]%N] /\
  Normalize (strings (Normalize (strings [[97; 92; 92; 34; 98]%N])))
    = [[97; 34; 98]%N].
Proof.
  split; [vm_compute; reflexivity |].
  split; [vm_compute; reflexivity |].
  split; [vm_compute; discriminate |].
  split; vm_compute; reflexivity.
Qed.

End TermsFacts.

Module RenderFacts.
Import Render.

(** ** The [catch] block, in closed form *)

Definition afterCatch (message : string) (s : PDFService) : PDFService :=
  let s1 := with_activePages (Z.max 0 (activePages s - 1)) s in
  if browserGone message
  then with_browserDisconnected true
         (match browser s1 with
          | Some _ => with_browserDisconnected true (with_browser None s1)
          | None => s1
          end)
  else s1.

Definition catchEvents (attempt : nat) (message : string) (m : Machine) : list Event :=
  match page m with Some p => [PageClose p] | None => [] end
  ++ (if browserGone message
      then match browser (service m) with
           | Some b => [BrowserClose (handle b)]
           | None => []
           end
      else [])
  ++ (if (maxRetries (service m) <=? attempt)%nat then [] else [Delay (backoff attempt)]).

Lemma catchBlock_spec e attempt message m :
  catchBlock e attempt message m =
  (if (maxRetries (service m) <=? attempt)%nat
   then Thrown (exhaustedMessage (maxRetries (service m)) message)
   else Returned tt,
   {| service := afterCatch message (service m);
      page := page m;
      events := events m ++ catchEvents attempt message m;
      browsersLaunched := browsersLaunched m;
      pagesOpened := pagesOpened m |}).
Proof.
  destruct m as [[br ini pr mx ap bd mr xc] pg ev bl po].
  unfold catchBlock, afterCatch, catchEvents, closeBrowser, closePage, when,
    bind, try_catch, get_page, update, emit, this, ret, throw.
  destruct pg as [p |], (pageCloseFails e), (browserGone message), br as [b |];
    cbn; destruct (mr <=? attempt)%nat;
    cbn; rewrite <- ?app_assoc, ?app_nil_r; reflexivity.
Qed.

(** ** [initBrowser] when no initialization is in flight *)

Lemma initBrowser_reuse e m :
  isInitializing (service m) = false ->
  needsBrowser (service m) = false ->
  initBrowser e m = (Returned (browser (service m)), m).
Proof.
  destruct m as [[br ini pr mx ap bd mr xc] pg ev bl po]. simpl. intros -> Hn.
  unfold initBrowser, bind, this, when, ret. simpl. now rewrite Hn.
Qed.

Lemma initBrowser_launched e m c :
  isInitializing (service m) = false ->
  needsBrowser (service m) = true ->
  launch e = Launched c ->
  initBrowser e m =
  (Returned (Some {| handle := browsersLaunched m; connected := c |}),
   {| service :=
        with_isInitializing false
          (with_browser (Some {| handle := browsersLaunched m; connected := c |})
             (with_initPromise true
                (with_browserDisconnected false
                   (with_isInitializing true (service m)))));
      page := page m;
      events := events m ++ [Launch (Some (browsersLaunched m))];
      browsersLaunched := S (browsersLaunched m);
      pagesOpened := pagesOpened m |}).
Proof.
  destruct m as [[br ini pr mx ap bd mr xc] pg ev bl po]. simpl. intros -> Hn Hl.
  unfold initBrowser, bind, this, when, ret, try_catch, update, _createBrowser.
  simpl. rewrite Hn, Hl. reflexivity.
Qed.

Lemma initBrowser_launch_failed e m message :
  isInitializing (service m) = false ->
  needsBrowser (service m) = true ->
  launch e = LaunchFails message ->
  initBrowser e m =
  (Thrown message,
   {| service :=
        with_browserDisconnected true
          (with_isInitializing false
             (with_initPromise true
                (with_browserDisconnected false
                   (with_isInitializing true (service m)))));
      page := page m;
      events := events m ++ [Launch None];
      browsersLaunched := browsersLaunched m;
      pagesOpened := pagesOpened m |}).
Proof.
  destruct m as [[br ini pr mx ap bd mr xc] pg ev bl po]. simpl. intros -> Hn Hl.
  unfold initBrowser, bind, this, when, ret, try_catch, update, throw, _createBrowser.
  simpl. rewrite Hn, Hl. reflexivity.
Qed.

(** ** One attempt *)

Lemma attemptOnce_failed e attempt m message m1 :
  tryBlock e m = (Thrown message, m1) ->
  attemptOnce e attempt m =
  (if (maxRetries (service m1) <=? attempt)%nat
   then Thrown (exhaustedMessage (maxRetries (service m1)) message)
   else Returned None,
   snd (catchBlock e attempt message m1)).
Proof.
  intros Htry. unfold attemptOnce, try_catch, bind. rewrite Htry.
  rewrite catchBlock_spec. simpl.
  destruct (maxRetries (service m1) <=? attempt)%nat; reflexivity.
Qed.

Lemma attemptOnce_returned e attempt m pdf m1 :
  tryBlock e m = (Returned pdf, m1) ->
  attemptOnce e attempt m = (Returned (Some pdf), m1).
Proof.
  intros Htry. unfold attemptOnce, try_catch, bind. now rewrite Htry.
Qed.

(** The number of browser processes started in a trace. *)
Definition isLaunch (ev : Event) : bool :=
  match ev with Launch _ => true | _ => false end.

Definition launches (evs : list Event) : nat :=
  length (List.filter isLaunch evs).

Lemma launches_app evs evs' : launches (evs ++ evs') = (launches evs + launches evs')%nat.
Proof. unfold launches. now rewrite List.filter_app, length_app. Qed.

(** The [try] block from [this.activePages++] on, in closed form. *)
Lemma renderWith_spec e b m :
  renderWith e b m =
  let s1 := (if disconnects e then onDisconnected else fun s => s)
              (with_activePages (activePages (service m) + 1) (service m)) in
  match newPageFails e with
  | Some message =>
      (Thrown message,
       {| service := s1; page := page m;
          events := events m ++ [NewPage (handle b) None];
          browsersLaunched := browsersLaunched m; pagesOpened := pagesOpened m |})
  | None =>
      match preparing e, rendering e with
      | Some message, _ =>
          (Thrown message,
           {| service := s1; page := Some (pagesOpened m);
              events := events m ++ [NewPage (handle b) (Some (pagesOpened m))];
              browsersLaunched := browsersLaunched m;
              pagesOpened := S (pagesOpened m) |})
      | None, Thrown message =>
          (Thrown message,
           {| service := s1; page := Some (pagesOpened m);
              events := events m ++ [NewPage (handle b) (Some (pagesOpened m));
                                     Settle 3000];
              browsersLaunched := browsersLaunched m;
              pagesOpened := S (pagesOpened m) |})
      | None, Returned pdf =>
          (Returned pdf,
           {| service := with_activePages (activePages s1 - 1) s1;
              page := if pageCloseFails e then Some (pagesOpened m) else None;
              events := events m ++ [NewPage (handle b) (Some (pagesOpened m));
                                     Settle 3000; PageClose (pagesOpened m)];
              browsersLaunched := browsersLaunched m;
              pagesOpened := S (pagesOpened m) |})
      end
  end.
Proof.
  destruct m as [[br ini pr mx ap bd mr xc] pg ev bl po].
  unfold renderWith, newPage, closePage, when, bind, try_catch, update, emit,
    set_page, ret, throw.
  destruct (disconnects e), (newPageFails e), (preparing e), (rendering e),
    (pageCloseFails e);
    cbn; rewrite <- ?app_assoc; reflexivity.
Qed.

Lemma tryBlock_acquired e m b m1 :
  initBrowser e m = (Returned (Some b), m1) ->
  connected b = true ->
  tryBlock e m = renderWith e b m1.
Proof. intros Hi Hc. unfold tryBlock, bind. now rewrite Hi, Hc. Qed.

Lemma tryBlock_not_acquired e m message m1 :
  initBrowser e m = (Thrown message, m1) ->
  tryBlock e m = (Thrown message, m1).
Proof. intros Hi. unfold tryBlock, bind. now rewrite Hi. Qed.

(** An attempt that starts while no initialization is in flight ends that
    way. *)
Lemma tryBlock_idle e m :
  isInitializing (service m) = false ->
  isInitializing (service (snd (tryBlock e m))) = false.
Proof.
  intros Hidle.
  destruct (needsBrowser (service m)) eqn:Hneeds.
  - destruct (launch e) as [message | c] eqn:Hlaunch.
    + rewrite (tryBlock_not_acquired _ _ _ _
                 (initBrowser_launch_failed e m message Hidle Hneeds Hlaunch)).
      reflexivity.
    + pose proof (initBrowser_launched e m c Hidle Hneeds Hlaunch) as Hinit.
      destruct c.
      * rewrite (tryBlock_acquired _ _ _ _ Hinit eq_refl), renderWith_spec.
        destruct (disconnects e), (newPageFails e), (preparing e), (rendering e);
          reflexivity.
      * unfold tryBlock, bind. rewrite Hinit. reflexivity.
  - pose proof (initBrowser_reuse e m Hidle Hneeds) as Hinit.
    unfold tryBlock, bind. rewrite Hinit.
    destruct (browser (service m)) as [b |]; [| exact Hidle].
    destruct (connected b); simpl; [| exact Hidle].
    rewrite renderWith_spec.
    destruct (disconnects e), (newPageFails e), (preparing e), (rendering e); simpl;
      exact Hidle.
Qed.

(** ** Discarding the browser *)

Lemma afterCatch_gone message s :
  browserGone message = true ->
  browser (afterCatch message s) = None /\
  browserDisconnected (afterCatch message s) = true /\
  isInitializing (afterCatch message s) = isInitializing s.
Proof.
  intros Hgone. unfold afterCatch. rewrite Hgone.
  destruct s as [[b |] ini pr mx ap bd mr xc]; simpl; auto.
Qed.

Lemma afterCatch_kept message s :
  browserGone message = false ->
  browser (afterCatch message s) = browser s /\
  browserDisconnected (afterCatch message s) = browserDisconnected s.
Proof. intros Hkept. unfold afterCatch. rewrite Hkept. simpl. auto. Qed.

Lemma needsBrowser_without_browser s : browser s = None -> needsBrowser s = true.
Proof. intros H. unfold needsBrowser. now rewrite H. Qed.

Lemma initBrowser_launches e m :
  isInitializing (service m) = false ->
  needsBrowser (service m) = true ->
  exists r, events (snd (initBrowser e m)) = events m ++ [Launch r].
Proof.
  intros Hidle Hneeds. destruct (launch e) as [message | c] eqn:Hlaunch.
  - rewrite (initBrowser_launch_failed e m message Hidle Hneeds Hlaunch). simpl. eauto.
  - rewrite (initBrowser_launched e m c Hidle Hneeds Hlaunch). simpl. eauto.
Qed.

Lemma failed_attempt_discards e attempt m message m1 :
  tryBlock e m = (Thrown message, m1) ->
  browserGone message = true ->
  isInitializing (service m) = false ->
  browser (service (snd (attemptOnce e attempt m))) = None /\
  browserDisconnected (service (snd (attemptOnce e attempt m))) = true /\
  (forall b, browser (service m1) = Some b ->
     exists before after,
       events (snd (attemptOnce e attempt m))
         = events m1 ++ before ++ BrowserClose (handle b) :: after /\
       forall ms, ~ In (Delay ms) before) /\
  (forall e2, exists r,
     events (snd (initBrowser e2 (snd (attemptOnce e attempt m))))
       = events (snd (attemptOnce e attempt m)) ++ [Launch r]).
Proof.
  intros Htry Hgone Hidle.
  pose proof (tryBlock_idle e m Hidle) as Hidle1. rewrite Htry in Hidle1. simpl in Hidle1.
  rewrite (attemptOnce_failed _ _ _ _ _ Htry), catchBlock_spec. simpl.
  destruct (afterCatch_gone message (service m1) Hgone) as (Hb & Hd & Hi).
  repeat split; [exact Hb | exact Hd | |].
  - intros b Hsome. unfold catchEvents. rewrite Hgone, Hsome.
    exists (match page m1 with Some p => [PageClose p] | None => [] end).
    eexists. split; [reflexivity |].
    intros ms. destruct (page m1); simpl; intuition discriminate.
  - intros e2. apply initBrowser_launches; simpl.
    + congruence.
    + now apply needsBrowser_without_browser.
Qed.

Lemma failed_attempt_keeps e attempt m message m1 :
  tryBlock e m = (Thrown message, m1) ->
  browserGone message = false ->
  browser (service (snd (attemptOnce e attempt m))) = browser (service m1) /\
  browserDisconnected (service (snd (attemptOnce e attempt m)))
    = browserDisconnected (service m1) /\
  ((attempt < maxRetries (service m1))%nat ->
   fst (attemptOnce e attempt m) = Returned None) /\
  exists added,
    events (snd (attemptOnce e attempt m)) = events m1 ++ added /\
    forall b, ~ In (BrowserClose b) added.
Proof.
  intros Htry Hkept.
  rewrite (attemptOnce_failed _ _ _ _ _ Htry), catchBlock_spec. simpl.
  destruct (afterCatch_kept message (service m1) Hkept) as (Hb & Hd).
  repeat split; [exact Hb | exact Hd | |].
  - intros Hlt. now rewrite (proj2 (Nat.leb_gt _ _) Hlt).
  - eexists. split; [reflexivity |].
    intros b. unfold catchEvents. rewrite Hkept.
    destruct (page m1), (maxRetries (service m1) <=? attempt)%nat; simpl;
      intuition discriminate.
Qed.

(** ** One failure, then a success *)

Lemma retryLoop_step remaining attempt env m :
  retryLoop (S remaining) attempt env m =
  match attemptOnce (env (S attempt)) (S attempt) m with
  | (Returned (Some pdf), m') => (Returned (Some pdf), m')
  | (Returned None, m') => retryLoop remaining (S attempt) env m'
  | (Thrown message, m') => (Thrown message, m')
  end.
Proof.
  simpl. unfold bind.
  destruct (attemptOnce (env (S attempt)) (S attempt) m) as [[[pdf |] | message] m'];
    reflexivity.
Qed.

Local Arguments retryLoop : simpl never.

Lemma generatePurchaseOrderPDF_accepted env s :
  activePages s < maxConcurrentPages s ->
  generatePurchaseOrderPDF env (idle s) =
  retryLoop (maxRetries s) 0 (attemptEnv env) (snd (fetchRates env (idle s))).
Proof.
  intros Hfree.
  lazy beta iota zeta delta [generatePurchaseOrderPDF bind this set_page fetchRates
    idle service page events browsersLaunched pagesOpened throw fst snd].
  rewrite (proj2 (Z.leb_gt _ _) Hfree).
  destruct (Rates.getExchangeRates "INR" (now env) (net env) (exchangeRateCache s))
    as [[rates cache] request].
  reflexivity.
Qed.

Lemma recovery_after_one_failure s b env message pdf :
  browser s = Some b -> connected b = true ->
  browserDisconnected s = false -> isInitializing s = false ->
  activePages s < maxConcurrentPages s -> (2 <= maxRetries s)%nat ->
  (newPageFails (attemptEnv env 1) = Some message \/
   (newPageFails (attemptEnv env 1) = None /\
    preparing (attemptEnv env 1) = Some message) \/
   (newPageFails (attemptEnv env 1) = None /\
    preparing (attemptEnv env 1) = None /\
    rendering (attemptEnv env 1) = Thrown message)) ->
  browserGone message = true ->
  launch (attemptEnv env 2) = Launched true ->
  newPageFails (attemptEnv env 2) = None ->
  preparing (attemptEnv env 2) = None ->
  rendering (attemptEnv env 2) = Returned pdf ->
  fst (generatePurchaseOrderPDF env (idle s)) = Returned (Some pdf) /\
  launches (events (snd (generatePurchaseOrderPDF env (idle s)))) = 1%nat.
Proof.
  intros Hb Hc Hd Hi Hfree Hretries Hfail Hgone Hlaunch Hpage Hprep Hpdf.
  rewrite (generatePurchaseOrderPDF_accepted _ _ Hfree).
  destruct s as [br ini pr mx ap bd mr xc]. simpl in *. subst br bd ini.
  destruct mr as [| [| k]]; [lia | lia | clear Hretries].
  unfold fetchRates, idle. simpl.
  destruct (Rates.getExchangeRates "INR" (now env) (net env) xc)
    as [[rates cache] request].
  set (evs0 := match request with Some url => [RatesRequested url] | None => [] end).
  assert (Hevs0 : launches evs0 = 0%nat) by (subst evs0; destruct request; reflexivity).
  rewrite retryLoop_step.
  match goal with |- context [attemptOnce _ 1 ?m] => set (m0 := m) end.
  assert (Hinit1 : initBrowser (attemptEnv env 1) m0 = (Returned (Some b), m0)).
  { apply (initBrowser_reuse (attemptEnv env 1) m0); [reflexivity |].
    unfold needsBrowser. simpl. now rewrite Hc. }
  pose proof (tryBlock_acquired _ _ _ _ Hinit1 Hc) as Htry1.
  rewrite renderWith_spec in Htry1.
  assert (Hthrown : exists m1, tryBlock (attemptEnv env 1) m0 = (Thrown message, m1) /\
            launches (events m1) = 0%nat /\ isInitializing (service m1) = false /\
            maxRetries (service m1) = S (S k)).
  { destruct Hfail as [Hnp | [[Hnp Hp] | (Hnp & Hp & Hr)]].
    - rewrite Hnp in Htry1. eexists. split; [exact Htry1 |]. simpl.
      rewrite launches_app, Hevs0. destruct (disconnects (attemptEnv env 1)); auto.
    - rewrite Hnp, Hp in Htry1. eexists. split; [exact Htry1 |]. simpl.
      rewrite launches_app, Hevs0. destruct (disconnects (attemptEnv env 1)); auto.
    - rewrite Hnp, Hp, Hr in Htry1. eexists. split; [exact Htry1 |]. simpl.
      rewrite launches_app, Hevs0. destruct (disconnects (attemptEnv env 1)); auto. }
  destruct Hthrown as (m1 & Hthrown & Hl1 & Hi1 & Hr1).
  rewrite (attemptOnce_failed _ _ _ _ _ Hthrown), Hr1. simpl Nat.leb. cbv iota.
  rewrite catchBlock_spec. simpl snd.
  rewrite retryLoop_step.
  match goal with |- context [attemptOnce _ 2 ?m] => set (m2 := m) end.
  destruct (afterCatch_gone message (service m1) Hgone) as (Hb2 & Hd2 & Hi2).
  assert (Hl2 : launches (events m2) = 0%nat).
  { subst m2. simpl. rewrite launches_app, Hl1. unfold catchEvents. rewrite Hgone.
    destruct (page m1), (browser (service m1)), (maxRetries (service m1) <=? 1)%nat;
      reflexivity. }
  assert (Hinit2 := initBrowser_launched (attemptEnv env 2) m2 true
            (eq_trans Hi2 Hi1) (needsBrowser_without_browser _ Hb2) Hlaunch).
  pose proof (tryBlock_acquired _ _ _ _ Hinit2 eq_refl) as Htry2.
  rewrite renderWith_spec, Hpage, Hprep, Hpdf in Htry2. cbv zeta in Htry2.
  rewrite (attemptOnce_returned _ _ _ _ _ Htry2). simpl.
  split; [reflexivity |].
  rewrite 2 launches_app.
  change (events m1 ++ catchEvents 1 message m1) with (events m2).
  rewrite Hl2. reflexivity.
Qed.

(** ** A call on its own: all attempts fail *)

(** What a failing [try] block leaves behind when no other initialization is
    in flight: the limits are untouched, the counter is as before or one
    higher, and a page opened by the block is the one [page] holds. *)
Lemma tryBlock_thrown_idle e m cause m1 :
  isInitializing (service m) = false ->
  tryBlock e m = (Thrown cause, m1) ->
  maxRetries (service m1) = maxRetries (service m) /\
  isInitializing (service m1) = false /\
  (activePages (service m1) = activePages (service m) \/
   activePages (service m1) = activePages (service m) + 1) /\
  exists added,
    events m1 = events m ++ added /\
    forall b p, In (NewPage b (Some p)) added -> page m1 = Some p.
Proof.
  intros Hidle.
  assert (Hrender : forall b m0 added0,
            maxRetries (service m0) = maxRetries (service m) ->
            isInitializing (service m0) = false ->
            activePages (service m0) = activePages (service m) ->
            events m0 = events m ++ added0 ->
            (forall b' p, ~ In (NewPage b' (Some p)) added0) ->
            renderWith e b m0 = (Thrown cause, m1) ->
            maxRetries (service m1) = maxRetries (service m) /\
            isInitializing (service m1) = false /\
            (activePages (service m1) = activePages (service m) \/
             activePages (service m1) = activePages (service m) + 1) /\
            exists added,
              events m1 = events m ++ added /\
              forall b' p, In (NewPage b' (Some p)) added -> page m1 = Some p).
  { intros b m0 added0 Hr Hi Ha He Hno. rewrite renderWith_spec. cbv zeta.
    destruct (newPageFails e) as [message |].
    - intros [= <- <-]. simpl. rewrite <- Ha, He, <- app_assoc.
      repeat split.
      + destruct (disconnects e); simpl; exact Hr.
      + destruct (disconnects e); simpl; exact Hi.
      + right. destruct (disconnects e); reflexivity.
      + eexists. split; [reflexivity |]. intros b' p Hin.
        apply in_app_or in Hin as [Hin | [Hin | []]]; [now apply Hno in Hin | discriminate].
    - assert (Hopened : forall tail,
                (forall b' p, ~ In (NewPage b' (Some p)) tail) ->
                forall b' p,
                  In (NewPage b' (Some p))
                    (added0 ++ NewPage (handle b) (Some (pagesOpened m0)) :: tail) ->
                  Some (pagesOpened m0) = Some p).
      { intros tail Htail b' p Hin.
        apply in_app_or in Hin as [Hin | [Hin | Hin]];
          [now apply Hno in Hin | now injection Hin as _ <- | now apply Htail in Hin]. }
      destruct (preparing e) as [message |];
        [| destruct (rendering e) as [pdf | message]; [discriminate |]];
        intros [= <- <-]; simpl; rewrite <- Ha, He, <- app_assoc;
        (repeat split;
         [ destruct (disconnects e); simpl; exact Hr
         | destruct (disconnects e); simpl; exact Hi
         | right; destruct (disconnects e); reflexivity
         | eexists; split; [reflexivity |]; apply Hopened ]).
      + intros b' p [].
      + intros b' p [Hin | []]. discriminate. }
  destruct (needsBrowser (service m)) eqn:Hneeds.
  - destruct (launch e) as [message | c] eqn:Hlaunch.
    + rewrite (tryBlock_not_acquired _ _ _ _
                 (initBrowser_launch_failed e m message Hidle Hneeds Hlaunch)).
      intros [= <- <-]. simpl. repeat split; auto.
      eexists. split; [reflexivity |]. intros b p [Hin | []]. discriminate.
    + pose proof (initBrowser_launched e m c Hidle Hneeds Hlaunch) as Hinit.
      destruct c.
      * rewrite (tryBlock_acquired _ _ _ _ Hinit eq_refl).
        apply (Hrender _ _ [Launch (Some (browsersLaunched m))]); try reflexivity.
        intros b' p [Hin | []]. discriminate.
      * unfold tryBlock, bind. rewrite Hinit. simpl.
        intros [= <- <-]. simpl. repeat split; auto.
        eexists. split; [reflexivity |]. intros b p [Hin | []]. discriminate.
  - pose proof (initBrowser_reuse e m Hidle Hneeds) as Hinit.
    unfold tryBlock, bind. rewrite Hinit.
    destruct (browser (service m)) as [b |].
    + destruct (connected b); simpl.
      * apply (Hrender b m [] eq_refl Hidle eq_refl);
          [symmetry; apply app_nil_r | intros ? ? []].
      * intros [= <- <-]. repeat split; auto.
        exists []. split; [symmetry; apply app_nil_r | intros ? ? []].
    + intros [= <- <-]. repeat split; auto.
      exists []. split; [symmetry; apply app_nil_r | intros ? ? []].
Qed.

(** The round of a call that is alone on the service: with the counter at 0
    a failed round leaves it at 0, the terminal error wraps the message the
    [try] block threw, and the page the round opened is closed. *)
Lemma attemptOnce_alone e attempt m :
  isInitializing (service m) = false ->
  activePages (service m) = 0 ->
  match attemptOnce e attempt m with
  | (Returned (Some _), _) => True
  | (Returned None, m') =>
      isInitializing (service m') = false /\ activePages (service m') = 0 /\
      maxRetries (service m') = maxRetries (service m) /\
      (attempt < maxRetries (service m))%nat
  | (Thrown message, m') =>
      activePages (service m') = 0 /\
      (maxRetries (service m) <= attempt)%nat /\
      exists cause m1 added,
        tryBlock e m = (Thrown cause, m1) /\
        message = exhaustedMessage (maxRetries (service m)) cause /\
        events m1 = events m ++ added /\
        forall b p, In (NewPage b (Some p)) added ->
          exists closing, events m' = events m1 ++ PageClose p :: closing
  end.
Proof.
  intros Hidle Hzero.
  destruct (tryBlock e m) as [[pdf | cause] m1] eqn:Htry.
  - now rewrite (attemptOnce_returned _ _ _ _ _ Htry).
  - rewrite (attemptOnce_failed _ _ _ _ _ Htry), catchBlock_spec.
    destruct (tryBlock_thrown_idle e m cause m1 Hidle Htry)
      as (Hr & Hi & Hap & added & Hev & Hpage).
    assert (Hap' : activePages (afterCatch cause (service m1)) = 0).
    { unfold afterCatch. destruct (browserGone cause);
        [destruct (browser (with_activePages _ _)) |]; simpl; lia. }
    assert (Hi' : isInitializing (afterCatch cause (service m1)) = false).
    { unfold afterCatch. destruct (browserGone cause);
        [destruct (browser (with_activePages _ _)) |]; simpl; exact Hi. }
    assert (Hr' : maxRetries (afterCatch cause (service m1)) = maxRetries (service m)).
    { unfold afterCatch. destruct (browserGone cause);
        [destruct (browser (with_activePages _ _)) |]; simpl; exact Hr. }
    rewrite Hr. simpl snd.
    destruct (maxRetries (service m) <=? attempt)%nat eqn:Hlast; simpl.
    + apply Nat.leb_le in Hlast. repeat split; [exact Hap' | exact Hlast |].
      exists cause, m1, added. repeat split; [exact Hev |].
      intros b p Hin. unfold catchEvents.
      rewrite (Hpage b p Hin). simpl. eauto.
    + apply Nat.leb_gt in Hlast. repeat split; auto.
Qed.

(** A call that is alone on the service and fails in every attempt: the
    counter is back at 0, the error is the terminal one around the cause of
    the last attempt, and a page that attempt opened was closed then. *)
Lemma retryLoop_alone env remaining attempt m message m' :
  isInitializing (service m) = false ->
  activePages (service m) = 0 ->
  maxRetries (service m) = (attempt + remaining)%nat ->
  retryLoop remaining attempt env m = (Thrown message, m') ->
  activePages (service m') = 0 /\
  exists m0 cause m1 added,
    tryBlock (env (maxRetries (service m))) m0 = (Thrown cause, m1) /\
    message = exhaustedMessage (maxRetries (service m)) cause /\
    events m1 = events m0 ++ added /\
    forall b p, In (NewPage b (Some p)) added ->
      exists closing, events m' = events m1 ++ PageClose p :: closing.
Proof.
  revert attempt m. induction remaining as [| remaining IH]; intros attempt m Hi Hz Hr.
  - discriminate.
  - rewrite retryLoop_step.
    pose proof (attemptOnce_alone (env (S attempt)) (S attempt) m Hi Hz) as Hround.
    destruct (attemptOnce (env (S attempt)) (S attempt) m) as [[[pdf |] | msg] m1].
    + discriminate.
    + destruct Hround as (Hi1 & Hz1 & Hr1 & Hlt). intros Hloop.
      rewrite <- Hr1.
      apply (IH (S attempt) m1 Hi1 Hz1); [lia | exact Hloop].
    + destruct Hround as (Hz1 & Hlast & cause & mc & added & Htry & Hmsg & Hev & Hclose).
      intros [= <- <-]. split; [exact Hz1 |].
      assert (Heq : S attempt = maxRetries (service m)) by lia.
      rewrite Heq in Htry. exists m, cause, mc, added. auto.
Qed.

(** C1. A call made while another render holds a slot and the browser has
    crashed, with a browser that cannot be started again: the three attempts
    fail in [initBrowser], before [this.activePages++]; the terminal error
    wraps the last cause, and the counter, 1 before the call, is 0 after
    it. *)
Theorem C1_exhausted_call_releases_a_slot_it_never_held :
  activePages crashedWhileRendering = 1 /\
  fst (generatePurchaseOrderPDF
         (offline (fun _ => cannotLaunch "Failed to launch the browser process!"))
         (idle crashedWhileRendering))
  = Thrown "PDF generation failed after 3 attempts: Failed to launch the browser process!" /\
  activePages (service (snd (generatePurchaseOrderPDF
         (offline (fun _ => cannotLaunch "Failed to launch the browser process!"))
         (idle crashedWhileRendering)))) = 0 /\
  events (snd (generatePurchaseOrderPDF
         (offline (fun _ => cannotLaunch "Failed to launch the browser process!"))
         (idle crashedWhileRendering)))
  = [RatesRequested "https://api.exchangerate-api.com/v4/latest/INR";
     Launch None; Delay 1000; Launch None; Delay 2000; Launch None].
Proof. repeat split; vm_compute; reflexivity. Qed.

Lemma launches_catchEvents attempt message m :
  launches (catchEvents attempt message m) = 0%nat.
Proof.
  unfold catchEvents.
  destruct (page m), (browserGone message), (browser (service m)),
    (maxRetries (service m) <=? attempt)%nat; reflexivity.
Qed.

Lemma fetchRates_frame env s :
  isInitializing (service (snd (fetchRates env (idle s)))) = isInitializing s /\
  activePages (service (snd (fetchRates env (idle s)))) = activePages s /\
  maxRetries (service (snd (fetchRates env (idle s)))) = maxRetries s /\
  launches (events (snd (fetchRates env (idle s)))) = 0%nat.
Proof.
  unfold fetchRates, idle. simpl.
  destruct (Rates.getExchangeRates "INR" (now env) (net env) (exchangeRateCache s))
    as [[rates cache] [url |]]; simpl; auto.
Qed.

(** Whatever the state of the browser at the call, a first attempt that
    fails with one of the three messages and a second that works start
    exactly one browser between the failure and the return. *)
Lemma recovery_starts_one_browser s env message m1 pdf :
  isInitializing s = false ->
  activePages s < maxConcurrentPages s -> (2 <= maxRetries s)%nat ->
  tryBlock (attemptEnv env 1) (snd (fetchRates env (idle s))) = (Thrown message, m1) ->
  browserGone message = true ->
  launch (attemptEnv env 2) = Launched true ->
  newPageFails (attemptEnv env 2) = None ->
  preparing (attemptEnv env 2) = None ->
  rendering (attemptEnv env 2) = Returned pdf ->
  fst (generatePurchaseOrderPDF env (idle s)) = Returned (Some pdf) /\
  launches (events (snd (generatePurchaseOrderPDF env (idle s))))
    = (launches (events m1) + 1)%nat.
Proof.
  intros Hi Hfree Hretries Htry Hgone Hlaunch Hpage Hprep Hpdf.
  rewrite (generatePurchaseOrderPDF_accepted _ _ Hfree).
  destruct (fetchRates_frame env s) as (Hi0 & _ & Hr0 & _).
  rewrite Hi in Hi0.
  destruct (tryBlock_thrown_idle _ _ _ _ Hi0 Htry) as (Hr1 & Hi1 & _ & _).
  rewrite Hr0 in Hr1.
  destruct (maxRetries s) as [| [| k]]; [lia | lia | clear Hretries].
  rewrite retryLoop_step, (attemptOnce_failed _ _ _ _ _ Htry), Hr1.
  simpl Nat.leb. cbv iota. rewrite catchBlock_spec. simpl snd.
  rewrite retryLoop_step.
  match goal with |- context [attemptOnce _ 2 ?m] => set (m2 := m) end.
  destruct (afterCatch_gone message (service m1) Hgone) as (Hb2 & Hd2 & Hi2).
  assert (Hinit2 := initBrowser_launched (attemptEnv env 2) m2 true
            (eq_trans Hi2 Hi1) (needsBrowser_without_browser _ Hb2) Hlaunch).
  pose proof (tryBlock_acquired _ _ _ _ Hinit2 eq_refl) as Htry2.
  rewrite renderWith_spec, Hpage, Hprep, Hpdf in Htry2. cbv zeta in Htry2.
  rewrite (attemptOnce_returned _ _ _ _ _ Htry2). simpl.
  split; [reflexivity |].
  rewrite !launches_app, launches_catchEvents. unfold launches. simpl. lia.
Qed.

Lemma exhausted_call_alone env s message m' :
  isInitializing s = false ->
  activePages s = 0 ->
  0 < maxConcurrentPages s ->
  generatePurchaseOrderPDF env (idle s) = (Thrown message, m') ->
  activePages (service m') = activePages s /\
  exists m0 cause m1 added,
    tryBlock (attemptEnv env (maxRetries s)) m0 = (Thrown cause, m1) /\
    message = exhaustedMessage (maxRetries s) cause /\
    events m1 = events m0 ++ added /\
    forall b p, In (NewPage b (Some p)) added ->
      exists closing, events m' = events m1 ++ PageClose p :: closing.
Proof.
  intros Hidle Hzero Hlimit.
  rewrite generatePurchaseOrderPDF_accepted by lia.
  assert (Hfetch : isInitializing (service (snd (fetchRates env (idle s)))) = false /\
                   activePages (service (snd (fetchRates env (idle s)))) = 0 /\
                   maxRetries (service (snd (fetchRates env (idle s)))) = maxRetries s).
  { unfold fetchRates, idle. simpl.
    destruct (Rates.getExchangeRates "INR" (now env) (net env) (exchangeRateCache s))
      as [[rates cache] request]. simpl. auto. }
  destruct Hfetch as (Hi & Hz & Hr). intros Hloop.
  rewrite Hzero, <- Hr.
  apply (retryLoop_alone (attemptEnv env) (maxRetries s) 0
           (snd (fetchRates env (idle s))) message m' Hi Hz); [now rewrite Hr | exact Hloop].
Qed.

(** The gate: at the limit the call throws at once; the service, the events
    and the local state are untouched. *)
Lemma gate_rejects env m :
  maxConcurrentPages (service m) <= activePages (service m) ->
  generatePurchaseOrderPDF env m = (Thrown (concurrencyMessage (service m)), m).
Proof.
  intros Hfull. unfold generatePurchaseOrderPDF, bind, this, throw.
  now rewrite (proj2 (Z.leb_le _ _) Hfull).
Qed.

(** [browserGone] is the test of the three messages. *)
Lemma browserGone_spec message :
  browserGone message = true <->
  (exists pre post, message = (pre ++ "Target closed" ++ post)%string) \/
  (exists pre post, message = (pre ++ "Connection closed" ++ post)%string) \/
  (exists pre post, message = (pre ++ "Protocol error" ++ post)%string).
Proof.
  unfold browserGone. rewrite !orb_true_iff, !JsStringFacts.includes_spec. tauto.
Qed.

(** The call that is alone on the service. A failed attempt whose message
    contains one of the three texts, made while no other initialization is
    in flight, ends with the handle set to null and marked disconnected; a
    handle that was cached when the error was caught is closed before the
    backoff delay, and the next [initBrowser] starts a browser. After any
    other failure the handle and the flag are as the error found them, no
    browser is closed, and the loop goes on while attempts remain. A call
    whose first attempt fails that way and whose second attempt succeeds
    returns the PDF, and exactly one browser is started after the failure;
    when the call found a connected browser and the failure came after it
    was acquired, that is the only browser the call starts. *)
Lemma browser_discarded_when_alone :
  (forall e attempt m message m1,
     tryBlock e m = (Thrown message, m1) ->
     (JsString.includes "Target closed" message
      || JsString.includes "Connection closed" message
      || JsString.includes "Protocol error" message) = true ->
     isInitializing (service m) = false ->
     browser (service (snd (attemptOnce e attempt m))) = None /\
     browserDisconnected (service (snd (attemptOnce e attempt m))) = true /\
     (forall b, browser (service m1) = Some b ->
        exists before after,
          events (snd (attemptOnce e attempt m))
            = events m1 ++ before ++ BrowserClose (handle b) :: after /\
          forall ms, ~ In (Delay ms) before) /\
     (forall e2, exists r,
        events (snd (initBrowser e2 (snd (attemptOnce e attempt m))))
          = events (snd (attemptOnce e attempt m)) ++ [Launch r])) /\
  (forall e attempt m message m1,
     tryBlock e m = (Thrown message, m1) ->
     (JsString.includes "Target closed" message
      || JsString.includes "Connection closed" message
      || JsString.includes "Protocol error" message) = false ->
     browser (service (snd (attemptOnce e attempt m))) = browser (service m1) /\
     browserDisconnected (service (snd (attemptOnce e attempt m)))
       = browserDisconnected (service m1) /\
     ((attempt < maxRetries (service m1))%nat ->
      fst (attemptOnce e attempt m) = Returned None) /\
     exists added,
       events (snd (attemptOnce e attempt m)) = events m1 ++ added /\
       forall b, ~ In (BrowserClose b) added) /\
  (forall s env message m1 pdf,
     isInitializing s = false ->
     activePages s < maxConcurrentPages s -> (2 <= maxRetries s)%nat ->
     tryBlock (attemptEnv env 1) (snd (fetchRates env (idle s))) = (Thrown message, m1) ->
     browserGone message = true ->
     launch (attemptEnv env 2) = Launched true ->
     newPageFails (attemptEnv env 2) = None ->
     preparing (attemptEnv env 2) = None ->
     rendering (attemptEnv env 2) = Returned pdf ->
     fst (generatePurchaseOrderPDF env (idle s)) = Returned (Some pdf) /\
     launches (events (snd (generatePurchaseOrderPDF env (idle s))))
       = (launches (events m1) + 1)%nat) /\
  (forall s b env message pdf,
     browser s = Some b -> connected b = true ->
     browserDisconnected s = false -> isInitializing s = false ->
     activePages s < maxConcurrentPages s -> (2 <= maxRetries s)%nat ->
     (newPageFails (attemptEnv env 1) = Some message \/
      (newPageFails (attemptEnv env 1) = None /\
       preparing (attemptEnv env 1) = Some message) \/
      (newPageFails (attemptEnv env 1) = None /\
       preparing (attemptEnv env 1) = None /\
       rendering (attemptEnv env 1) = Thrown message)) ->
     browserGone message = true ->
     launch (attemptEnv env 2) = Launched true ->
     newPageFails (attemptEnv env 2) = None ->
     preparing (attemptEnv env 2) = None ->
     rendering (attemptEnv env 2) = Returned pdf ->
     fst (generatePurchaseOrderPDF env (idle s)) = Returned (Some pdf) /\
     launches (events (snd (generatePurchaseOrderPDF env (idle s)))) = 1%nat).
Proof.
  split; [| split; [| split]].
  - intros e attempt m message m1 Htry Hgone Hidle.
    exact (failed_attempt_discards e attempt m message m1 Htry Hgone Hidle).
  - intros e attempt m message m1 Htry Hkept.
    exact (failed_attempt_keeps e attempt m message m1 Htry Hkept).
  - intros s env message m1 pdf. apply recovery_starts_one_browser.
  - intros s b env message pdf. apply recovery_after_one_failure.
Qed.

(** A call that finds a connected browser, loses its page while printing
    and prints in the second attempt: one browser is closed, one is
    started. *)
Example recovery_when_alone :
  let call :=
    generatePurchaseOrderPDF
      (offline (fun k => match k with
                         | 1%nat => pageDies "Protocol error (Page.printToPDF): Target closed"
                         | _ => healthy "%PDF-1.4"
                         end))
      (idle (with_browser (Some {| handle := 7; connected := true |}) constructed)) in
  fst call = Returned (Some "%PDF-1.4"%string) /\
  events (snd call)
  = [RatesRequested "https://api.exchangerate-api.com/v4/latest/INR";
     NewPage 7 (Some 0%nat); Settle 3000; PageClose 0; BrowserClose 7; Delay 1000;
     Launch (Some 0%nat); NewPage 0 (Some 1%nat); Settle 3000; PageClose 1].
Proof. split; vm_compute; reflexivity. Qed.

End RenderFacts.

Module AsyncFacts.
Import Async.

(** A call that finds the counter at the limit ends at once with the
    concurrency error; nothing else changes. *)
Lemma call_rejected_at_limit w :
  maxConcurrentPages <= activePages (service w) ->
  step Call w
  = Some (with_tasks (tasks w ++ [Finished (Thrown (concurrencyMessage (service w)))]) w).
Proof. intros H. unfold step. now rewrite (proj2 (Z.leb_le _ _) H). Qed.

Lemma call_accepted_below_limit w :
  activePages (service w) < maxConcurrentPages ->
  step Call w = Some (with_tasks (tasks w ++ [AwaitingRates]) w).
Proof. intros H. unfold step. now rewrite (proj2 (Z.leb_gt _ _) H). Qed.

(** ** At most one launch in flight *)

Definition ownsLaunch (t : Task) : bool :=
  match t with
  | AwaitingOwnLaunch _ _ _ => true
  | _ => false
  end.

(** The number of tasks that wait in [initBrowser] for their own launch. *)
Fixpoint owners (ts : list Task) : nat :=
  match ts with
  | [] => 0
  | t :: rest => ((if ownsLaunch t then 1 else 0) + owners rest)%nat
  end.

Lemma owners_app ts ts' : owners (ts ++ ts') = (owners ts + owners ts')%nat.
Proof. induction ts as [| t ts IH]; simpl; [reflexivity | rewrite IH; lia]. Qed.

Lemma owners_insert ts i t t' :
  ts !! i = Some t ->
  (owners (<[i := t']> ts) + (if ownsLaunch t then 1 else 0)
   = owners ts + (if ownsLaunch t' then 1 else 0))%nat.
Proof.
  revert i. induction ts as [| u ts IH]; intros [| i] Hi; try discriminate.
  - injection Hi as ->. simpl. lia.
  - simpl in *. specialize (IH i Hi). lia.
Qed.

Lemma owners_lookup ts i t :
  ts !! i = Some t -> ownsLaunch t = true -> (1 <= owners ts)%nat.
Proof.
  revert i. induction ts as [| u ts IH]; intros [| i] Hi Ho; try discriminate.
  - injection Hi as ->. simpl. rewrite Ho. lia.
  - simpl in *. specialize (IH i Hi Ho). lia.
Qed.

Lemma owners_two ts i j t u :
  i <> j -> ts !! i = Some t -> ts !! j = Some u ->
  ownsLaunch t = true -> ownsLaunch u = true -> (2 <= owners ts)%nat.
Proof.
  revert i j. induction ts as [| v ts IH]; intros [| i] [| j] Hne Hi Hj Ht Hu;
    try discriminate; try congruence; simpl in *.
  - injection Hi as ->. rewrite Ht. pose proof (owners_lookup ts j u Hj Hu). lia.
  - injection Hj as ->. rewrite Hu. pose proof (owners_lookup ts i t Hi Ht). lia.
  - assert (i <> j) by congruence. specialize (IH i j H Hi Hj Ht Hu). lia.
Qed.

(** The invariant: a pending launch has its owner waiting for it, at most
    one task waits for a launch of its own, and while one does the service
    is marked initializing with the promise stored. *)
Record consistent (w : World) : Prop := {
  pending_owned :
    forall P, promises w !! P = Some Pending ->
      exists i a pg, tasks w !! i = Some (AwaitingOwnLaunch a pg P);
  one_owner : (owners (tasks w) <= 1)%nat;
  owner_marks :
    (1 <= owners (tasks w))%nat ->
    isInitializing (service w) = true /\ is_Some (initPromise (service w))
}.

(** What resuming a task can do to the launches. *)
Inductive resumeKind (t t' : Task) (w w' : World) : Prop :=
| OwnerResumes a pg P :
    t = AwaitingOwnLaunch a pg P ->
    promises w !! P <> Some Pending ->
    ownsLaunch t' = false ->
    promises w' = promises w -> tasks w' = tasks w ->
    resumeKind t t' w w'
| LaunchStarts a pg :
    ownsLaunch t = false ->
    ~ (isInitializing (service w) = true /\ is_Some (initPromise (service w))) ->
    t' = AwaitingOwnLaunch a pg (length (promises w)) ->
    promises w' = promises w ++ [Pending] ->
    isInitializing (service w') = true ->
    initPromise (service w') = Some (length (promises w)) ->
    tasks w' = tasks w ->
    resumeKind t t' w w'
| NoLaunch :
    ownsLaunch t = false -> ownsLaunch t' = false ->
    promises w' = promises w ->
    isInitializing (service w') = isInitializing (service w) ->
    initPromise (service w') = initPromise (service w) ->
    tasks w' = tasks w ->
    resumeKind t t' w w'.

Lemma catchTail_kind t attempt page message w t' w' :
  ownsLaunch t = false ->
  catchTail attempt page message w = (t', w') -> resumeKind t t' w w'.
Proof.
  intros Ht. unfold catchTail.
  destruct (maxRetries <=? attempt)%nat; intros [= <- <-];
    now apply NoLaunch.
Qed.

Lemma catchRelease_kind t attempt page message w t' w' :
  ownsLaunch t = false ->
  catchRelease attempt page message w = (t', w') -> resumeKind t t' w w'.
Proof.
  intros Ht. unfold catchRelease, catchTail.
  destruct (Render.browserGone message).
  - destruct w as [[[b |] ini pr ap bd] ps cn ls bs pgs ts]; simpl;
      intros [= <- <-]; now apply NoLaunch.
  - destruct (maxRetries <=? attempt)%nat; intros [= <- <-]; now apply NoLaunch.
Qed.

Lemma catchEntry_kind t attempt page message w t' w' :
  ownsLaunch t = false ->
  catchEntry attempt page message w = (t', w') -> resumeKind t t' w w'.
Proof.
  intros Ht. unfold catchEntry. destruct page as [p |].
  - intros [= <- <-]. now apply NoLaunch.
  - now apply catchRelease_kind.
Qed.

Lemma afterInitBrowser_kind t attempt page result w t' w' :
  ownsLaunch t = false ->
  afterInitBrowser attempt page result w = (t', w') -> resumeKind t t' w w'.
Proof.
  intros Ht. unfold afterInitBrowser.
  destruct result as [[b |] | message]; try (now apply catchEntry_kind).
  destruct (isConnected w b); [| now apply catchEntry_kind].
  intros [= <- <-]. now apply NoLaunch.
Qed.

Lemma startAttempt_kind t attempt page w t' w' :
  ownsLaunch t = false ->
  startAttempt attempt page w = (t', w') -> resumeKind t t' w w'.
Proof.
  intros Ht. unfold startAttempt.
  destruct (attempt <? maxRetries)%nat; [| intros [= <- <-]; now apply NoLaunch].
  destruct (isInitializing (service w)) eqn:Hi, (initPromise (service w)) eqn:Hp;
    try (intros [= <- <-]; now apply NoLaunch);
    (destruct (needsBrowser w);
     [ intros [= <- <-];
       apply (LaunchStarts _ _ _ _ (S attempt) page); simpl; try reflexivity; try exact Ht;
       rewrite ?Hi, ?Hp; intros [? [? ?]]; discriminate
     | intros [= <- <-]; now apply NoLaunch ]).
Qed.

Lemma resume_kind t o w t' w' :
  resume t o w = Some (t', w') -> resumeKind t t' w w'.
Proof.
  destruct t; unfold resume.
  - intros [= H].
    exact (startAttempt_kind AwaitingRates 0 None w t' w' eq_refl H).
  - destruct (promises w !! promise) as [[| b | message] |] eqn:Hp; try discriminate;
      intros [= <- <-];
      apply (OwnerResumes _ _ _ _ attempt page promise); try reflexivity;
      rewrite Hp; discriminate.
  - destruct (promises w !! promise) as [[| b | message] |]; try discriminate;
      intros [= H].
    + exact (afterInitBrowser_kind (AwaitingSharedLaunch attempt page promise)
               attempt page (Returned (Some b)) w t' w' eq_refl H).
    + exact (afterInitBrowser_kind (AwaitingSharedLaunch attempt page promise)
               attempt page (Thrown message) w t' w' eq_refl H).
  - intros [= H].
    exact (afterInitBrowser_kind (AwaitingInitBrowser attempt page result)
             attempt page result w t' w' eq_refl H).
  - destruct o as [pdf | message].
    + intros [= <- <-]. now apply NoLaunch.
    + intros [= H].
      exact (catchEntry_kind (AwaitingNewPage attempt page b)
               attempt page message w t' w' eq_refl H).
  - destruct o as [pdf | message].
    + intros [= <- <-]. now apply NoLaunch.
    + intros [= <- <-]. now apply NoLaunch.
  - intros [= <- <-]. now apply NoLaunch.
  - intros [= H].
    exact (catchRelease_kind (CatchClosingPage attempt p message)
             attempt (Some p) message w t' w' eq_refl H).
  - destruct o as [pdf | msg]; [destruct (isConnected w b); [discriminate |] |];
      intros [= <- <-]; now apply NoLaunch.
  - unfold catchTail. destruct (maxRetries <=? attempt)%nat;
      intros [= <- <-]; now apply NoLaunch.
  - intros [= H].
    exact (startAttempt_kind (Sleeping attempt page) attempt page w t' w' eq_refl H).
  - discriminate.
Qed.

Lemma initial_consistent : consistent initial.
Proof.
  split; simpl.
  - intros P HP. destruct P; discriminate.
  - lia.
  - lia.
Qed.

Lemma no_owner_no_pending w :
  consistent w -> owners (tasks w) = 0%nat ->
  forall P, promises w !! P <> Some Pending.
Proof.
  intros Hc Hzero P HP.
  destruct (pending_owned w Hc P HP) as (i & a & pg & Hi).
  pose proof (owners_lookup _ _ _ Hi eq_refl). lia.
Qed.

Lemma step_consistent l w w' :
  consistent w -> step l w = Some w' -> consistent w'.
Proof.
  intros Hc. destruct l as [| i o | P failure | b]; unfold step.
  - (* a call joins: it owns no launch *)
    assert (Hjoin : forall t, ownsLaunch t = false ->
              consistent (with_tasks (tasks w ++ [t]) w)).
    { intros t Ht. split; simpl.
      - intros P HP. destruct (pending_owned w Hc P HP) as (i & a & pg & Hi).
        exists i, a, pg. now apply lookup_app_l_Some.
      - rewrite owners_app. simpl. rewrite Ht. pose proof (one_owner w Hc). lia.
      - rewrite owners_app. simpl. rewrite Ht. intros Ho.
        apply (owner_marks w Hc). lia. }
    destruct (maxConcurrentPages <=? activePages (service w)); intros [= <-];
      now apply Hjoin.
  - (* a task resumes *)
    destruct (tasks w !! i) as [t |] eqn:Hi; [| discriminate].
    destruct (resume t o w) as [[t' w1] |] eqn:Hres; [| discriminate].
    intros [= <-]. apply resume_kind in Hres.
    pose proof (lookup_lt_Some _ _ _ Hi) as Hlt.
    destruct Hres as [a pg P -> Hsettled Ht' Hp Hts
                     | a pg Ht Hfree -> Hp Hini Hpr Hts
                     | Ht Ht' Hp Hini Hpr Hts].
    + (* the owner of a settled launch goes on *)
      pose proof (owners_insert (tasks w) i _ t' Hi) as Hcount.
      rewrite Ht' in Hcount. simpl in Hcount.
      pose proof (one_owner w Hc) as Hone.
      split; simpl; rewrite Hts.
      * rewrite Hp. intros P' HP'.
        destruct (pending_owned w Hc P' HP') as (j & a' & pg' & Hj).
        destruct (decide (i = j)) as [<- | Hne].
        -- rewrite Hi in Hj. injection Hj as _ _ ->. contradiction.
        -- pose proof (owners_two _ _ _ _ _ Hne Hi Hj eq_refl eq_refl). lia.
      * lia.
      * lia.
    + (* a launch starts: none was in flight *)
      pose proof (owners_insert (tasks w) i _
                    (AwaitingOwnLaunch a pg (length (promises w))) Hi) as Hcount.
      rewrite Ht in Hcount. simpl in Hcount.
      assert (Hzero : owners (tasks w) = 0%nat).
      { destruct (owners (tasks w)) eqn:Ho; [reflexivity |].
        exfalso. apply Hfree. apply (owner_marks w Hc). lia. }
      split; simpl; rewrite Hts.
      * rewrite Hp. intros P' HP'.
        destruct (decide (P' < length (promises w))%nat) as [Hold | Hnew].
        -- rewrite lookup_app_l in HP' by exact Hold.
           exfalso. exact (no_owner_no_pending w Hc Hzero P' HP').
        -- assert (P' = length (promises w)) as ->.
           { apply lookup_lt_Some in HP'. rewrite length_app in HP'. simpl in HP'. lia. }
           exists i, a, pg. now apply list_lookup_insert_eq.
      * lia.
      * intros _. rewrite Hini, Hpr. split; [reflexivity | eauto].
    + (* nothing happens to the launches *)
      pose proof (owners_insert (tasks w) i _ t' Hi) as Hcount.
      rewrite Ht, Ht' in Hcount.
      split; simpl; rewrite Hts.
      * rewrite Hp. intros P' HP'.
        destruct (pending_owned w Hc P' HP') as (j & a' & pg' & Hj).
        destruct (decide (i = j)) as [<- | Hne].
        -- rewrite Hi in Hj. injection Hj as ->. discriminate.
        -- exists j, a', pg'. now rewrite list_lookup_insert_ne.
      * pose proof (one_owner w Hc). lia.
      * intros Ho. rewrite Hini, Hpr. apply (owner_marks w Hc). lia.
  - (* a launch settles *)
    destruct (promises w !! P) as [[| b | message] |] eqn:HP; try discriminate.
    pose proof (lookup_lt_Some _ _ _ HP) as Hlt.
    assert (Hsettle : forall x, x <> Pending ->
              forall P', <[P := x]> (promises w) !! P' = Some Pending ->
                promises w !! P' = Some Pending).
    { intros x Hx P' HP'. destruct (decide (P = P')) as [<- | Hne].
      - rewrite list_lookup_insert_eq in HP' by exact Hlt. congruence.
      - now rewrite list_lookup_insert_ne in HP'. }
    destruct failure as [message |]; intros [= <-]; split; simpl;
      try exact (one_owner w Hc); try exact (owner_marks w Hc);
      intros P' HP'; apply (pending_owned w Hc); eapply Hsettle; eauto; discriminate.
  - (* a browser disconnects *)
    destruct (isConnected w b); [| discriminate]. intros [= <-].
    split; simpl.
    + exact (pending_owned w Hc).
    + exact (one_owner w Hc).
    + intros Ho. destruct (existsb (Nat.eqb b) (listening w)); simpl;
        exact (owner_marks w Hc Ho).
Qed.

Lemma run_consistent ls w w' :
  consistent w -> run ls w = Some w' -> consistent w'.
Proof.
  revert w. induction ls as [| l ls IH]; intros w Hc; simpl.
  - now intros [= <-].
  - destruct (step l w) as [w1 |] eqn:Hstep; [| discriminate].
    apply IH. eapply step_consistent; eauto.
Qed.

(** In every reachable world at most one [_createBrowser] promise is
    pending. *)
Theorem at_most_one_launch_in_flight w :
  reachable w ->
  forall P P', promises w !! P = Some Pending ->
               promises w !! P' = Some Pending -> P = P'.
Proof.
  intros [ls Hrun] P P' HP HP'.
  pose proof (run_consistent ls initial w initial_consistent Hrun) as Hc.
  destruct (pending_owned w Hc P HP) as (i & a & pg & Hi).
  destruct (pending_owned w Hc P' HP') as (j & a' & pg' & Hj).
  destruct (decide (i = j)) as [<- | Hne].
  - rewrite Hi in Hj. now injection Hj.
  - pose proof (owners_two _ _ _ _ _ Hne Hi Hj eq_refl eq_refl).
    pose proof (one_owner w Hc). lia.
Qed.

(** A caller that finds the service initializing takes the stored promise
    and starts no launch. *)
Lemma caller_shares_the_launch attempt page w shared :
  (attempt < maxRetries)%nat ->
  isInitializing (service w) = true ->
  initPromise (service w) = Some shared ->
  startAttempt attempt page w = (AwaitingSharedLaunch (S attempt) page shared, w).
Proof.
  intros Hlt Hi Hp. unfold startAttempt.
  now rewrite (proj2 (Nat.ltb_lt _ _) Hlt), Hi, Hp.
Qed.

(** The counter is read at the call and raised only after the awaits of the
    rates and of the browser: three calls that arrive together all pass, and
    all three open a page on the one browser. *)
Example three_calls_at_once_all_hold_slots :
  tasks <$> run threeAtOnce initial
    = Some [AwaitingNewPage 1 None 0; AwaitingNewPage 1 None 0; AwaitingNewPage 1 None 0] /\
  (fun w => activePages (service w)) <$> run threeAtOnce initial = Some 3 /\
  (fun w => length (promises w)) <$> run threeAtOnce initial = Some 1%nat.
Proof. repeat split; vm_compute; reflexivity. Qed.

(** C3. After the schedule [slotReleasedTwice] two calls hold a slot, one
    rendering on page 0 and one opening a page on browser 1, and the counter
    stands at 1; the next call passes the gate and waits for the rates. *)
Theorem C3_call_accepted_while_two_renders_hold_slots :
  tasks <$> run slotReleasedTwice initial
    = Some [Rendering 1 0; AwaitingNewPage 2 None 1] /\
  (fun w => length (List.filter holdsSlot (tasks w))) <$> run slotReleasedTwice initial
    = Some 2%nat /\
  (fun w => activePages (service w)) <$> run slotReleasedTwice initial = Some 1 /\
  tasks <$> run (slotReleasedTwice ++ [Call]) initial
    = Some [Rendering 1 0; AwaitingNewPage 2 None 1; AwaitingRates].
Proof. repeat split; vm_compute; reflexivity. Qed.

(** C2. In the schedule [bothRequestsFinish] one operation fails, the
    [page.pdf] of request 0 with a message that contains Target closed and
    Protocol error, and both requests return their PDF. When request 0
    retries, the cached handle is not null: it is browser 1, which request 1
    has started in the meantime; the flag set by line 569 makes the retry
    start browser 2 all the same. So the one failure is followed by two
    launches, the handle of browser 1 is overwritten without being closed,
    and at the end browsers 1 and 2 are both connected. *)
Theorem C2_one_failure_two_browsers_started :
  failures bothRequestsFinish
    = [Resume 0 (Failed "Protocol error (Page.printToPDF): Target closed")] /\
  Render.browserGone "Protocol error (Page.printToPDF): Target closed" = true /\
  (fun w => browser (service w)) <$> run secondBrowserLeaks initial = Some (Some 1%nat) /\
  (fun w => tasks w !! 0%nat) <$> run secondBrowserLeaks initial
    = Some (Some (AwaitingOwnLaunch 2 (Some 0%nat) 2)) /\
  tasks <$> run bothRequestsFinish initial
    = Some [Finished (Returned (Some "%PDF-0"%string));
            Finished (Returned (Some "%PDF-1"%string))] /\
  promises <$> run bothRequestsFinish initial
    = Some [Fulfilled 0; Fulfilled 1; Fulfilled 2] /\
  (fun w => browser (service w)) <$> run bothRequestsFinish initial = Some (Some 2%nat) /\
  connected <$> run bothRequestsFinish initial = Some [1%nat; 2%nat].
Proof. repeat split; vm_compute; reflexivity. Qed.

(** C4. After the schedule [secondBrowserLeaks] the browsers 1 and 2 are both
    connected; the service holds browser 1, on which request 1 works, and is
    about to replace it by browser 2 without closing it. *)
Theorem C4_two_browsers_alive :
  connected <$> run secondBrowserLeaks initial = Some [1%nat; 2%nat] /\
  (fun w => browser (service w)) <$> run secondBrowserLeaks initial = Some (Some 1%nat) /\
  tasks <$> run secondBrowserLeaks initial
    = Some [AwaitingOwnLaunch 2 (Some 0%nat) 2; AwaitingNewPage 1 None 1] /\
  (fun w => browser (service w)) <$> run (secondBrowserLeaks ++ [resumes 0]) initial
    = Some (Some 2%nat) /\
  connected <$> run (secondBrowserLeaks ++ [resumes 0]) initial = Some [1%nat; 2%nat].
Proof. repeat split; vm_compute; reflexivity. Qed.

End AsyncFacts.

(* ===================================================================== *)
(** * Further properties of the rates *)
(* ===================================================================== *)

Module RatesMore.
Import Rates.

Lemma Qc_div_self (r : Qc) : r <> 0%Qc -> (r / r)%Qc = 1%Qc.
Proof. intros Hr. unfold Qcdiv. now apply Qcmult_inv_r. Qed.



(** The name is one that every object inherits from [Object.prototype]. *)
Definition inherited (name : string) : bool :=
  JsString.array_includes JsObject.prototypeKeys name.

Lemma convertRates_converted rs newBase baseRate :
  rs !! newBase = Some (Num baseRate) -> baseRate <> 0%Qc ->
  convertRates rs newBase = divide baseRate <$> rs.
Proof.
  intros Hb Hnz. unfold convertRates. rewrite Hb.
  destruct (decide (baseRate = 0%Qc)); [contradiction | reflexivity].
Qed.

Lemma convertRates_unchanged rs newBase :
  (rs !! newBase = None /\ inherited newBase = false) \/
  rs !! newBase = Some (Num 0) \/ rs !! newBase = Some NaN ->
  convertRates rs newBase = rs.
Proof.
  unfold convertRates, inherited. intros [[-> ->] | [-> | ->]]; reflexivity.
Qed.

Lemma convertRates_inherited rs newBase :
  rs !! newBase = None -> inherited newBase = true ->
  convertRates rs newBase = (fun _ => NaN) <$> rs.
Proof. unfold convertRates, inherited. now intros -> ->. Qed.

Lemma convertRates_spec rs newBase baseRate :
  rs !! newBase = Some (Num baseRate) -> baseRate <> 0%Qc ->
  convertRates rs newBase !! newBase = Some (Num 1) /\
  dom (convertRates rs newBase) = dom rs /\
  forall c, convertRates rs newBase !! c = divide baseRate <$> rs !! c.
Proof.
  intros Hb Hnz. rewrite (convertRates_converted _ _ _ Hb Hnz).
  split; [| split].
  - rewrite lookup_fmap, Hb. simpl. now rewrite Qc_div_self.
  - apply dom_fmap_L.
  - intros c. apply lookup_fmap.
Qed.

Lemma convertRates_inherited_spec rs newBase :
  rs !! newBase = None -> inherited newBase = true ->
  dom (convertRates rs newBase) = dom rs /\
  forall c, convertRates rs newBase !! c = (fun _ => NaN) <$> rs !! c.
Proof.
  intros Hb Hin. rewrite (convertRates_inherited _ _ Hb Hin).
  split; [apply dom_fmap_L | intros c; apply lookup_fmap].
Qed.



Lemma fallbackRates_nonzero code r :
  fallbackRates !! code = Some r -> exists q, r = Num q /\ q <> 0%Qc.
Proof.
  intros Hr. unfold fallbackRates in Hr. apply elem_of_list_to_map_2 in Hr.
  repeat (apply elem_of_cons in Hr as [Hr | Hr];
          [injection Hr as -> ->; eexists; split; [reflexivity | intros H; inversion H] |]).
  inversion Hr.
Qed.

(** X3. The table a failed fetch returns, by base currency. For a base that
    the fallback table lists, the table has the same 18 currencies and the
    base has the rate 1. For a base it does not list, the INR-based table
    comes back unchanged, without an error, unless the base is a name that
    objects inherit from Object.prototype: then all 18 rates are NaN. The
    base INR gets the table as written. *)
Theorem failed_fetch_table (baseCurrency : string) (now : Z) (net : AxiosResult)
    (c : ExchangeRateCache) :
  cacheIsValid now c = false ->
  fetchFails net ->
  let returned := fst (fst (getExchangeRates baseCurrency now net c)) in
  dom returned = dom fallbackRates /\
  (is_Some (fallbackRates !! baseCurrency) -> returned !! baseCurrency = Some (Num 1)) /\
  (fallbackRates !! baseCurrency = None ->
     if JsString.array_includes JsObject.prototypeKeys baseCurrency
     then forall code, returned !! code = (fun _ => NaN) <$> fallbackRates !! code
     else returned = fallbackRates) /\
  (baseCurrency = "INR"%string -> returned = fallbackRates).
Proof.
  intros Hmiss Hfail returned. subst returned.
  rewrite (RatesFacts.fetch_failure _ _ _ _ Hmiss Hfail). cbn [fst].
  unfold fallbackFor.
  destruct (String.eqb_spec baseCurrency "INR") as [-> | Hne].
  - repeat split; reflexivity.
  - pose proof (convertRates_spec fallbackRates baseCurrency) as Hsome.
    pose proof (convertRates_unchanged fallbackRates baseCurrency) as Hnone.
    pose proof (convertRates_inherited_spec fallbackRates baseCurrency) as Hproto.
    unfold inherited in Hnone, Hproto.
    split; [| split; [| split]].
    + destruct (fallbackRates !! baseCurrency) as [r |] eqn:Hr.
      * destruct (fallbackRates_nonzero _ _ Hr) as (q & -> & Hq).
        now apply (Hsome q eq_refl Hq).
      * destruct (JsString.array_includes JsObject.prototypeKeys baseCurrency) eqn:Hin.
        -- exact (proj1 (Hproto eq_refl eq_refl)).
        -- now rewrite Hnone by auto.
    + intros [r Hr]. destruct (fallbackRates_nonzero _ _ Hr) as (q & -> & Hq).
      now apply (Hsome q Hr Hq).
    + intros Hr. destruct (JsString.array_includes JsObject.prototypeKeys baseCurrency) eqn:Hin.
      * exact (proj2 (Hproto Hr eq_refl)).
      * apply Hnone. auto.
    + contradiction.
Qed.

Lemma failed_fetch_table_witness :
  fst (fst (getExchangeRates "XYZ" 1700000000000 (Rejected "Network Error") initialCache))
    = fallbackRates /\
  fst (fst (getExchangeRates "constructor" 1700000000000 (Rejected "Network Error")
              initialCache)) !! "USD"%string = Some NaN.
Proof.
  split.
  - refine (proj1 (proj2 (proj2 (failed_fetch_table "XYZ" 1700000000000
              (Rejected "Network Error") initialCache _ _))) _);
      solve [reflexivity | exact I].
  - refine (proj1 (proj2 (proj2 (failed_fetch_table "constructor" 1700000000000
              (Rejected "Network Error") initialCache _ _))) _ "USD"%string);
      solve [reflexivity | exact I].
Defined.

End RatesMore.

(* ===================================================================== *)
(** * Further properties of the terms *)
(* ===================================================================== *)

Module TermsMore.
Import Terms TermsFacts.

Lemma finalCleanup_settled l :
  Forall (fun t => has_marker t = false) l -> Forall settled (finalCleanup l).
Proof.
  intros Hall. unfold finalCleanup. rewrite List.Forall_forall in *. intros t Ht.
  rewrite <- list_elem_of_In in Ht.
  apply list_elem_of_filter in Ht as [Hne Ht].
  apply list_elem_of_fmap in Ht as (u & -> & Hu).
  apply finalTerm_settled; [| exact Hne].
  apply Hall. now rewrite <- list_elem_of_In.
Qed.

Lemma processCleanString_settled s : Forall settled (processCleanString s).
Proof.
  unfold processCleanString.
  destruct (trim _) eqn:Hclean; [constructor |]. rewrite <- Hclean.
  apply finalCleanup_settled, numberedTerms_marker_free.
Qed.

(** X4. Whatever the argument is (null, a string, a string holding a JSON
    array, an array with elements of any type) and whatever [JSON.parse]
    does, every term [processTermsAndConditions] returns is not empty, has
    no quote, comma or white space at either end, has single spaces as its
    only white space, and contains no digit that is followed by a dot. *)
Theorem every_returned_term_is_clean
    (JSON_parse : ustring -> JsonResult) (terms : TermsInput) :
  Forall (fun t =>
            nonempty t = true /\
            ((forall c, head t = Some c -> is_quote_comma_space c = false) /\
             (forall c, last t = Some c -> is_quote_comma_space c = false)) /\
            collapse_spaces t = t /\
            has_marker t = false)
    (processTermsAndConditions JSON_parse terms).
Proof.
  change (Forall settled (processTermsAndConditions JSON_parse terms)).
  destruct terms as [| s | elems |]; simpl.
  - constructor.
  - destruct s as [| c s]; [constructor |].
    destruct (bracketed (c :: s)); [| apply processCleanString_settled].
    destruct (JSON_parse (c :: s));
      [apply processCleanString_settled | apply processArray_settled
      | apply processCleanString_settled].
  - apply processArray_settled.
  - constructor.
Qed.

(** ** Blank input *)

Abbreviation blank s := (Forall (fun c => is_space c = true) s).

Lemma dropWhile_all p s : Forall (fun c => p c = true) s -> dropWhile p s = [].
Proof. induction 1 as [| c s Hc _ IH]; simpl; [reflexivity | now rewrite Hc]. Qed.

Lemma trim_blank s : blank s -> trim s = [].
Proof. intros Hs. unfold trim, strip_edges. now rewrite dropWhile_all. Qed.

Lemma space_not_quote_or_bracket c : is_space c = true -> is_quote_or_bracket c = false.
Proof.
  intros Hc. unfold is_quote_or_bracket, quote, apostrophe, lbracket, rbracket.
  destruct (N.eqb_spec c 34) as [-> | _]; [discriminate |].
  destruct (N.eqb_spec c 39) as [-> | _]; [discriminate |].
  destruct (N.eqb_spec c 91) as [-> | _]; [discriminate |].
  destruct (N.eqb_spec c 93) as [-> | _]; [discriminate | reflexivity].
Qed.

Lemma blank_not_quote c : is_space c = true -> (c =? quote)%N = false.
Proof.
  intros Hc. apply space_not_quote_or_bracket in Hc.
  unfold is_quote_or_bracket in Hc. now destruct (c =? quote)%N.
Qed.

Lemma blank_not_backslash c : is_space c = true -> (c =? backslash)%N = false.
Proof.
  intros Hc. unfold backslash. destruct (N.eqb_spec c 92) as [-> | _]; [discriminate | reflexivity].
Qed.

Lemma replace_quote_comma_quote_blank s : blank s -> replace_quote_comma_quote s = s.
Proof.
  induction 1 as [| c s Hc Hs IH]; [reflexivity |].
  simpl. rewrite IH, (blank_not_quote _ Hc). simpl.
  destruct s as [| c1 [| c2 s']]; reflexivity.
Qed.

Lemma unescape_quotes_blank s : blank s -> unescape_quotes s = s.
Proof.
  induction 1 as [| c s Hc Hs IH]; [reflexivity |].
  simpl. rewrite IH, (blank_not_backslash _ Hc). simpl.
  destruct s; reflexivity.
Qed.

Lemma strip_quotes_blank s : blank s -> strip_edges is_quote_or_bracket s = s.
Proof.
  intros Hs. apply strip_edges_id. split; intros c Hc.
  - destruct s as [| d s]; [discriminate |]. injection Hc as ->.
    apply space_not_quote_or_bracket. now apply Forall_cons_1 in Hs as [Hd _].
  - apply space_not_quote_or_bracket.
    rewrite List.Forall_forall in Hs. apply Hs.
    rewrite <- list_elem_of_In. apply last_Some_elem_of. exact Hc.
Qed.

Lemma collapse_spaces_blank s : blank s -> blank (collapse_spaces s).
Proof.
  induction 1 as [| c s Hc Hs IH]; [constructor |].
  simpl. rewrite Hc. destruct s as [| c' s'].
  - repeat constructor.
  - apply Forall_cons_1 in Hs as [Hc' _]. rewrite Hc'. exact IH.
Qed.

Lemma processCleanString_blank s : blank s -> processCleanString s = [].
Proof.
  intros Hs. unfold processCleanString.
  rewrite (replace_quote_comma_quote_blank _ Hs), (strip_quotes_blank _ Hs),
    (unescape_quotes_blank _ Hs), (trim_blank _ (collapse_spaces_blank _ Hs)).
  reflexivity.
Qed.

Lemma bracketed_blank s : blank s -> bracketed s = false.
Proof.
  intros Hs. destruct s as [| c s]; [reflexivity |].
  apply Forall_cons_1 in Hs as [Hc _]. simpl.
  apply space_not_quote_or_bracket in Hc. unfold is_quote_or_bracket in Hc.
  destruct (c =? lbracket)%N; [| reflexivity].
  now rewrite !orb_true_r in Hc.
Qed.

Lemma processArray_app xs ys : processArray (xs ++ ys) = processArray xs ++ processArray ys.
Proof.
  unfold processArray, finalCleanup.
  now rewrite flat_map_app, map_app, filter_app.
Qed.

(** An element that is no string, or a string of white space only. *)
Definition skipped (e : Elem) : Prop :=
  match e with
  | EOther => True
  | EStr s => blank s
  end.

Lemma processElement_skipped e : skipped e -> processElement e = [].
Proof.
  destruct e as [s |]; [| reflexivity].
  simpl. intros Hs. now rewrite (trim_blank _ Hs).
Qed.

(** X5. A falsy argument, an empty array and a string of white space give
    no terms. The elements of an array are processed one by one: the result
    for a concatenation is the concatenation of the results, and an element
    that is not a string, or is empty or white space only, contributes
    nothing wherever it stands. *)
Theorem blank_input_and_elements (JSON_parse : ustring -> JsonResult) :
  processTermsAndConditions JSON_parse TFalsy = [] /\
  processTermsAndConditions JSON_parse (TArr []) = [] /\
  (forall s, Forall (fun c => is_space c = true) s ->
     processTermsAndConditions JSON_parse (TStr s) = []) /\
  (forall xs ys,
     processTermsAndConditions JSON_parse (TArr (xs ++ ys))
     = processTermsAndConditions JSON_parse (TArr xs)
       ++ processTermsAndConditions JSON_parse (TArr ys)) /\
  (forall xs e ys,
     match e with
     | EOther => True
     | EStr s => Forall (fun c => is_space c = true) s
     end ->
     processTermsAndConditions JSON_parse (TArr (xs ++ e :: ys))
     = processTermsAndConditions JSON_parse (TArr (xs ++ ys))).
Proof.
  split; [reflexivity |]. split; [reflexivity |]. split; [| split].
  - intros s Hs. destruct s as [| c s]; [reflexivity |].
    cbn [processTermsAndConditions].
    rewrite (bracketed_blank _ Hs). now apply processCleanString_blank.
  - intros xs ys. apply processArray_app.
  - intros xs e ys He. simpl.
    change (xs ++ e :: ys) with (xs ++ [e] ++ ys).
    rewrite !processArray_app.
    unfold processArray at 2. simpl. rewrite app_nil_r.
    now rewrite (processElement_skipped e He).
Qed.

End TermsMore.

(* ===================================================================== *)
(** * Further properties of the retry loop and of the browser *)
(* ===================================================================== *)

Module RenderMore.
Import Render Lifecycle RenderFacts.

Local Arguments retryLoop : simpl never.

Lemma delays_app evs evs' : delays (evs ++ evs') = delays evs ++ delays evs'.
Proof. unfold delays. apply flat_map_app. Qed.

Lemma settles_app evs evs' : settles (evs ++ evs') = settles evs ++ settles evs'.
Proof. unfold settles. apply flat_map_app. Qed.

(** At most one wait, of 3000 ms. *)
Definition oneSettle (waits : list Z) : Prop := waits = [] \/ waits = [3000].

(** ** What one attempt can change *)

Lemma initBrowser_frame e m :
  maxRetries (service (snd (initBrowser e m))) = maxRetries (service m) /\
  maxConcurrentPages (service (snd (initBrowser e m))) = maxConcurrentPages (service m) /\
  activePages (service (snd (initBrowser e m))) = activePages (service m) /\
  (events (snd (initBrowser e m)) = events m \/
   exists r, events (snd (initBrowser e m)) = events m ++ [Launch r]).
Proof.
  destruct m as [[br ini pr mx ap bd mr xc] pg ev bl po].
  unfold initBrowser, bind, this, when, ret, try_catch, update, throw,
    _createBrowser, needsBrowser. simpl.
  destruct ini, pr, (sharedInit e), br as [[h c] |], bd, (launch e) as [msg | c'];
    simpl; try destruct c; simpl; eauto 10.
Qed.

Lemma tryBlock_frame e m :
  maxRetries (service (snd (tryBlock e m))) = maxRetries (service m) /\
  maxConcurrentPages (service (snd (tryBlock e m))) = maxConcurrentPages (service m) /\
  exists added,
    events (snd (tryBlock e m)) = events m ++ added /\
    delays added = [] /\ (launches added <= 1)%nat /\
    match fst (tryBlock e m) with
    | Returned _ => settles added = [3000]
    | Thrown _ => oneSettle (settles added)
    end.
Proof.
  pose proof (initBrowser_frame e m) as (Hr & Hc & _ & Hev).
  unfold tryBlock, bind.
  assert (Hadded : forall m0,
            events m0 = events m \/ (exists r, events m0 = events m ++ [Launch r]) ->
            exists added, events m0 = events m ++ added /\
              delays added = [] /\ (launches added <= 1)%nat /\ settles added = []).
  { intros m0 [-> | [r ->]].
    - exists []. rewrite app_nil_r. repeat split; unfold launches; simpl; lia.
    - exists [Launch r]. repeat split; unfold launches; simpl; lia. }
  assert (Hthrown : forall m0,
            events m0 = events m \/ (exists r, events m0 = events m ++ [Launch r]) ->
            exists added, events m0 = events m ++ added /\
              delays added = [] /\ (launches added <= 1)%nat /\ oneSettle (settles added)).
  { intros m0 H0. destruct (Hadded m0 H0) as (added & ? & ? & ? & Hs).
    exists added. repeat split; try assumption. now left. }
  destruct (initBrowser e m) as [[[b |] | message] m0]; simpl in *.
  - destruct (connected b); simpl; [| auto].
    rewrite renderWith_spec.
    destruct (Hadded m0 Hev) as (added & Hadd & Hd & Hl & Hs).
    destruct (disconnects e), (newPageFails e), (preparing e), (rendering e); simpl;
      (split; [exact Hr | split; [exact Hc |]]);
      eexists; rewrite Hadd, <- app_assoc; (split; [reflexivity |]);
      rewrite delays_app, launches_app, settles_app, Hd, Hs; unfold launches in *; simpl;
      (split; [reflexivity |]); (split; [lia |]);
      first [reflexivity | left; reflexivity | right; reflexivity].
  - auto.
  - auto.
Qed.

Lemma afterCatch_limits message s :
  maxRetries (afterCatch message s) = maxRetries s /\
  maxConcurrentPages (afterCatch message s) = maxConcurrentPages s.
Proof.
  unfold afterCatch. destruct (browserGone message); [| auto].
  destruct s as [[b |] ini pr mx ap bd mr xc]; simpl; auto.
Qed.

Lemma catchEvents_shape attempt message m :
  launches (catchEvents attempt message m) = 0%nat /\
  settles (catchEvents attempt message m) = [] /\
  delays (catchEvents attempt message m)
  = if (maxRetries (service m) <=? attempt)%nat then [] else [backoff attempt].
Proof.
  unfold catchEvents.
  destruct (page m), (browserGone message), (browser (service m)),
    (maxRetries (service m) <=? attempt)%nat; repeat split; reflexivity.
Qed.

(** One round of the loop. *)
Lemma attemptOnce_shape e attempt m :
  maxRetries (service (snd (attemptOnce e attempt m))) = maxRetries (service m) /\
  maxConcurrentPages (service (snd (attemptOnce e attempt m)))
    = maxConcurrentPages (service m) /\
  exists added,
    events (snd (attemptOnce e attempt m)) = events m ++ added /\
    (launches added <= 1)%nat /\
    match fst (attemptOnce e attempt m) with
    | Returned (Some _) => delays added = [] /\ settles added = [3000]
    | Returned None =>
        (attempt < maxRetries (service m))%nat /\ delays added = [backoff attempt] /\
        oneSettle (settles added)
    | Thrown message =>
        (maxRetries (service m) <= attempt)%nat /\ delays added = [] /\
        oneSettle (settles added) /\
        exists cause, message = exhaustedMessage (maxRetries (service m)) cause
    end.
Proof.
  pose proof (tryBlock_frame e m) as (Hr & Hc & added & Hadd & Hd & Hl & Hs).
  destruct (tryBlock e m) as [[pdf | cause] m1] eqn:Htry; simpl in *.
  - rewrite (attemptOnce_returned _ _ _ _ _ Htry). simpl.
    split; [exact Hr | split; [exact Hc |]]. exists added. auto.
  - rewrite (attemptOnce_failed _ _ _ _ _ Htry), catchBlock_spec. simpl.
    destruct (afterCatch_limits cause (service m1)) as [Hr' Hc'].
    destruct (catchEvents_shape attempt cause m1) as (Hl' & Hs' & Hd').
    split; [congruence | split; [congruence |]].
    exists (added ++ catchEvents attempt cause m1).
    rewrite Hadd, <- app_assoc, launches_app, delays_app, settles_app, Hd, Hl', Hd', Hs',
      Hr, app_nil_r.
    split; [reflexivity | split; [lia |]].
    destruct (maxRetries (service m) <=? attempt)%nat eqn:Hlast; simpl.
    + apply Nat.leb_le in Hlast. repeat split; [exact Hlast | exact Hs |]. now exists cause.
    + apply Nat.leb_gt in Hlast. repeat split; [exact Hlast | exact Hs].
Qed.

Lemma oneSettle_spec waits :
  oneSettle waits -> Forall (fun ms => ms = 3000) waits /\ (length waits <= 1)%nat.
Proof. intros [-> | ->]; split; simpl; try lia; repeat constructor. Qed.

(** The whole loop: [S k] attempts are made; each waits at most once before
    printing, and an attempt that returns has waited. *)
Lemma retryLoop_shape env remaining attempt m :
  maxRetries (service m) = (attempt + remaining)%nat ->
  maxRetries (service (snd (retryLoop remaining attempt env m))) = maxRetries (service m) /\
  maxConcurrentPages (service (snd (retryLoop remaining attempt env m)))
    = maxConcurrentPages (service m) /\
  exists k added,
    events (snd (retryLoop remaining attempt env m)) = events m ++ added /\
    delays added = map backoff (seq (S attempt) k) /\
    (launches added <= remaining)%nat /\
    match fst (retryLoop remaining attempt env m) with
    | Returned (Some _) => (k < remaining)%nat
    | Returned None => remaining = 0%nat /\ k = 0%nat
    | Thrown message =>
        S k = remaining /\
        exists cause, message = exhaustedMessage (maxRetries (service m)) cause
    end /\
    Forall (fun ms => ms = 3000) (settles added) /\
    (length (settles added) <= S k)%nat /\
    match fst (retryLoop remaining attempt env m) with
    | Returned (Some _) => (1 <= length (settles added))%nat
    | _ => True
    end.
Proof.
  revert attempt m. induction remaining as [| remaining IH]; intros attempt m Hmax.
  - unfold retryLoop, ret. simpl. repeat split.
    exists 0%nat, []. rewrite app_nil_r.
    repeat split; unfold launches; simpl; try lia; constructor.
  - rewrite retryLoop_step.
    pose proof (attemptOnce_shape (env (S attempt)) (S attempt) m)
      as (Hr & Hc & added & Hadd & Hl & Hres).
    destruct (attemptOnce (env (S attempt)) (S attempt) m) as [[[pdf |] | message] m1];
      simpl in *.
    + destruct Hres as [Hd Hs].
      split; [exact Hr | split; [exact Hc |]].
      exists 0%nat, added. rewrite Hs.
      repeat split; simpl; auto; try lia; repeat constructor.
    + destruct Hres as (Hlt & Hd & Hs). apply oneSettle_spec in Hs as [Hs3 Hs1].
      destruct (IH (S attempt) m1)
        as (Hr2 & Hc2 & k & added2 & Hadd2 & Hd2 & Hl2 & Hres2 & Hs32 & Hsk & Hone);
        [lia |].
      split; [congruence | split; [congruence |]].
      exists (S k), (added ++ added2).
      rewrite Hadd2, Hadd, <- app_assoc, delays_app, launches_app, settles_app, Hd, Hd2.
      rewrite length_app.
      split; [reflexivity | split; [reflexivity | split; [lia |]]].
      split; [| split; [now apply Forall_app | split; [lia |]]].
      * destruct (fst (retryLoop remaining (S attempt) env m1)) as [[pdf |] | message].
        -- lia.
        -- lia.
        -- destruct Hres2 as [Hk [cause ->]]. split; [lia |]. exists cause. now rewrite Hr.
      * destruct (fst (retryLoop remaining (S attempt) env m1)) as [[pdf |] | message];
          [lia | exact I | exact I].
    + destruct Hres as (Hlast & Hd & Hs & cause & ->).
      apply oneSettle_spec in Hs as [Hs3 Hs1].
      split; [exact Hr | split; [exact Hc |]].
      exists 0%nat, added. repeat split; auto; try lia. now exists cause.
Qed.

Lemma backoff_bounds attempt : (1 <= attempt)%nat -> 1000 <= backoff attempt <= 10000.
Proof.
  intros H. unfold backoff.
  assert (0 < 2 ^ (Z.of_nat attempt - 1)) by (apply Z.pow_pos_nonneg; lia).
  lia.
Qed.

Lemma fetchRates_shape env m :
  service (snd (fetchRates env m))
  = with_exchangeRateCache (exchangeRateCache (service (snd (fetchRates env m)))) (service m) /\
  page (snd (fetchRates env m)) = page m /\
  exists added, events (snd (fetchRates env m)) = events m ++ added /\
    delays added = [] /\ launches added = 0%nat /\ settles added = [].
Proof.
  unfold fetchRates.
  destruct (Rates.getExchangeRates "INR" (now env) (net env) (exchangeRateCache (service m)))
    as [[rates cache] [url |]]; simpl; repeat split; eexists; repeat split.
Qed.

(** A call that passes the gate, from any state of the caller. *)
Lemma generatePurchaseOrderPDF_run env m :
  activePages (service m) < maxConcurrentPages (service m) ->
  generatePurchaseOrderPDF env m =
  retryLoop (maxRetries (service m)) 0 (attemptEnv env)
    (snd (fetchRates env (snd (set_page None m)))).
Proof.
  intros Hfree. destruct m as [s pg ev bl po]. simpl in Hfree.
  lazy beta iota zeta delta [generatePurchaseOrderPDF bind this set_page fetchRates
    service page events browsersLaunched pagesOpened throw fst snd].
  rewrite (proj2 (Z.leb_gt _ _) Hfree).
  destruct (Rates.getExchangeRates "INR" (now env) (net env) (exchangeRateCache s))
    as [[rates cache] request].
  reflexivity.
Qed.

(** X6. A call that passes the gate of a service with at least one attempt
    configured never returns without a value: it returns the PDF or throws
    the terminal error. It makes [k + 1] attempts and sets two kinds of
    timers. The backoff timers run only between attempts, never after the
    last one: they are exactly the delays of the attempts 1 to [k], each
    between 1 and 10 seconds, and a call that throws has made all its
    attempts. Every attempt that gets as far as printing first waits 3000
    ms for the page to settle: there are at most [k + 1] such waits, and at
    least one when the call returns a PDF. The call starts at most one
    browser per attempt. With the 3 attempts of the constructor the backoff
    delays are none, 1000, or 1000 and then 2000 milliseconds. *)
Theorem retry_schedule (env : CallEnv) (s : PDFService)
    (r : Completion (option PDF)) (m' : Machine) :
  activePages s < maxConcurrentPages s ->
  (1 <= maxRetries s)%nat ->
  generatePurchaseOrderPDF env (idle s) = (r, m') ->
  exists k,
    (k < maxRetries s)%nat /\
    delays (events m') = map backoff (seq 1 k) /\
    Forall (fun ms => 1000 <= ms <= 10000) (delays (events m')) /\
    Forall (fun ms => ms = 3000) (settles (events m')) /\
    (length (settles (events m')) <= S k)%nat /\
    (launches (events m') <= maxRetries s)%nat /\
    (maxRetries s = 3%nat ->
       delays (events m') = [] \/ delays (events m') = [1000] \/
       delays (events m') = [1000; 2000]) /\
    match r with
    | Returned (Some _) => (1 <= length (settles (events m')))%nat
    | Returned None => False
    | Thrown message =>
        S k = maxRetries s /\
        exists cause, message = exhaustedMessage (maxRetries s) cause
    end.
Proof.
  intros Hfree Hone Hrun.
  rewrite (generatePurchaseOrderPDF_run env (idle s) Hfree) in Hrun.
  simpl (maxRetries _) in Hrun.
  set (m0 := snd (fetchRates env (snd (set_page None (idle s))))) in *.
  destruct (fetchRates_shape env (snd (set_page None (idle s))))
    as (Hs0 & _ & added0 & Hev0 & Hd0 & Hl0 & Hw0).
  fold m0 in Hs0, Hev0. simpl in Hev0.
  assert (Hr0 : maxRetries (service m0) = maxRetries s) by (rewrite Hs0; reflexivity).
  pose proof (retryLoop_shape (attemptEnv env) (maxRetries s) 0 m0) as Hloop.
  rewrite Hrun in Hloop. simpl in Hloop.
  destruct Hloop as (_ & _ & k & added & Hev & Hd & Hl & Hres & Hw3 & Hwk & Hw1);
    [now rewrite Hr0 |].
  assert (Hdel : delays (events m') = map backoff (seq 1 k)).
  { now rewrite Hev, Hev0, !delays_app, Hd0, Hd. }
  assert (Hset : settles (events m') = settles added).
  { now rewrite Hev, Hev0, !settles_app, Hw0. }
  assert (Hk : (k < maxRetries s)%nat).
  { destruct r as [[pdf |] | message]; [exact Hres | lia | lia]. }
  exists k. rewrite Hset. split; [exact Hk |]. split; [exact Hdel |].
  split; [| split; [exact Hw3 | split; [exact Hwk | split; [| split]]]].
  - rewrite Hdel. apply List.Forall_forall. intros ms Hin.
    apply in_map_iff in Hin as (i & <- & Hi). apply in_seq in Hi.
    apply backoff_bounds. lia.
  - rewrite Hev, Hev0, !launches_app, Hl0. simpl. lia.
  - intros H3. rewrite Hdel. rewrite H3 in Hk.
    destruct k as [| [| [| k]]]; [auto | auto | auto | lia].
  - destruct r as [[pdf |] | message]; [exact Hw1 | lia |].
    destruct Hres as [Hk' [cause ->]]. split; [exact Hk' |].
    exists cause. now rewrite Hr0.
Qed.

Lemma retry_schedule_witness :
  exists k,
    (k < 3)%nat /\
    delays (events (snd (generatePurchaseOrderPDF
       (offline (fun _ => pageDies "Protocol error (Page.printToPDF): Target closed"))
       (idle constructed)))) = map backoff (seq 1 k) /\
    (length (settles (events (snd (generatePurchaseOrderPDF
       (offline (fun _ => pageDies "Protocol error (Page.printToPDF): Target closed"))
       (idle constructed))))) <= S k)%nat /\
    S k = 3%nat.
Proof.
  destruct (retry_schedule
              (offline (fun _ => pageDies "Protocol error (Page.printToPDF): Target closed"))
              constructed
              (Thrown "PDF generation failed after 3 attempts: Protocol error (Page.printToPDF): Target closed")
              (snd (generatePurchaseOrderPDF
                 (offline (fun _ => pageDies "Protocol error (Page.printToPDF): Target closed"))
                 (idle constructed))))
    as (k & Hk & Hd & _ & _ & Hw & _ & _ & Hlast & _);
    [reflexivity | simpl; lia | vm_compute; reflexivity |].
  exists k. auto.
Defined.

(** The trace of that call: every attempt opens a page on a new browser,
    waits 3000 ms, fails to print and discards the browser; the backoff
    timers stand between the attempts. *)
Example retry_schedule_trace :
  events (snd (generatePurchaseOrderPDF
     (offline (fun _ => pageDies "Protocol error (Page.printToPDF): Target closed"))
     (idle constructed)))
  = [RatesRequested "https://api.exchangerate-api.com/v4/latest/INR";
     Launch (Some 0%nat); NewPage 0 (Some 0%nat); Settle 3000; PageClose 0;
     BrowserClose 0; Delay 1000;
     Launch (Some 1%nat); NewPage 1 (Some 1%nat); Settle 3000; PageClose 1;
     BrowserClose 1; Delay 2000;
     Launch (Some 2%nat); NewPage 2 (Some 2%nat); Settle 3000; PageClose 2;
     BrowserClose 2].
Proof. vm_compute. reflexivity. Qed.

(** ** Calls that succeed at the first attempt *)







(** ** [cleanup] *)

(** X8. [cleanup] always returns; afterwards there is no browser handle and
    the slot counter is 0; a handle that was cached has been closed, once; a
    second [cleanup] changes nothing and closes nothing; and the next
    [initBrowser] starts a browser again. *)
Theorem cleanup_resets (m : Machine) :
  fst (cleanup m) = Returned tt /\
  browser (service (snd (cleanup m))) = None /\
  activePages (service (snd (cleanup m))) = 0 /\
  events (snd (cleanup m))
  = events m ++ match browser (service m) with
                | Some b => [BrowserClose (handle b)]
                | None => []
                end /\
  cleanup (snd (cleanup m)) = (Returned tt, snd (cleanup m)) /\
  needsBrowser (service (snd (cleanup m))) = true /\
  (isInitializing (service m) = false ->
   forall e, exists r,
     events (snd (initBrowser e (snd (cleanup m)))) = events (snd (cleanup m)) ++ [Launch r]).
Proof.
  destruct m as [[br ini pr mx ap bd mr xc] pg ev bl po].
  unfold cleanup, closeBrowser, bind, this, update, emit, ret.
  destruct br as [b |]; simpl; rewrite ?app_nil_r;
    (split; [reflexivity |]); (split; [reflexivity |]); (split; [reflexivity |]);
    (split; [reflexivity |]); (split; [reflexivity |]); (split; [reflexivity |]);
    intros Hi e; apply initBrowser_launches; solve [exact Hi | reflexivity].
Qed.

(** ** A launch that fails *)

(** X9. A launch that fails does not wedge the service: [initBrowser]
    throws what [_createBrowser] threw, and leaves the service not
    initializing and marked disconnected, without a new handle; the next
    [initBrowser] therefore starts a launch of its own. *)
Theorem failed_launch_is_not_sticky (e : AttemptEnv) (m : Machine) (message : string) :
  isInitializing (service m) = false ->
  needsBrowser (service m) = true ->
  launch e = LaunchFails message ->
  fst (initBrowser e m) = Thrown message /\
  isInitializing (service (snd (initBrowser e m))) = false /\
  browserDisconnected (service (snd (initBrowser e m))) = true /\
  browser (service (snd (initBrowser e m))) = browser (service m) /\
  activePages (service (snd (initBrowser e m))) = activePages (service m) /\
  forall e2, exists r,
    events (snd (initBrowser e2 (snd (initBrowser e m))))
    = events m ++ [Launch None; Launch r].
Proof.
  intros Hidle Hneeds Hlaunch.
  rewrite (initBrowser_launch_failed e m message Hidle Hneeds Hlaunch). simpl.
  repeat split.
  intros e2.
  match goal with |- context [initBrowser e2 ?m1] =>
    destruct (initBrowser_launches e2 m1) as [r Hr]; [reflexivity | | exists r]
  end.
  - unfold needsBrowser. simpl. apply orb_true_r.
  - rewrite Hr. simpl. now rewrite <- app_assoc.
Qed.

Lemma failed_launch_is_not_sticky_witness :
  fst (initBrowser (cannotLaunch "spawn ENOENT") (idle constructed)) = Thrown "spawn ENOENT" /\
  isInitializing (service (snd (initBrowser (cannotLaunch "spawn ENOENT") (idle constructed))))
  = false.
Proof.
  destruct (failed_launch_is_not_sticky (cannotLaunch "spawn ENOENT") (idle constructed)
              "spawn ENOENT" eq_refl eq_refl eq_refl) as (H1 & H2 & _).
  split; [exact H1 | exact H2].
Defined.

(** ** A call that is alone and fails in every attempt *)

(** X10. When no other call is on the service (the counter is 0 and no
    initialization is in flight) and a call fails in all of its attempts,
    the counter is 0 again, the error is the terminal one around the cause
    of the last attempt, and a page that the last attempt opened has been
    closed after it. *)
Theorem exhausted_call_when_alone
    (env : CallEnv) (s : PDFService) (message : string) (m' : Machine) :
  isInitializing s = false ->
  activePages s = 0 ->
  0 < maxConcurrentPages s ->
  generatePurchaseOrderPDF env (idle s) = (Thrown message, m') ->
  activePages (service m') = 0 /\
  exists m0 cause m1 added,
    tryBlock (attemptEnv env (maxRetries s)) m0 = (Thrown cause, m1) /\
    message = exhaustedMessage (maxRetries s) cause /\
    events m1 = events m0 ++ added /\
    forall b p, In (NewPage b (Some p)) added ->
      exists closing, events m' = events m1 ++ PageClose p :: closing.
Proof.
  intros Hidle Hzero Hlimit Hcall.
  destruct (exhausted_call_alone env s message m' Hidle Hzero Hlimit Hcall) as [Hap Hrest].
  split; [congruence | exact Hrest].
Qed.

Lemma exhausted_call_when_alone_witness :
  activePages (service (snd (generatePurchaseOrderPDF
     (offline (fun _ => contentFails "Navigation timeout of 90000 ms exceeded"))
     (idle constructed)))) = 0.
Proof.
  exact (proj1 (exhausted_call_when_alone
           (offline (fun _ => contentFails "Navigation timeout of 90000 ms exceeded"))
           constructed
           "PDF generation failed after 3 attempts: Navigation timeout of 90000 ms exceeded"
           (snd (generatePurchaseOrderPDF
                   (offline (fun _ => contentFails "Navigation timeout of 90000 ms exceeded"))
                   (idle constructed)))
           eq_refl eq_refl ltac:(simpl; lia) ltac:(vm_compute; reflexivity))).
Defined.

End RenderMore.


(* ===================================================================== *)
(** * Further properties of interleaved calls *)
(* ===================================================================== *)

Module AsyncMore.
Import Async Burst AsyncFacts.

Lemma run_app ls ls' w :
  run (ls ++ ls') w = match run ls w with Some w' => run ls' w' | None => None end.
Proof.
  revert w. induction ls as [| l ls IH]; intros w; simpl; [reflexivity |].
  destruct (step l w); [apply IH | reflexivity].
Qed.

Lemma with_tasks_same w : with_tasks (tasks w) w = w.
Proof. now destruct w. Qed.

(** Calls that arrive while the counter is below the limit all pass. *)
Lemma run_calls n w :
  activePages (service w) < maxConcurrentPages ->
  run (repeat Call n) w = Some (with_tasks (tasks w ++ repeat AwaitingRates n) w).
Proof.
  intros Hfree. revert w Hfree. induction n as [| n IH]; intros w Hfree.
  - simpl. now rewrite app_nil_r, with_tasks_same.
  - simpl. rewrite (proj2 (Z.leb_gt _ _) Hfree).
    rewrite IH by exact Hfree. simpl. now rewrite <- app_assoc.
Qed.

Lemma lookup_middle {A} (pre : list A) x post : (pre ++ x :: post) !! length pre = Some x.
Proof. induction pre; simpl; auto. Qed.

Lemma insert_middle {A} (pre : list A) x y post :
  <[length pre := y]> (pre ++ x :: post) = pre ++ y :: post.
Proof. induction pre; simpl; [reflexivity | now f_equal]. Qed.

(** Requests that reach [initBrowser] while a launch is in flight take the
    stored promise. *)
Lemma run_sharers k pre w p :
  isInitializing (service w) = true ->
  initPromise (service w) = Some p ->
  tasks w = pre ++ repeat AwaitingRates k ->
  run (map resumes (seq (length pre) k)) w
  = Some (with_tasks (pre ++ repeat (AwaitingSharedLaunch 1 None p) k) w).
Proof.
  intros Hi Hp. revert pre w Hi Hp. induction k as [| k IH]; intros pre w Hi Hp Hts.
  - simpl in *. now rewrite <- Hts, with_tasks_same.
  - simpl in Hts. simpl run. rewrite Hts, lookup_middle.
    unfold resume, startAttempt. rewrite Hi, Hp.
    change (0 <? maxRetries)%nat with true. cbv iota beta.
    rewrite Hts, insert_middle.
    replace (S (length pre)) with (length (pre ++ [AwaitingSharedLaunch 1 None p]))
      by (rewrite length_app; simpl; lia).
    rewrite (IH (pre ++ [AwaitingSharedLaunch 1 None p])).
    + simpl. now rewrite <- app_assoc.
    + exact Hi.
    + exact Hp.
    + simpl. now rewrite <- app_assoc.
Qed.

(** Requests whose shared launch has resolved with a connected browser each
    take a slot. *)
Lemma run_sharers_enter k pre w p b :
  promises w !! p = Some (Fulfilled b) ->
  isConnected w b = true ->
  tasks w = pre ++ repeat (AwaitingSharedLaunch 1 None p) k ->
  run (map resumes (seq (length pre) k)) w
  = Some (with_tasks (pre ++ repeat (AwaitingNewPage 1 None b) k)
            (with_service
               (set_activePages (activePages (service w) + Z.of_nat k) (service w)) w)).
Proof.
  revert pre w. induction k as [| k IH]; intros pre w Hp Hc Hts.
  - simpl in *. rewrite <- Hts. destruct w as [[br ini pr ap bd] ps cn ls bs pgs ts].
    simpl. unfold with_tasks, with_service, set_activePages. simpl.
    now rewrite Z.add_0_r.
  - simpl in Hts. simpl run. rewrite Hts, lookup_middle.
    unfold resume. rewrite Hp. unfold afterInitBrowser. rewrite Hc.
    cbv iota beta. simpl tasks. rewrite Hts, insert_middle.
    replace (S (length pre)) with (length (pre ++ [AwaitingNewPage 1 None b]))
      by (rewrite length_app; simpl; lia).
    rewrite (IH (pre ++ [AwaitingNewPage 1 None b])).
    + destruct w as [[br ini pr ap bd] ps cn ls bs pgs ts].
      unfold with_tasks, with_service, set_activePages. simpl.
      rewrite <- app_assoc. simpl. do 3 f_equal. lia.
    + exact Hp.
    + exact Hc.
    + simpl. now rewrite <- app_assoc.
Qed.

Lemma run_burst n :
  run (burst n) initial
  = Some {| service := {| browser := Some 0%nat; isInitializing := false;
                          initPromise := Some 0%nat;
                          activePages := Z.of_nat (S n);
                          browserDisconnected := false |};
            promises := [Fulfilled 0]; connected := [0%nat]; listening := [0%nat];
            browsers := 1; pages := 0;
            tasks := repeat (AwaitingNewPage 1 None 0) (S n) |}.
Proof.
  unfold burst. rewrite run_app, run_calls by (simpl; unfold maxConcurrentPages; lia).
  rewrite run_app. simpl (run [resumes 0] _). cbv beta iota.
  rewrite run_app.
  match goal with |- context [run (map resumes (seq 1 n)) ?w] => set (w2 := w) end.
  pose proof (run_sharers n [AwaitingOwnLaunch 1 None 0] w2 0%nat eq_refl eq_refl eq_refl)
    as Hshare.
  change (length [AwaitingOwnLaunch 1 None 0]) with 1%nat in Hshare.
  rewrite Hshare. clear Hshare.
  rewrite run_app. simpl (run [_; _; _] _). cbv beta iota.
  match goal with |- context [run (map resumes (seq 1 n)) ?w] => set (w5 := w) end.
  pose proof (run_sharers_enter n [AwaitingNewPage 1 None 0] w5 0%nat 0%nat
                eq_refl eq_refl eq_refl) as Henter.
  change (length [AwaitingNewPage 1 None 0]) with 1%nat in Henter.
  rewrite Henter. clear Henter.
  subst w5 w2. unfold with_tasks, with_service, set_activePages. simpl.
  do 3 f_equal. lia.
Qed.

Lemma filter_holdsSlot_repeat n :
  List.filter holdsSlot (repeat (AwaitingNewPage 1 None 0) n)
  = repeat (AwaitingNewPage 1 None 0) n.
Proof. induction n as [| n IH]; simpl; [reflexivity | now rewrite IH]. Qed.

(** X11. The gate reads the counter when a call arrives, and the counter is
    raised only after the call has waited for the rates and for the browser.
    So however many calls arrive before the first of them goes on, all of
    them pass the gate; they share a single launch, and when the browser is
    up each of them takes a slot: [n + 1] calls hold a slot at the same
    time and the counter stands at [n + 1], however far that is above the
    limit of 2 pages. *)
Theorem burst_of_calls_all_hold_slots (n : nat) :
  exists w,
    run (burst n) initial = Some w /\
    tasks w = repeat (AwaitingNewPage 1 None 0) (S n) /\
    length (List.filter holdsSlot (tasks w)) = S n /\
    activePages (service w) = Z.of_nat (S n) /\
    promises w = [Fulfilled 0] /\
    connected w = [0%nat].
Proof.
  eexists. split; [apply run_burst |].
  cbn [tasks service activePages promises connected].
  rewrite filter_holdsSlot_repeat, repeat_length. repeat split.
Qed.



End AsyncMore.

(* ===================================================================== *)
(** * Properties of the document numbers *)
(* ===================================================================== *)

Module NumberingFacts.
Import Numbering.

Local Open Scope string_scope.

(** Reading a string of digits back, leading zeros included. *)
Definition readBack (s : string) : option N :=
  option_map N.of_uint (NilEmpty.uint_of_string s).

Lemma readBack_show_N n : readBack (show_N n) = Some n.
Proof.
  unfold readBack, show_N, NilZero.string_of_uint.
  pose proof (DecimalN.Unsigned.of_to n) as Hn.
  destruct (N.to_uint n) as [| u | u | u | u | u | u | u | u | u | u];
    [simpl in *; now rewrite <- Hn | ..];
    match goal with
    | |- option_map _ (NilEmpty.uint_of_string ?t) = _ =>
        change t with (NilEmpty.string_of_uint
                         ltac:(match type of Hn with N.of_uint ?d = _ => exact d end))
    end;
    rewrite NilEmpty.usu; cbn [option_map]; f_equal; exact Hn.
Qed.

Lemma readBack_zero s : readBack (String "0" s) = readBack s.
Proof.
  unfold readBack. simpl. destruct (NilEmpty.uint_of_string s); reflexivity.
Qed.

Lemma append_cons c a b : String c a ++ b = String c (a ++ b).
Proof. reflexivity. Qed.

Lemma readBack_padStart k n : readBack (padStart k "0" (show_N n)) = Some n.
Proof.
  unfold padStart. induction (k - String.length (show_N n))%nat as [| j IH].
  - apply readBack_show_N.
  - cbn [repeat string_of_list_ascii]. now rewrite append_cons, readBack_zero.
Qed.

Lemma padStart_inj k a b :
  padStart k "0" (show_N a) = padStart k "0" (show_N b) -> a = b.
Proof.
  intros H. pose proof (readBack_padStart k a) as Ha.
  rewrite H, readBack_padStart in Ha. now injection Ha.
Qed.

Lemma append_cancel p x y : p ++ x = p ++ y -> x = y.
Proof.
  induction p as [| c p IH]; [auto |].
  rewrite !append_cons. intros [= H]. auto.
Qed.

Lemma length_append a b : String.length (a ++ b) = (String.length a + String.length b)%nat.
Proof.
  induction a as [| c a IH]; [reflexivity |].
  rewrite append_cons. simpl. now rewrite IH.
Qed.

Lemma length_zeros j :
  String.length (string_of_list_ascii (repeat "0"%char j)) = j.
Proof. induction j as [| j IH]; simpl; [reflexivity | now rewrite IH]. Qed.

Lemma length_padStart k fill s :
  String.length (padStart k fill s) = Nat.max k (String.length s).
Proof.
  unfold padStart. rewrite length_append.
  assert (H : forall j, String.length (string_of_list_ascii (repeat fill j)) = j).
  { induction j as [| j IH]; simpl; [reflexivity | now rewrite IH]. }
  rewrite H. lia.
Qed.

Lemma below_1000 n : (n < 1000)%N -> In n (map N.of_nat (seq 0 1000)).
Proof.
  intros H. apply in_map_iff. exists (N.to_nat n). split; [apply N2Nat.id |].
  apply in_seq. lia.
Qed.

Lemma show_N_short n : (n < 1000)%N -> (String.length (show_N n) <= 3)%nat.
Proof.
  intros H. apply below_1000 in H.
  assert (Hall : forallb (fun n => (String.length (show_N n) <=? 3)%nat)
                   (map N.of_nat (seq 0 1000)) = true) by (vm_compute; reflexivity).
  rewrite forallb_forall in Hall. apply Nat.leb_le. now apply Hall.
Qed.

Lemma formatPONo_shape env seq :
  formatPONo env seq
  = envOr (COMPANY_PREFIX env) "INGPO" ++ "/" ++ envOr (YEAR_RANGE env) "25-26" ++ "/"
    ++ padStart 3 "0" (show_N seq).
Proof. reflexivity. Qed.

(** X13. [formatPONo] gives different sequence numbers different document
    numbers, whatever the environment variables hold; the sequence part is
    padded with zeros to three characters and never cut, so all numbers
    below 1000 give document numbers of one length. Without environment
    variables the number 7 gives INGPO/25-26/007 and 1234 gives
    INGPO/25-26/1234. *)
Theorem formatPONo_numbers (env : Env) :
  (forall a b, (a <= maxSafe)%N -> (b <= maxSafe)%N ->
     formatPONo env a = formatPONo env b -> a = b) /\
  (forall seq, (seq < 1000)%N ->
     String.length (padStart 3 "0" (show_N seq)) = 3%nat /\
     String.length (formatPONo env seq) = String.length (formatPONo env 0)) /\
  (forall seq, (3 <= String.length (padStart 3 "0" (show_N seq)))%nat) /\
  formatPONo unset 7 = "INGPO/25-26/007" /\
  formatPONo unset 1234 = "INGPO/25-26/1234".
Proof.
  split; [| split; [| split; [| split; reflexivity]]].
  - intros a b _ _ H. rewrite !formatPONo_shape in H.
    do 4 apply append_cancel in H. now apply padStart_inj in H.
  - intros seq Hseq. pose proof (show_N_short seq Hseq) as Hshort.
    assert (Hpad : String.length (padStart 3 "0" (show_N seq)) = 3%nat)
      by (rewrite length_padStart; lia).
    split; [exact Hpad |].
    rewrite !formatPONo_shape, !length_append, Hpad. reflexivity.
  - intros seq. rewrite length_padStart. lia.
Qed.

Lemma formatBillNo_shape inheritedText env year type seq :
  formatBillNo inheritedText env year type seq
  = prefixFor inheritedText env type ++ "/" ++ yearRange year ++ "/"
    ++ padStart 3 "0" (show_N seq).
Proof. reflexivity. Qed.

(** X14. [formatBillNo]: in one year and for one document type, different
    sequence numbers give different bill numbers, whatever prefixes the
    environment sets. With the built-in prefixes INGPO, INGPI and INGINV,
    bills of different document types never share a number either, even
    when their sequence numbers are equal. *)
Theorem bill_numbers_are_distinct
    (inheritedText : string -> option string) (year : N) :
  (forall env type a b,
     (a <= maxSafe)%N -> (b <= maxSafe)%N ->
     formatBillNo inheritedText env year type a
     = formatBillNo inheritedText env year type b -> a = b) /\
  (forall t1 t2 a b,
     (a <= maxSafe)%N -> (b <= maxSafe)%N ->
     In t1 documentTypes -> In t2 documentTypes ->
     formatBillNo inheritedText unset year t1 a
     = formatBillNo inheritedText unset year t2 b ->
     t1 = t2 /\ a = b).
Proof.
  split.
  - intros env type a b _ _ H. rewrite !formatBillNo_shape in H.
    do 4 apply append_cancel in H. now apply padStart_inj in H.
  - intros t1 t2 a b _ _ H1 H2 H. rewrite !formatBillNo_shape in H.
    assert (Hsame : forall t, formatBillNo inheritedText unset year t a
                            = formatBillNo inheritedText unset year t b -> a = b).
    { intros t Ht. rewrite !formatBillNo_shape in Ht.
      do 4 apply append_cancel in Ht. now apply padStart_inj in Ht. }
    simpl in H1, H2.
    destruct H1 as [<- | [<- | [<- | []]]], H2 as [<- | [<- | [<- | []]]];
      try (split; [reflexivity | now apply (Hsame _ H)]);
      exfalso;
      match type of H with
      | prefixFor _ _ ?t ++ _ = prefixFor _ _ ?u ++ _ =>
          let p := eval vm_compute in (prefixFor inheritedText unset t) in
          let q := eval vm_compute in (prefixFor inheritedText unset u) in
          change (prefixFor inheritedText unset t) with p in H;
          change (prefixFor inheritedText unset u) with q in H
      end;
      rewrite !append_cons in H; discriminate H.
Qed.

Example yearRange_wraps :
  yearRange 2025 = "25-26" /\ yearRange 2099 = "99-0" /\ yearRange 2009 = "9-10".
Proof. repeat split; reflexivity. Qed.

End NumberingFacts.

(* ===================================================================== *)
(** * Properties of the request's document type and currency *)
(* ===================================================================== *)

Module BillRequestFacts.
Import Terms BillRequest CurrencyList.

Lemma lookupOwn_typeMap t type :
  lookupOwn typeMap t = Some type -> In type canonicalTypes.
Proof.
  unfold typeMap. cbn [lookupOwn].
  repeat (case_bool_decide; [intros [= <-]; simpl; auto |]).
  discriminate.
Qed.

Section NormalizeBillType.
Variable toLowerCase : ustring -> ustring.
Hypothesis lower_case_stays : forall t, In t canonicalTypes -> toLowerCase t = t.

Definition classify (t : ustring) : BillType :=
  match lookupOwn typeMap t with
  | Some type => Canonical type
  | None =>
      if bool_decide (t ∈ map js JsObject.prototypeKeys) then Inherited t
      else if bool_decide (t ∈ canonicalTypes) then Canonical t
      else Canonical (js "purchase_order")
  end.

Lemma normalizeBillType_string raw :
  raw <> [] ->
  normalizeBillType toLowerCase (Some raw) = classify (trim (toLowerCase raw)).
Proof. destruct raw; [congruence | reflexivity]. Qed.

Lemma canonical_fixed t :
  In t canonicalTypes -> normalizeBillType toLowerCase (Some t) = Canonical t.
Proof.
  intros Hin. pose proof (lower_case_stays t Hin) as Hlow.
  simpl in Hin. destruct Hin as [<- | [<- | [<- | []]]];
    (rewrite normalizeBillType_string by discriminate); rewrite Hlow; reflexivity.
Qed.

Lemma canonical_own t : In t canonicalTypes -> lookupOwn typeMap t = Some t.
Proof.
  intros Hin. simpl in Hin. destruct Hin as [<- | [<- | [<- | []]]]; reflexivity.
Qed.

(** X15. [normalizeBillType] returns one of the three document types for
    every argument, with one exception: when the lower-cased, trimmed
    argument is a name that object literals inherit from Object.prototype
    (constructor, __proto__), the inherited value comes back instead of a
    string. A returned type is a value the schema of the bill allows, and
    normalizing it again gives the same type. An argument that is not a
    string, the empty string and every name that is neither in the table
    nor inherited give purchase_order. *)
Theorem normalizeBillType_result (rawType : option ustring) :
  match normalizeBillType toLowerCase rawType with
  | Canonical type =>
      In type canonicalTypes /\
      In type (map js BillSchema.typeEnum) /\
      normalizeBillType toLowerCase (Some type) = Canonical type
  | Inherited key =>
      In key (map js JsObject.prototypeKeys) /\
      exists raw, rawType = Some raw /\ key = trim (toLowerCase raw)
  end /\
  normalizeBillType toLowerCase None = Canonical (js "purchase_order") /\
  normalizeBillType toLowerCase (Some []) = Canonical (js "purchase_order") /\
  (forall raw,
     lookupOwn typeMap (trim (toLowerCase raw)) = None ->
     ~ In (trim (toLowerCase raw)) (map js JsObject.prototypeKeys) ->
     normalizeBillType toLowerCase (Some raw) = Canonical (js "purchase_order")).
Proof.
  assert (Hpo : In (js "purchase_order") canonicalTypes) by (simpl; auto).
  assert (Hok : forall type, In type canonicalTypes ->
            In type canonicalTypes /\ In type (map js BillSchema.typeEnum) /\
            normalizeBillType toLowerCase (Some type) = Canonical type).
  { intros type Hin. split; [exact Hin |]. split; [exact Hin | now apply canonical_fixed]. }
  split; [| split; [reflexivity | split; [reflexivity |]]].
  - destruct rawType as [[| c raw] |]; cbn [normalizeBillType]; try (now apply Hok).
    cbv zeta.
    destruct (lookupOwn typeMap (trim (toLowerCase (c :: raw)))) as [type |] eqn:Hown.
    + apply lookupOwn_typeMap in Hown. now apply Hok.
    + case_bool_decide as Hproto.
      * split; [now rewrite <- list_elem_of_In | eauto].
      * case_bool_decide as Hcanon.
        -- rewrite list_elem_of_In in Hcanon. now apply Hok.
        -- now apply Hok.
  - intros raw Hown Hproto. destruct raw as [| c raw]; [reflexivity |].
    rewrite normalizeBillType_string by discriminate. unfold classify. rewrite Hown.
    rewrite <- list_elem_of_In in Hproto. rewrite bool_decide_eq_false_2 by exact Hproto.
    case_bool_decide as Hcanon; [| reflexivity].
    rewrite list_elem_of_In in Hcanon. apply canonical_own in Hcanon. congruence.
Qed.

End NormalizeBillType.

Lemma normalizeBillType_result_witness :
  normalizeBillType lower_ascii (Some (js "  Proforma-Invoice ")) = Canonical (js "proforma_invoice") /\
  normalizeBillType lower_ascii (Some (js "proforma_invoice")) = Canonical (js "proforma_invoice").
Proof.
  assert (Hlower : forall t, In t canonicalTypes -> lower_ascii t = t).
  { intros t Hin. simpl in Hin. destruct Hin as [<- | [<- | [<- | []]]]; reflexivity. }
  pose proof (proj1 (normalizeBillType_result lower_ascii Hlower
                       (Some (js "  Proforma-Invoice "))))
    as Hres.
  split; [reflexivity |].
  change (normalizeBillType lower_ascii (Some (js "  Proforma-Invoice ")))
    with (Canonical (js "proforma_invoice")) in Hres.
  exact (proj2 (proj2 Hres)).
Defined.

Example normalizeBillType_examples :
  normalizeBillType lower_ascii None = Canonical (js "purchase_order") /\
  normalizeBillType lower_ascii (Some (js " PO ")) = Canonical (js "purchase_order") /\
  normalizeBillType lower_ascii (Some (js "INV")) = Canonical (js "invoice") /\
  normalizeBillType lower_ascii (Some (js "quotation")) = Canonical (js "purchase_order") /\
  normalizeBillType lower_ascii (Some (js "Constructor")) = Inherited (js "constructor").
Proof. repeat split; reflexivity. Qed.

(** ** The currency tables *)

Lemma isSupportedCurrency_spec code :
  isSupportedCurrency code = true <-> In code supportedCurrencies.
Proof.
  unfold isSupportedCurrency, JsString.array_includes.
  change (map fst getSupportedCurrencies) with supportedCurrencies.
  rewrite existsb_exists. split.
  - intros (x & Hin & Heq). apply String.eqb_eq in Heq. now subst.
  - intros Hin. exists code. split; [exact Hin | apply String.eqb_refl].
Qed.

Lemma configured_spec code :
  is_Some (Currency.currencies !! code) <-> In code supportedCurrencies.
Proof.
  rewrite <- elem_of_dom. unfold Currency.currencies.
  rewrite dom_list_to_map_L, elem_of_list_to_set, list_elem_of_In. reflexivity.
Qed.

Lemma symbol_spec code :
  is_Some (Currency.Utils.currencySymbols !! code) <-> In code supportedCurrencies.
Proof.
  rewrite <- elem_of_dom. unfold Currency.Utils.currencySymbols.
  rewrite dom_list_to_map_L, elem_of_list_to_set, list_elem_of_In.
  simpl. tauto.
Qed.

Ltac each_currency H :=
  simpl in H;
  repeat (destruct H as [H | H]; [try subst |]); [.. | destruct H].

(** X16. The five currency lists of the repository agree. A code is in the
    list [createBill] validates against exactly when [isSupportedCurrency]
    of [utils/currency.js] accepts it, exactly when the PDF service has a
    configuration for it, exactly when [utils/currency.js] has a symbol for
    it, and exactly when the schema of the bill allows it; the names of
    [getSupportedCurrencies] are the names of the service's configurations;
    and the two symbol tables give every code the same symbol except CHF,
    which is Fr in the service and CHF in the utilities. *)
Theorem currency_tables_agree (code : string) :
  (In code supportedCurrencies <-> isSupportedCurrency code = true) /\
  (In code supportedCurrencies <-> is_Some (Currency.currencies !! code)) /\
  (In code supportedCurrencies <-> is_Some (Currency.Utils.currencySymbols !! code)) /\
  (In code supportedCurrencies <-> In code BillSchema.currencyEnum) /\
  (forall name,
     In (code, name) getSupportedCurrencies <->
     Currency.name <$> Currency.currencies !! code = Some name) /\
  (code <> "CHF"%string ->
   Currency.symbol <$> Currency.currencies !! code
   = Currency.Utils.currencySymbols !! code) /\
  Currency.symbol <$> Currency.currencies !! "CHF"%string = Some "Fr"%string /\
  Currency.Utils.currencySymbols !! "CHF"%string = Some "CHF"%string.
Proof.
  split; [symmetry; apply isSupportedCurrency_spec |].
  split; [symmetry; apply configured_spec |].
  split; [symmetry; apply symbol_spec |].
  split; [reflexivity |].
  split; [| split; [| split; reflexivity]].
  - intros name. split.
    + intros Hin. each_currency Hin; injection Hin as <- <-; reflexivity.
    + intros Hname.
      assert (Hin : In code supportedCurrencies).
      { apply configured_spec. destruct (Currency.currencies !! code); [eauto | discriminate]. }
      each_currency Hin; vm_compute in Hname; injection Hname as <-; simpl; auto 20.
  - intros Hne.
    destruct (in_dec string_dec code supportedCurrencies) as [Hin | Hout].
    + each_currency Hin; solve [reflexivity | congruence].
    + assert (H1 : Currency.currencies !! code = None).
      { destruct (Currency.currencies !! code) eqn:H; [| reflexivity].
        exfalso. apply Hout, configured_spec. eauto. }
      assert (H2 : Currency.Utils.currencySymbols !! code = None).
      { destruct (Currency.Utils.currencySymbols !! code) eqn:H; [| reflexivity].
        exfalso. apply Hout, symbol_spec. eauto. }
      now rewrite H1, H2.
Qed.



Example chooseCurrency_examples :
  chooseCurrency (Some "EUR"%string) = "EUR"%string /\
  chooseCurrency (Some "eur"%string) = "INR"%string /\
  chooseCurrency (Some "KRW"%string) = "INR"%string /\
  chooseCurrency None = "INR"%string.
Proof. repeat split; reflexivity. Qed.

End BillRequestFacts.

(* ===================================================================== *)
(** * Properties of [retryWithExponentialBackoff] and of the PDF step *)
(* ===================================================================== *)

Module RetryFacts.
Import Retry.

Local Open Scope Qc_scope.





Section Generic.
Context {State Value : Type}.
Variable fn : nat -> State -> Completion Value * State.
Variable jitter : nat -> Qc -> Qc.
Variable sleep : Qc -> State -> State.
Variable maxAttempts : nat.
Variable baseDelayMs : Qc.

Local Abbreviation delay := (delayMs jitter baseDelayMs).
Local Abbreviation run := (execute fn jitter sleep maxAttempts baseDelayMs).






End Generic.

End RetryFacts.

Module PdfStepFacts.
Import Render Lifecycle RenderFacts RenderMore Retry.

Local Arguments retryLoop : simpl never.

(** One call of the service, from any state of the caller. *)
Lemma call_shape env m :
  (1 <= maxRetries (service m))%nat ->
  maxRetries (service (snd (generatePurchaseOrderPDF env m))) = maxRetries (service m) /\
  exists added,
    events (snd (generatePurchaseOrderPDF env m)) = events m ++ added /\
    (launches added <= maxRetries (service m))%nat /\
    match fst (generatePurchaseOrderPDF env m) with
    | Returned (Some _) => True
    | Returned None => False
    | Thrown message =>
        (message = concurrencyMessage (service m) /\
         maxConcurrentPages (service m) <= activePages (service m) /\
         snd (generatePurchaseOrderPDF env m) = m) \/
        exists cause, message = exhaustedMessage (maxRetries (service m)) cause
    end.
Proof.
  intros Hone.
  destruct (Z_le_gt_dec (maxConcurrentPages (service m)) (activePages (service m)))
    as [Hfull | Hfree].
  - rewrite (gate_rejects env m Hfull). simpl. split; [reflexivity |].
    exists []. rewrite app_nil_r. split; [reflexivity |]. split; [unfold launches; simpl; lia |].
    left. auto.
  - rewrite (generatePurchaseOrderPDF_run env m) by lia.
    destruct (fetchRates_shape env (snd (set_page None m)))
      as (Hs0 & _ & added0 & Hev0 & Hd0 & Hl0 & _).
    set (m0 := snd (fetchRates env (snd (set_page None m)))) in *.
    simpl in Hev0.
    assert (Hr0 : maxRetries (service m0) = maxRetries (service m))
      by (rewrite Hs0; reflexivity).
    destruct (retryLoop_shape (attemptEnv env) (maxRetries (service m)) 0 m0)
      as (Hr & _ & k & added & Hev & _ & Hl & Hres & _); [now rewrite Hr0 |].
    split; [congruence |].
    exists (added0 ++ added). rewrite Hev, Hev0, <- app_assoc, launches_app, Hl0.
    split; [reflexivity |]. split; [lia |].
    destruct (fst (retryLoop (maxRetries (service m)) 0 (attemptEnv env) m0))
      as [[pdf |] | message]; [exact I | lia |].
    right. destruct Hres as [_ [cause ->]]. exists cause. now rewrite Hr0.
Qed.

Lemma failedMessage_3 message :
  failedMessage 3 message = ("Operation failed after 3 attempts: " ++ message)%string.
Proof. reflexivity. Qed.

Lemma exhaustedMessage_3 cause :
  exhaustedMessage 3 cause = ("PDF generation failed after 3 attempts: " ++ cause)%string.
Proof. reflexivity. Qed.

(** When the counter of the service is at its limit and stays there, each of
    the three calls is turned away at the gate. *)
Lemma pdfStep_at_the_limit envs jitter m :
  maxConcurrentPages (service m) <= activePages (service m) ->
  pdfStep envs jitter m
  = (inr {| status := 500; error := "Failed to generate PDF";
            details := ("Operation failed after 3 attempts: "
                          ++ concurrencyMessage (service m))%string |},
     m,
     [Attempt 1 3; Retrying (delayMs jitter (num 1000) 1);
      Attempt 2 3; Retrying (delayMs jitter (num 1000) 2);
      Attempt 3 3]).
Proof.
  intros Hfull. unfold pdfStep, retryWithExponentialBackoff. cbn [Nat.sub execute].
  rewrite !(gate_rejects _ m Hfull). reflexivity.
Qed.

(** X19. The PDF step of [createBill], for a request that is alone on the
    service: the service is called at most three times, each call makes at
    most three attempts, so at most nine browsers are started. The step
    either has a PDF or answers 500, Failed to generate PDF; it answers 500
    only after three calls, separated by two delays, and the details then
    read Operation failed after 3 attempts, followed by what the last call
    threw: the concurrency message of the gate, or PDF generation failed
    after 3 attempts with the last cause. A call turned away at the gate is
    retried like any other failure: when the counter is at its limit for
    the whole time, the answer is 500 with the concurrency message, after
    both delays, and the service has not been touched. *)
Theorem pdf_step_outcome (envs : nat -> CallEnv) (jitter : nat -> Qc -> Qc)
    (s : PDFService) :
  maxRetries s = 3%nat ->
  (length (attempts (snd (pdfStep envs jitter (idle s)))) <= 3)%nat /\
  (launches (events (snd (fst (pdfStep envs jitter (idle s))))) <= 9)%nat /\
  match fst (fst (pdfStep envs jitter (idle s))) with
  | inl pdf => True
  | inr response =>
      status response = 500 /\
      error response = "Failed to generate PDF"%string /\
      attempts (snd (pdfStep envs jitter (idle s))) = [1; 2; 3]%nat /\
      length (sleeps (snd (pdfStep envs jitter (idle s)))) = 2%nat /\
      exists inner,
        details response = ("Operation failed after 3 attempts: " ++ inner)%string /\
        (inner = concurrencyMessage (service (snd (fst (pdfStep envs jitter (idle s))))) \/
         exists cause,
           inner = ("PDF generation failed after 3 attempts: " ++ cause)%string)
  end /\
  (maxConcurrentPages s <= activePages s ->
   fst (pdfStep envs jitter (idle s))
   = (inr {| status := 500; error := "Failed to generate PDF";
             details := ("Operation failed after 3 attempts: "
                           ++ concurrencyMessage s)%string |},
      idle s)).
Proof.
  intros H3.
  assert (Hlast : forall A (x : A + Response) m log,
            (length (attempts log) <= 3)%nat -> (launches (events m) <= 9)%nat ->
            match x with
            | inl _ => True
            | inr response =>
                status response = 500 /\
                error response = "Failed to generate PDF"%string /\
                attempts log = [1; 2; 3]%nat /\
                length (sleeps log) = 2%nat /\
                exists inner,
                  details response = ("Operation failed after 3 attempts: " ++ inner)%string /\
                  (inner = concurrencyMessage (service m) \/
                   exists cause,
                     inner = ("PDF generation failed after 3 attempts: " ++ cause)%string)
            end ->
            (length (attempts (snd (x, m, log))) <= 3)%nat /\
            (launches (events (snd (fst (x, m, log)))) <= 9)%nat /\
            match fst (fst (x, m, log)) with
            | inl _ => True
            | inr response =>
                status response = 500 /\
                error response = "Failed to generate PDF"%string /\
                attempts (snd (x, m, log)) = [1; 2; 3]%nat /\
                length (sleeps (snd (x, m, log))) = 2%nat /\
                exists inner,
                  details response = ("Operation failed after 3 attempts: " ++ inner)%string /\
                  (inner = concurrencyMessage (service (snd (fst (x, m, log)))) \/
                   exists cause,
                     inner = ("PDF generation failed after 3 attempts: " ++ cause)%string)
            end) by (intros; simpl; auto).
  match goal with
  | |- ?A /\ ?B /\ ?C /\ ?D =>
      assert (Hmain : A /\ B /\ C);
        [| destruct Hmain as (HA & HB & HC);
           split; [exact HA |]; split; [exact HB |]; split; [exact HC |];
           intros Hfull; now rewrite (pdfStep_at_the_limit envs jitter (idle s) Hfull)]
  end.
  unfold pdfStep, retryWithExponentialBackoff. cbn [Nat.sub execute].
  (* the first call *)
  destruct (call_shape (envs 1%nat) (idle s)) as (Hr1 & a1 & Hev1 & Hl1 & Hres1);
    [simpl; lia |].
  destruct (generatePurchaseOrderPDF (envs 1%nat) (idle s)) as [[[pdf1 |] | message1] m1];
    simpl in Hr1, Hev1, Hl1, Hres1; [| contradiction |].
  { apply Hlast; [simpl; lia | rewrite Hev1; lia | exact I]. }
  (* the second call *)
  destruct (call_shape (envs 2%nat) m1) as (Hr2 & a2 & Hev2 & Hl2 & Hres2); [lia |].
  destruct (generatePurchaseOrderPDF (envs 2%nat) m1) as [[[pdf2 |] | message2] m2];
    simpl in Hr2, Hev2, Hl2, Hres2; [| contradiction |].
  { apply Hlast; [simpl; lia | rewrite Hev2, Hev1, launches_app; lia | exact I]. }
  (* the third call *)
  destruct (call_shape (envs 3%nat) m2) as (Hr3 & a3 & Hev3 & Hl3 & Hres3); [lia |].
  destruct (generatePurchaseOrderPDF (envs 3%nat) m2) as [[[pdf3 |] | message3] m3] eqn:Hcall3;
    simpl in Hr3, Hev3, Hl3, Hres3; [| contradiction |].
  { apply Hlast; [simpl; lia | rewrite Hev3, Hev2, Hev1, !launches_app; lia | exact I]. }
  apply Hlast; [simpl; lia | rewrite Hev3, Hev2, Hev1, !launches_app; lia |].
  repeat split. exists message3. split; [reflexivity |].
  destruct Hres3 as [(-> & _ & ->) | [cause ->]]; [now left | right].
  exists cause. rewrite Hr2, Hr1, H3. reflexivity.
Qed.

Lemma pdf_step_outcome_witness :
  fst (fst (pdfStep (fun _ => offline (fun _ => cannotLaunch "spawn ENOENT"))
              (fun _ x => x) (idle constructed)))
  = inr {| status := 500; error := "Failed to generate PDF";
           details := "Operation failed after 3 attempts: PDF generation failed after 3 attempts: spawn ENOENT" |} /\
  (launches (events (snd (fst (pdfStep (fun _ => offline (fun _ => cannotLaunch "spawn ENOENT"))
              (fun _ x => x) (idle constructed))))) <= 9)%nat.
Proof.
  split; [vm_compute; reflexivity |].
  exact (proj1 (proj2 (pdf_step_outcome
           (fun _ => offline (fun _ => cannotLaunch "spawn ENOENT"))
           (fun _ x => x) constructed eq_refl))).
Defined.

End PdfStepFacts.

(* ===================================================================== *)
(** * Properties of the e-mail addresses *)
(* ===================================================================== *)

Module EmailsFacts.
Import Terms Emails.

Abbreviation Returned := Render.Returned.
Abbreviation Thrown := Render.Thrown.

Fixpoint takeWhile (p : N -> bool) (s : ustring) : ustring :=
  match s with
  | [] => []
  | c :: rest => if p c then c :: takeWhile p rest else []
  end.

Lemma takeWhile_dropWhile p s : s = takeWhile p s ++ dropWhile p s.
Proof.
  induction s as [| c s IH]; [reflexivity |]. simpl.
  destruct (p c); [simpl; now f_equal | reflexivity].
Qed.

Lemma takeWhile_all p s : Forall (fun c => p c = true) (takeWhile p s).
Proof.
  induction s as [| c s IH]; simpl; [constructor |].
  destruct (p c) eqn:Hc; constructor; auto.
Qed.

Lemma dropWhile_stop p pre c post :
  Forall (fun c => p c = true) pre -> p c = false ->
  dropWhile p (pre ++ c :: post) = c :: post.
Proof.
  induction 1 as [| d pre Hd _ IH]; intros Hc; simpl.
  - now rewrite Hc.
  - rewrite Hd. now apply IH.
Qed.

Lemma at_sign_not_plain : is_plain at_sign = false.
Proof. reflexivity. Qed.

Lemma dot_plain : is_plain dot = true.
Proof. reflexivity. Qed.

Lemma removelast_snoc {A} (l : list A) x y rest :
  removelast (l ++ x :: y :: rest) = l ++ x :: removelast (y :: rest).
Proof.
  rewrite removelast_app by discriminate. reflexivity.
Qed.

Lemma has_inner_dot_spec domain :
  has_inner_dot domain = true <->
  exists label rest, domain = label ++ dot :: rest /\ label <> [] /\ rest <> [].
Proof.
  split.
  - destruct domain as [| c0 tl]; [discriminate |]. simpl.
    intros H. apply existsb_exists in H as (d & Hin & Hd).
    apply N.eqb_eq in Hd. subst d.
    destruct (exists_last (l := tl)) as (body & z & ->).
    { intros ->. simpl in Hin. exact Hin. }
    rewrite removelast_last in Hin.
    apply in_split in Hin as (l1 & l2 & ->).
    exists (c0 :: l1), (l2 ++ [z]). rewrite <- app_assoc. simpl.
    repeat split; [discriminate | destruct l2; discriminate].
  - intros (label & rest & -> & Hl & Hr).
    destruct label as [| c0 label]; [congruence |].
    destruct rest as [| r0 rest]; [congruence |].
    simpl. rewrite removelast_snoc. apply existsb_exists.
    exists dot. split; [apply in_elt | apply N.eqb_refl].
Qed.

(** X20. The address pattern of [createBill] accepts a string exactly when
    it is made of three non-empty runs of code units that are neither white
    space nor at signs, the first followed by an at sign and the second by a
    dot. So an accepted address has exactly one at sign and no white space,
    something before the at sign, and after it a dot with something on both
    of its sides. *)
Theorem emailRegex_language (email : ustring) :
  emailRegex_test email = true <->
  exists mailbox label rest,
    email = mailbox ++ at_sign :: label ++ dot :: rest /\
    mailbox <> [] /\ label <> [] /\ rest <> [] /\
    Forall (fun c => is_plain c = true) mailbox /\
    Forall (fun c => is_plain c = true) label /\
    Forall (fun c => is_plain c = true) rest.
Proof.
  split.
  - destruct email as [| first tl]; [discriminate |].
    cbn [emailRegex_test]. intros H.
    apply andb_true_iff in H as [Hfirst H].
    pose proof (takeWhile_dropWhile is_plain (first :: tl)) as Hsplit.
    pose proof (takeWhile_all is_plain (first :: tl)) as Hbox.
    destruct (dropWhile is_plain (first :: tl)) as [| a domain]; [discriminate |].
    apply andb_true_iff in H as [H Hdot]. apply andb_true_iff in H as [Ha Hall].
    apply N.eqb_eq in Ha. subst a.
    apply has_inner_dot_spec in Hdot as (label & rest & -> & Hl & Hr).
    rewrite forallb_forall in Hall.
    exists (takeWhile is_plain (first :: tl)), label, rest.
    split; [exact Hsplit |]. split; [simpl; rewrite Hfirst; discriminate |].
    split; [exact Hl |]. split; [exact Hr |]. split; [exact Hbox |].
    split; apply List.Forall_forall; intros c Hc; apply Hall;
      apply in_or_app; [left | right; right]; exact Hc.
  - intros (mailbox & label & rest & -> & Hm & Hl & Hr & Hbox & Hlabel & Hrest).
    destruct mailbox as [| first mailbox]; [congruence |].
    cbn [emailRegex_test app].
    change (first :: mailbox ++ at_sign :: label ++ dot :: rest)
      with ((first :: mailbox) ++ at_sign :: label ++ dot :: rest).
    rewrite (dropWhile_stop _ _ _ _ Hbox at_sign_not_plain).
    apply Forall_cons_1 in Hbox as [Hfirst _]. rewrite Hfirst, N.eqb_refl. simpl.
    apply andb_true_iff. split.
    + apply forallb_forall. intros c Hc. apply in_app_or in Hc as [Hc | [<- | Hc]].
      * rewrite List.Forall_forall in Hlabel. now apply Hlabel.
      * apply dot_plain.
      * rewrite List.Forall_forall in Hrest. now apply Hrest.
    + apply has_inner_dot_spec. eauto.
Qed.

Example emailRegex_examples :
  emailRegex_test (js "sales@ingredientz.co") = true /\
  emailRegex_test (js "a@b") = false /\
  emailRegex_test (js "a@.co") = false /\
  emailRegex_test (js "a@b.") = false /\
  emailRegex_test (js "a b@c.d") = false /\
  emailRegex_test (js "a@b@c.d") = false /\
  emailRegex_test (js "@b.c") = false /\
  emailRegex_test (js "a@b..c") = true.
Proof. repeat split; reflexivity. Qed.

Lemma filter_nil_all_fail (l : list ustring) :
  List.filter emailRegex_test l = [] -> Forall (fun e => emailRegex_test e = false) l.
Proof.
  induction l as [| e l IH]; simpl; [constructor |].
  destruct (emailRegex_test e) eqn:He; [discriminate |]. constructor; auto.
Qed.

Lemma filter_all_pass (l : list ustring) :
  Forall (fun e => emailRegex_test e = true) (List.filter emailRegex_test l).
Proof.
  apply List.Forall_forall. intros e He. now apply filter_In in He.
Qed.

(** The strings among the elements of an array. *)
Definition addresses (elements : list Element) : list ustring :=
  flat_map (fun e => match e with Address email => [email] | _ => [] end) elements.

(** An element the first filter drops: a falsy value, or a string that is
    empty or white space only. *)
Definition blank (e : Element) : Prop :=
  match e with
  | Address email => trim email = []
  | FalsyElement => True
  | NoString _ => False
  end.

Lemma dropWhileEnd_keeps p c s : p c = false -> dropWhileEnd p (c :: s) <> [].
Proof. intros Hc. simpl. destruct (dropWhileEnd p s); [now rewrite Hc | discriminate]. Qed.

(** An address that passes the pattern is not blank. *)
Lemma accepted_not_blank email : emailRegex_test email = true -> trim email <> [].
Proof.
  destruct email as [| first tl]; [discriminate |].
  cbn [emailRegex_test]. intros H. apply andb_true_iff in H as [Hfirst _].
  unfold is_plain in Hfirst. apply andb_true_iff in Hfirst as [Hspace _].
  apply negb_true_iff in Hspace.
  unfold trim, strip_edges. cbn [dropWhile]. rewrite Hspace.
  now apply dropWhileEnd_keeps.
Qed.

Lemma nonempty_false (s : ustring) : nonempty s = false <-> s = [].
Proof. destruct s; simpl; split; congruence. Qed.

Lemma nonBlank_returned elements kept :
  nonBlank elements = Returned kept ->
  (forall typeError, ~ In (NoString typeError) elements) /\
  List.filter emailRegex_test kept = List.filter emailRegex_test (addresses elements) /\
  (kept = [] <-> Forall blank elements).
Proof.
  revert kept. induction elements as [| [email | | typeError] rest IH]; intros kept; simpl.
  - intros [= <-]. repeat split; auto.
  - destruct (nonBlank rest) as [kept' |]; [| discriminate].
    destruct (IH kept' eq_refl) as (Hno & Hfilter & Hblank).
    intros [= <-]. split; [| split].
    + intros typeError [Hin | Hin]; [discriminate | now apply (Hno typeError)].
    + destruct (nonempty (trim email)) eqn:Hne; simpl.
      * now rewrite Hfilter.
      * apply nonempty_false in Hne.
        destruct (emailRegex_test email) eqn:Hok; [| exact Hfilter].
        now apply accepted_not_blank in Hok.
    + destruct (nonempty (trim email)) eqn:Hne.
      * split; [discriminate |]. intros Hall. inversion Hall as [| ? ? Hb _]; subst.
        simpl in Hb. rewrite Hb in Hne. discriminate.
      * apply nonempty_false in Hne. rewrite Hblank. split.
        -- intros Hall. now constructor.
        -- intros Hall. now inversion Hall.
  - intros Hrest. destruct (IH kept Hrest) as (Hno & Hfilter & Hblank).
    split; [| split; [exact Hfilter |]].
    + intros typeError [Hin | Hin]; [discriminate | now apply (Hno typeError)].
    + rewrite Hblank. split.
      * intros Hall. now constructor.
      * intros Hall. now inversion Hall.
  - discriminate.
Qed.

Lemma nonBlank_thrown elements typeError :
  nonBlank elements = Thrown typeError ->
  exists before after,
    elements = before ++ NoString typeError :: after /\
    forall other, ~ In (NoString other) before.
Proof.
  induction elements as [| [email | | message] rest IH]; simpl.
  - discriminate.
  - destruct (nonBlank rest) as [kept |] eqn:Hrest; [discriminate |].
    intros [= ->]. destruct (IH eq_refl) as (before & after & -> & Hno).
    exists (Address email :: before), after. split; [reflexivity |].
    intros other [Hin | Hin]; [discriminate | now apply (Hno other)].
  - intros Hrest. destruct (IH Hrest) as (before & after & -> & Hno).
    exists (FalsyElement :: before), after. split; [reflexivity |].
    intros other [Hin | Hin]; [discriminate | now apply (Hno other)].
  - intros [= ->]. exists [], rest. split; [reflexivity | intros other []].
Qed.

Lemma defaultEmails_pass : List.filter emailRegex_test defaultEmails = defaultEmails.
Proof. reflexivity. Qed.

(** X21. The addresses [createBill] keeps when [req.body.emails] is no
    string. Without the field, and with an array whose entries are all
    blank (falsy, empty or white space only), the two default addresses are
    used; both pass the pattern, so the request is not refused for its
    addresses. With an array that has an entry that is not blank, the
    strings that pass the pattern are kept, in their order; if none passes,
    the request is refused with 400: the defaults do not stand in for
    addresses that are all invalid. A truthy entry that is no string makes
    the handler throw, at the first such entry, and [errorHandler] answers
    500. An accepted list is never empty. *)
Theorem requestEmails_result (field : EmailsField) (development : bool) :
  requestEmails NoArray = Accepted defaultEmails /\
  (forall elements, Forall blank elements ->
     requestEmails (EmailArray elements) = Accepted defaultEmails) /\
  match requestEmails field with
  | Accepted valid =>
      valid <> [] /\
      Forall (fun e => emailRegex_test e = true) valid /\
      match field with
      | NoArray => valid = defaultEmails
      | EmailArray elements =>
          (Forall blank elements /\ valid = defaultEmails) \/
          (~ Forall blank elements /\
           valid = List.filter emailRegex_test (addresses elements))
      end
  | Refused status error =>
      status = 400 /\
      exists elements,
        field = EmailArray elements /\
        ~ Forall blank elements /\
        (forall typeError, ~ In (NoString typeError) elements) /\
        Forall (fun e => emailRegex_test e = false) (addresses elements)
  | Throws typeError =>
      (exists before after,
         field = EmailArray (before ++ NoString typeError :: after) /\
         forall other, ~ In (NoString other) before) /\
      ErrorHandling.status
        (ErrorHandling.errorHandler development
           (ErrorHandling.plainError "TypeError" typeError)) = 500
  end.
Proof.
  assert (Hdefault : requestEmails NoArray = Accepted defaultEmails) by reflexivity.
  assert (Hpass : Forall (fun e => emailRegex_test e = true) defaultEmails).
  { unfold defaultEmails. repeat (constructor; [reflexivity |]). constructor. }
  assert (Hblank : forall elements, Forall blank elements ->
            requestEmails (EmailArray elements) = Accepted defaultEmails).
  { intros elements Hall. unfold requestEmails.
    destruct (nonBlank elements) as [kept | typeError] eqn:Hkept.
    - destruct (nonBlank_returned _ _ Hkept) as (_ & _ & Hiff).
      apply Hiff in Hall. subst kept. reflexivity.
    - destruct (nonBlank_thrown _ _ Hkept) as (before & after & -> & _).
      apply Forall_app in Hall as [_ Hall]. inversion Hall as [| ? ? Hb _]. destruct Hb. }
  split; [exact Hdefault |]. split; [exact Hblank |].
  destruct field as [| elements].
  - rewrite Hdefault. split; [discriminate |]. split; [exact Hpass | reflexivity].
  - unfold requestEmails.
    destruct (nonBlank elements) as [kept | typeError] eqn:Hkept.
    + destruct (nonBlank_returned _ _ Hkept) as (Hno & Hfilter & Hiff).
      destruct kept as [| k kept].
      * cbv zeta. rewrite defaultEmails_pass. unfold defaultEmails at 1.
        split; [discriminate |]. split; [exact Hpass |].
        left. split; [now apply Hiff | reflexivity].
      * cbv zeta. rewrite Hfilter.
        assert (Hnot : ~ Forall blank elements) by (intros Hall; now apply Hiff in Hall).
        pose proof (filter_nil_all_fail (addresses elements)) as Hnil.
        pose proof (filter_all_pass (addresses elements)) as Hall.
        destruct (List.filter emailRegex_test (addresses elements)) as [| v valid].
        -- split; [reflexivity |]. exists elements. auto.
        -- split; [discriminate |]. split; [exact Hall |]. right. auto.
    + split; [| reflexivity].
      destruct (nonBlank_thrown _ _ Hkept) as (before & after & -> & Hno).
      exists before, after. auto.
Qed.

(** An array with one blank entry gets the defaults; an array with one
    address that does not pass the pattern is refused. *)
Example requestEmails_examples :
  requestEmails (EmailArray [Address (js " ")]) = Accepted defaultEmails /\
  requestEmails (EmailArray [Address (js "sales")])
  = Refused 400 "At least one valid email address is required" /\
  requestEmails (EmailArray [Address (js "a@b.co"); FalsyElement; Address (js "x y")])
  = Accepted [js "a@b.co"] /\
  requestEmails (EmailArray [Address (js "a@b.co"); NoString "email.trim is not a function"])
  = Throws "email.trim is not a function".
Proof. repeat split; reflexivity. Qed.

End EmailsFacts.

(* ===================================================================== *)
(** * Properties of the logo *)
(* ===================================================================== *)

Module LogoFacts.
Import Logo.

Local Open Scope string_scope.

Lemma prefix_data rest : String.prefix "data:" ("data:" ++ rest) = true.
Proof. apply JsStringFacts.prefix_spec. now exists rest. Qed.

Lemma logoSrc_of_data rest assetsLogo : logoSrc ("data:" ++ rest) assetsLogo = "data:" ++ rest.
Proof.
  unfold logoSrc. rewrite prefix_data. reflexivity.
Qed.

Lemma logoSrc_prefixed c rest assetsLogo :
  String.prefix "data:" (String c rest) = true ->
  logoSrc (String c rest) assetsLogo = String c rest.
Proof. intros Hp. unfold logoSrc. now rewrite Hp. Qed.

Lemma logoSrc_bare c rest assetsLogo :
  String.prefix "data:" (String c rest) = false ->
  logoSrc (String c rest) assetsLogo = "data:image/png;base64," ++ String c rest.
Proof. intros Hp. unfold logoSrc. now rewrite Hp. Qed.

(** X22. The logo an accepted request carries reaches the document as it
    is: an uploaded file must be declared as JPEG, JPG, PNG or GIF and hold
    at most 5 MB, and its data URL, with its own type, is the source of the
    image; a default logo read by [imageToBase64] arrives unchanged too.
    Whatever [generateHTML] is given, the source it uses is empty or a data
    URL, and a source it produced is left alone when passed through
    again. *)
Theorem logo_reaches_the_document
    (file : option File) (found : option (option string))
    (assetsLogo : option string) :
  match requestLogo file found with
  | Refused status _ =>
      status = 400 /\
      exists f, file = Some f /\
        (~ In (mimetype f) allowedTypes \/ (5242880 < size f)%N)
  | LogoBase64 logo =>
      (forall f, file = Some f ->
         In (mimetype f) allowedTypes /\ (size f <= 5242880)%N /\
         logoSrc logo assetsLogo = "data:" ++ mimetype f ++ ";base64," ++ base64 f) /\
      (logo <> "" -> logoSrc logo assetsLogo = logo)
  end /\
  (forall logoBase64,
     (logoSrc logoBase64 assetsLogo = "" \/
      String.prefix "data:" (logoSrc logoBase64 assetsLogo) = true) /\
     logoSrc (logoSrc logoBase64 assetsLogo) assetsLogo = logoSrc logoBase64 assetsLogo).
Proof.
  split.
  - unfold requestLogo. destruct file as [f |].
    + destruct (JsString.array_includes allowedTypes (mimetype f)) eqn:Htype; simpl.
      * destruct (maxSize <? size f)%N eqn:Hsize.
        -- split; [reflexivity |]. exists f. split; [reflexivity |]. right.
           apply N.ltb_lt in Hsize. exact Hsize.
        -- split.
           ++ intros f' [= <-]. apply N.ltb_ge in Hsize.
              unfold JsString.array_includes in Htype.
              apply existsb_exists in Htype as (x & Hin & Heq).
              apply String.eqb_eq in Heq. subst x.
              split; [exact Hin |]. split; [exact Hsize |].
              exact (logoSrc_of_data (mimetype f ++ ";base64," ++ base64 f) assetsLogo).
           ++ intros _.
              exact (logoSrc_of_data (mimetype f ++ ";base64," ++ base64 f) assetsLogo).
      * split; [reflexivity |]. exists f. split; [reflexivity |]. left.
        intros Hin. unfold JsString.array_includes in Htype.
        assert (existsb (String.eqb (mimetype f)) allowedTypes = true); [| congruence].
        apply existsb_exists. exists (mimetype f). split; [exact Hin | apply String.eqb_refl].
    + destruct found as [[content |] |]; simpl;
        (split; [intros f [=] |]); congruence.
  - intros logoBase64.
    assert (Hdefault : forall content,
              logoSrc ("data:image/png;base64," ++ content) assetsLogo
              = "data:image/png;base64," ++ content)
      by (intros content; exact (logoSrc_of_data ("image/png;base64," ++ content) assetsLogo)).
    destruct logoBase64 as [| c rest].
    + destruct assetsLogo as [content |].
      * change (logoSrc "" (Some content)) with ("data:image/png;base64," ++ content).
        split; [right; exact (prefix_data ("image/png;base64," ++ content)) | apply Hdefault].
      * change (logoSrc "" None) with "". split; [now left | reflexivity].
    + destruct (String.prefix "data:" (String c rest)) eqn:Hp.
      * rewrite (logoSrc_prefixed c rest assetsLogo Hp). split; [now right |].
        apply (logoSrc_prefixed c rest assetsLogo Hp).
      * rewrite (logoSrc_bare c rest assetsLogo Hp).
        split; [right; exact (prefix_data ("image/png;base64," ++ String c rest))
               | apply Hdefault].
Qed.

End LogoFacts.

(* ===================================================================== *)
(** * Properties of the items of a request *)
(* ===================================================================== *)

Module BillItemsFacts.
Import ErrorHandling BillItems.

Local Open Scope string_scope.

Section Items.
Variable raw : Type.
Variable positive : raw -> bool.
Variable text : raw -> string.

Local Abbreviation Item := (Item raw).
Local Abbreviation Element := (Element raw).
Local Abbreviation itemError := (itemError raw positive text).
Local Abbreviation itemsError := (itemsError raw positive text).

(** An element the callback accepts. *)
Definition usable (el : Element) : Prop :=
  exists it, el = Properties raw it /\
    positive (quantity raw it) = true /\
    positive (unitPrice raw it) = true /\
    (exists u, unit raw it = UnitName u) /\
    description raw it = Trims /\
    hsn raw it = Trims.

Lemma itemError_none index el : itemError index el = None <-> usable el.
Proof.
  unfold usable, BillItems.itemError. split.
  - destruct el as [typeError | it]; [discriminate |].
    intros H. exists it. split; [reflexivity |].
    destruct (positive (quantity raw it)); [| discriminate].
    destruct (positive (unitPrice raw it)); [| discriminate].
    destruct (unit raw it) as [u |]; [| discriminate].
    destruct (description raw it); [| discriminate].
    destruct (hsn raw it); [| discriminate].
    simpl in *. eauto 10.
  - intros (it & -> & -> & -> & [u ->] & -> & ->). reflexivity.
Qed.

Lemma itemsError_none index items :
  itemsError index items = None <-> Forall usable items.
Proof.
  revert index. induction items as [| el items IH]; intros index; simpl.
  - split; [constructor | reflexivity].
  - destruct (itemError index el) as [e |] eqn:Hel.
    + split; [discriminate |]. intros Hall. inversion Hall as [| ? ? Hu _]; subst.
      apply (itemError_none index) in Hu. congruence.
    + rewrite IH. split.
      * intros Hall. constructor; [now apply (itemError_none index) | exact Hall].
      * intros Hall. now inversion Hall.
Qed.

Lemma itemsError_first index items err :
  itemsError index items = Some err ->
  exists before el after,
    items = (before ++ el :: after)%list /\
    Forall usable before /\
    itemError (index + length before) el = Some err.
Proof.
  revert index. induction items as [| el items IH]; intros index; [discriminate |].
  simpl. destruct (itemError index el) as [e |] eqn:Hel.
  - intros [= ->]. exists [], el, items. simpl. rewrite Nat.add_0_r. repeat split; auto.
  - intros H. destruct (IH _ H) as (before & el' & after & -> & Hall & Herr).
    exists (el :: before), el', after. simpl. split; [reflexivity |]. split.
    + constructor; [now apply (itemError_none index) | exact Hall].
    + replace (index + S (length before))%nat with (S index + length before)%nat by lia.
      exact Herr.
Qed.

Lemma itemError_500 development index el err :
  itemError index el = Some err ->
  status (errorHandler development err) = 500 /\
  exists shown, body (errorHandler development err) = ErrorBody shown development /\
    (message err <> "" -> shown = message err).
Proof.
  assert (Hplain : forall kind msg,
            (kind = "Error" \/ kind = "TypeError") ->
            status (errorHandler development (plainError kind msg)) = 500 /\
            exists shown,
              body (errorHandler development (plainError kind msg))
              = ErrorBody shown development /\
              (message (plainError kind msg) <> "" -> shown = message (plainError kind msg))).
  { intros kind msg [-> | ->]; (split; [reflexivity |]); eexists;
      (split; [reflexivity |]); simpl; destruct msg; congruence. }
  unfold BillItems.itemError. destruct el as [typeError | it].
  { intros [= <-]. apply Hplain. now right. }
  destruct (positive (quantity raw it)); simpl.
  2: { intros [= <-]. apply Hplain. now left. }
  destruct (positive (unitPrice raw it)); simpl.
  2: { intros [= <-]. apply Hplain. now left. }
  destruct (unit raw it), (description raw it), (hsn raw it);
    intros [= <-]; apply Hplain; now right.
Qed.

(** X23. [createBill] answers a request with an item it cannot use with
    status 500, not 400. The callback of [items.map] throws for the first
    element, in order, that is null, whose quantity is not a number above
    0, whose unit price is not a number above 0, whose unit is no string,
    or whose description or HSN code is a truthy value that is no string
    (checked in this order); it throws for no other element. The error
    reaches [errorHandler] through [asyncHandler], and [errorHandler]
    answers 500 with the message of the error, which for a bad quantity or
    price names the item by its position, counted from 1. *)
Theorem unusable_item_is_answered_500
    (Answer : Type) (own : Answer -> Response) (development : bool)
    (items : list Element) :
  match itemsError 0 items with
  | None => Forall usable items
  | Some err =>
      status (answer development own (inr err)) = 500 /\
      (exists shown,
         body (answer development own (inr err)) = ErrorBody shown development /\
         (message err <> "" -> shown = message err)) /\
      exists before el after,
        items = (before ++ el :: after)%list /\
        Forall usable before /\
        ~ usable el /\
        match el with
        | NullElement _ typeError => message err = typeError
        | Properties _ it =>
            if negb (positive (quantity raw it)) then
              message err = "Invalid quantity for item "
                              ++ Render.show_nat (length before + 1)
                              ++ ": " ++ text (quantity raw it)
            else if negb (positive (unitPrice raw it)) then
              message err = "Invalid unit price for item "
                              ++ Render.show_nat (length before + 1)
                              ++ ": " ++ text (unitPrice raw it)
            else
              match unit raw it, description raw it, hsn raw it with
              | NoString typeError, _, _ => message err = typeError
              | UnitName _, NoTrim typeError, _ => message err = typeError
              | UnitName _, Trims, NoTrim typeError => message err = typeError
              | UnitName _, Trims, Trims => False
              end
        end
  end.
Proof.
  destruct (itemsError 0 items) as [err |] eqn:Herr; [| now apply (itemsError_none 0)].
  destruct (itemsError_first 0 items err Herr) as (before & el & after & -> & Hall & Hel).
  simpl in Hel. unfold answer.
  destruct (itemError_500 development _ _ _ Hel) as [Hstatus Hbody].
  split; [exact Hstatus |]. split; [exact Hbody |].
  exists before, el, after. split; [reflexivity |]. split; [exact Hall |]. split.
  - intros Hu. apply (itemError_none (length before)) in Hu. congruence.
  - unfold BillItems.itemError in Hel. destruct el as [typeError | it].
    + now injection Hel as <-.
    + destruct (positive (quantity raw it)); simpl in *; [| now injection Hel as <-].
      destruct (positive (unitPrice raw it)); simpl in *; [| now injection Hel as <-].
      destruct (unit raw it), (description raw it), (hsn raw it);
        try discriminate; now injection Hel as <-.
Qed.

End Items.

(** Two items, the second with the quantity -1: the answer is 500 and its
    message names item 2. *)
Example unusable_item_example :
  let items :=
    [ Properties Z {| quantity := 3%Z; unitPrice := 10%Z; unit := UnitName "kg";
                      description := Trims; hsn := Trims |};
      Properties Z {| quantity := (-1)%Z; unitPrice := 10%Z; unit := UnitName "kg";
                      description := Trims; hsn := Trims |} ] in
  option_map (errorHandler false) (itemsError Z (fun z => (0 <? z)%Z) Render.show_Z 0 items)
  = Some {| status := 500;
            body := ErrorBody "Invalid quantity for item 2: -1" false |}.
Proof. reflexivity. Qed.

End BillItemsFacts.

(* ===================================================================== *)
(** * Properties of the printed terms and of the title *)
(* ===================================================================== *)

Module DocumentFacts.
Import Terms Document.

Local Open Scope string_scope.

(** X24. For every document type that is not a name inherited from
    Object.prototype, [generateTermsHTML] gets an array that is not empty,
    so it prints the ordered list and never the notice that no terms were
    specified. The array holds the normalized terms of the request when
    there are any; otherwise it holds the default terms of the document
    type, and those of the purchase order for a type that is not one of the
    three. The title falls back in the same way, to PURCHASE ORDER. *)
Theorem terms_are_always_printed
    (JSON_parse : ustring -> JsonResult) (termsAndConditions : TermsInput)
    (type : string) :
  JsString.array_includes JsObject.prototypeKeys type = false ->
  (exists terms,
     processedTerms JSON_parse termsAndConditions type = Own terms /\
     terms <> [] /\
     generateTermsHTML terms = TermsList terms /\
     (processTermsAndConditions JSON_parse termsAndConditions <> [] ->
      terms = processTermsAndConditions JSON_parse termsAndConditions) /\
     (processTermsAndConditions JSON_parse termsAndConditions = [] ->
      In (type, terms) defaultTermsMap \/
      (~ In type (map fst defaultTermsMap) /\ terms = purchaseOrderTerms))) /\
  (exists title,
     poTitle type = Own title /\
     (In (type, title) titleMap \/
      (~ In type (map fst titleMap) /\ title = "PURCHASE ORDER"))).
Proof.
  intros Hkey.
  assert (Hown : forall V (table : list (string * V)) fallback,
            (exists v, Numbering.own table type = Some v /\ In (type, v) table /\
                       entryOr table type fallback = Own v) \/
            (Numbering.own table type = None /\ ~ In type (map fst table) /\
             entryOr table type fallback = Own fallback)).
  { intros V table fallback. unfold entryOr. rewrite Hkey.
    induction table as [| [k w] table IH]; simpl; [right; auto |].
    destruct (String.eqb_spec k type) as [-> | Hne].
    - left. exists w. auto.
    - destruct IH as [(v & Hv & Hin & He) | (Hn & Hout & He)].
      + left. exists v. rewrite Hv in *. auto.
      + right. rewrite Hn in *. repeat split; auto. intros [? | ?]; auto. }
  split.
  - unfold processedTerms.
    destruct (processTermsAndConditions JSON_parse termsAndConditions) as [| t terms] eqn:Hp.
    + destruct (Hown _ defaultTermsMap purchaseOrderTerms)
        as [(v & Hv & Hin & He) | (Hn & Hout & He)].
      * exists v. rewrite He. split; [reflexivity |].
        assert (Hne : v <> []).
        { simpl in Hin. destruct Hin as [[= _ <-] | [[= _ <-] | [[= _ <-] | []]]];
            discriminate. }
        split; [exact Hne |]. split; [destruct v; [congruence | reflexivity] |].
        split; [congruence | auto].
      * exists purchaseOrderTerms. rewrite He. split; [reflexivity |].
        split; [discriminate |]. split; [reflexivity |]. split; [congruence | auto].
    + exists (t :: terms). split; [reflexivity |]. split; [discriminate |].
      split; [reflexivity |]. split; [reflexivity | discriminate].
  - unfold poTitle.
    destruct (Hown _ titleMap "PURCHASE ORDER") as [(v & Hv & Hin & He) | (Hn & Hout & He)].
    + exists v. rewrite He. auto.
    + exists "PURCHASE ORDER". rewrite He. auto.
Qed.

Lemma terms_are_always_printed_witness :
  processedTerms json_rejects (strings [js "  "]) "invoice"
  = Own [ js "Goods are supplied as per GST rules and tax invoice is issued as per statutory requirements.";
          js "Payment due within agreed credit period from invoice date.";
          js "Late payment may attract interest as per agreement.";
          js "Claims relating to shortages or damages must be raised within 7 days of receipt." ].
Proof.
  destruct (terms_are_always_printed json_rejects (strings [js "  "]) "invoice" eq_refl)
    as [(terms & Hterms & _) _].
  reflexivity.
Defined.

End DocumentFacts.
